(** * pollination-book: the pop-up book site's transition driver, navigation
    controller and text-service client (src/main.js), embedded in Rocq.

    Numbers.  JavaScript numbers are binary64 floats.  The transition driver is
    embedded over exact rationals [Q]: every decimal literal of the source is
    read as the rational it denotes and [+ - * /] are exact.  The module
    [Binary64] at the end of the model re-runs the same update on primitive
    binary64 floats for the closed runs the properties depend on.

    Strings are byte strings ([string]); a non-ASCII character of the source is
    its UTF-8 byte sequence. *)

From Stdlib Require Import ZArith QArith Qabs Qpower Qreduction Qminmax Lqa Lia.
From Stdlib Require Import Bool List String Ascii Arith PeanoNat DecimalString.
From Stdlib Require Import Morphisms Setoid.
From Stdlib Require PrimFloat.
Import ListNotations.

Set Warnings "-inexact-float,-register-all".

(* ================================================================== *)
(** * Part I.  The model                                               *)
(* ================================================================== *)

(** ** 1. Numbers and comparisons *)

Local Open Scope Q_scope.

(** [a < b] on JS numbers, as a test. *)
Definition Qltb (a b : Q) : bool := negb (Qle_bool b a).

(** [a > b], written the way the source writes it. *)
Definition Qgtb (a b : Q) : bool := Qltb b a.

(** ** 2. Transition driver (main.js, lines 510 and 731-767) *)

(** [let bookState = { value: 1.0, target: 1.0 }] *)
Record BookState : Type := mkBookState { value : Q; target : Q }.

Definition bookState_init : BookState := {| value := 1.0; target := 1.0 |}.

(** [const lerpSpeed = (bookState.target < bookState.value) ? 0.10 : 0.05;] *)
Definition lerpSpeed (bs : BookState) : Q :=
  if Qltb (target bs) (value bs) then 0.10 else 0.05.

(** [bookState.value += (bookState.target - bookState.value) * lerpSpeed;] *)
Definition advance (bs : BookState) : BookState :=
  {| value := value bs + (target bs - value bs) * lerpSpeed bs;
     target := target bs |}.

(** The three values derived every frame (never stored). *)
Record DerivedFrameParams : Type := mkDerived {
  contentScale : Q;
  bookRotation : Q;       (* the hinge angle: 0 = open, 1.57 = closed *)
  currentBookScale : Q
}.

(** Lines 737-767: the three phases, tested in the order of the source. *)
Definition derive (v : Q) : DerivedFrameParams :=
  if Qgtb v 0.6 then
    {| contentScale := (v - 0.6) / 0.4;
       bookRotation := 0;
       currentBookScale := 1.4 |}
  else if Qgtb v 0.2 then
    let pct := (v - 0.2) / 0.4 in
    {| contentScale := 0;
       bookRotation := (1 - pct) * 1.57;
       currentBookScale := 1.4 |}
  else
    let pct := v / 0.2 in
    {| contentScale := 0;
       bookRotation := 1.57;
       currentBookScale := pct * 1.4 |}.

(** The table of the specification (section 4.1), one definition per row, to
    compare [derive] with. *)
Definition spec_phase1 (v : Q) : DerivedFrameParams :=
  {| contentScale := (v - 0.6) / 0.4; bookRotation := 0; currentBookScale := 1.4 |}.

Definition spec_phase2 (v : Q) : DerivedFrameParams :=
  {| contentScale := 0;
     bookRotation := (1 - (v - 0.2) / 0.4) * 1.57;
     currentBookScale := 1.4 |}.

Definition spec_phase3 (v : Q) : DerivedFrameParams :=
  {| contentScale := 0; bookRotation := 1.57; currentBookScale := (v / 0.2) * 1.4 |}.

(** Two parameter triples that agree as rationals. *)
Definition params_equiv (a b : DerivedFrameParams) : Prop :=
  contentScale a == contentScale b
  /\ bookRotation a == bookRotation b
  /\ currentBookScale a == currentBookScale b.

(** Continuity on the unit interval, in its uniform epsilon-delta form. *)
Definition continuous_on_unit (f : Q -> Q) : Prop :=
  forall eps : Q, 0 < eps ->
  exists delta : Q, 0 < delta /\
    forall x y : Q, 0 <= x <= 1 -> 0 <= y <= 1 ->
      Qabs (x - y) < delta -> Qabs (f x - f y) < eps.

(** [f] changes at most [L] times as fast as its argument. *)
Definition lipschitz (L : Q) (f : Q -> Q) : Prop :=
  forall x y : Q, Qabs (f x - f y) <= L * Qabs (x - y).

(** [q^n] by repeated multiplication. *)
Fixpoint qpow (q : Q) (n : nat) : Q :=
  match n with
  | O => 1
  | S k => q * qpow q k
  end.

(** [n] frames of the update rule, the target left alone in between. *)
Fixpoint advance_n (n : nat) (bs : BookState) : BookState :=
  match n with
  | O => bs
  | S k => advance_n k (advance bs)
  end.

(** The number of update steps until the value first passes a test
    ([None] when that takes more than [fuel] steps). *)
Fixpoint steps_until (p : Q -> bool) (fuel : nat) (bs : BookState) : option nat :=
  if p (value bs) then Some O
  else match fuel with
       | O => None
       | S k => option_map S (steps_until p k (advance bs))
       end.

(** The same run with every value put in lowest terms after each step: equal
    as rationals, used to evaluate long runs. *)
Definition advance_red (bs : BookState) : BookState :=
  let bs' := advance bs in {| value := Qred (value bs'); target := target bs' |}.

Fixpoint advance_red_n (n : nat) (bs : BookState) : BookState :=
  match n with
  | O => bs
  | S k => advance_red_n k (advance_red bs)
  end.

(** Two book states that agree as rationals. *)
Definition bs_equiv (a b : BookState) : Prop :=
  value a == value b /\ target a == target b.

(** ** 3. Strings *)

Local Open Scope string_scope.

(** The newline of a JS string literal's [\n]. *)
Definition nl : string := String (ascii_of_nat 10) "".

(** [hay.includes(needle)] *)
Fixpoint includes (hay needle : string) : bool :=
  String.prefix needle hay
  || match hay with
     | EmptyString => false
     | String _ rest => includes rest needle
     end.

(** [s.replace(/pat/g, '')] for a literal pattern: the matches are found left
    to right and do not overlap; [skip] counts the characters of the current
    match still to be dropped. *)
Fixpoint remove_all_from (pat : string) (skip : nat) (s : string) : string :=
  match s with
  | EmptyString => EmptyString
  | String c rest =>
      match skip with
      | S k => remove_all_from pat k rest
      | O => if String.prefix pat s
             then remove_all_from pat (String.length pat - 1) rest
             else String c (remove_all_from pat O rest)
      end
  end.

Definition remove_all (pat s : string) : string := remove_all_from pat O s.

(** White space removed by [trim()]: the WhiteSpace and LineTerminator code
    points of ECMAScript, in the UTF-8 bytes they have in a string here.
    One byte: TAB, LF, VT, FF, CR and SP. *)
Definition is_space (c : ascii) : bool :=
  let n := nat_of_ascii c in
  ((9 <=? n) && (n <=? 13) || (n =? 32))%nat.

(** Two bytes: U+00A0 (C2 A0). *)
Definition is_space2 (c1 c2 : ascii) : bool :=
  ((nat_of_ascii c1 =? 194) && (nat_of_ascii c2 =? 160))%nat.

(** Three bytes: U+1680 (E1 9A 80); U+2000 to U+200A, U+2028, U+2029 and
    U+202F (E2 80 80-8A, A8, A9, AF); U+205F (E2 81 9F); U+3000 (E3 80 80);
    U+FEFF (EF BB BF). *)
Definition is_space3 (c1 c2 c3 : ascii) : bool :=
  let n1 := nat_of_ascii c1 in
  let n2 := nat_of_ascii c2 in
  let n3 := nat_of_ascii c3 in
  ((n1 =? 225) && (n2 =? 154) && (n3 =? 128)
   || (n1 =? 226) && (n2 =? 128)
      && ((128 <=? n3) && (n3 <=? 138) || (n3 =? 168) || (n3 =? 169) || (n3 =? 175))
   || (n1 =? 226) && (n2 =? 129) && (n3 =? 159)
   || (n1 =? 227) && (n2 =? 128) && (n3 =? 128)
   || (n1 =? 239) && (n2 =? 187) && (n3 =? 191))%nat.

(** [s.trimStart()]: the white-space characters at the head of [s] go,
    whole characters at a time. *)
Fixpoint trimStart (s : string) : string :=
  match s with
  | EmptyString => EmptyString
  | String c1 r1 =>
      if is_space c1 then trimStart r1
      else
        match r1 with
        | EmptyString => s
        | String c2 r2 =>
            if is_space2 c1 c2 then trimStart r2
            else
              match r2 with
              | EmptyString => s
              | String c3 r3 => if is_space3 c1 c2 c3 then trimStart r3 else s
              end
        end
  end.

(** [s.trimEnd()]: the text is cut where nothing but white space follows. *)
Fixpoint trimEnd (s : string) : string :=
  match s with
  | EmptyString => EmptyString
  | String c rest =>
      match trimStart s with
      | EmptyString => EmptyString
      | _ => String c (trimEnd rest)
      end
  end.

Definition trim (s : string) : string := trimEnd (trimStart s).

(** U+00A0, U+3000 and U+FEFF as they stand in a string. *)
Definition nbsp : string := String (ascii_of_nat 194) (String (ascii_of_nat 160) "").
Definition ideographic_space : string :=
  String (ascii_of_nat 227) (String (ascii_of_nat 128) (String (ascii_of_nat 128) "")).
Definition bom : string :=
  String (ascii_of_nat 239) (String (ascii_of_nat 187) (String (ascii_of_nat 191) "")).

(** How many bytes the white-space character at the head of [s] takes; 0
    when [s] does not begin with one. *)
Definition space_width (s : string) : nat :=
  match s with
  | String c1 r1 =>
      if is_space c1 then 1
      else
        match r1 with
        | String c2 r2 =>
            if is_space2 c1 c2 then 2
            else
              match r2 with
              | String c3 _ => if is_space3 c1 c2 c3 then 3 else 0
              | EmptyString => 0
              end
        | EmptyString => 0
        end
  | EmptyString => 0
  end%nat.

Fixpoint drop (n : nat) (s : string) : string :=
  match n, s with
  | S k, String _ rest => drop k rest
  | _, _ => s
  end.

(** [s.split('(')[0]]: the text before the first "(". *)
Fixpoint before_paren (s : string) : string :=
  match s with
  | EmptyString => EmptyString
  | String c rest => if Ascii.eqb c "("%char then EmptyString else String c (before_paren rest)
  end.

(** Decimal text of a number ([${n}] in a template literal). *)
Definition decimal (n : nat) : string := NilEmpty.string_of_uint (Nat.to_uint n).

(** ** 4. The DOM, as far as main.js touches it *)

(** An element reference is the element's position in the document;
    [null] is [None]. *)
Definition ref : Type := nat.

(** A value that [JSON.parse] or [response.json()] can produce. *)
Inductive JSON : Type :=
| JNull
| JBool (b : bool)
| JNumber (q : Q)
| JString (s : string)
| JArray (items : list JSON)
| JObject (fields : list (string * JSON)).

(** Such a value, or [undefined]. *)
Inductive JSValue : Type :=
| Undefined
| Val (j : JSON).

(** What [innerHTML] of the species card holds: the page's own markup, the
    filled template of lines 158-175 (its six interpolated values), or the
    error paragraph of line 179. *)
Inductive Markup : Type :=
| PageMarkup
| SpeciesCard (icon name latinName : JSValue) (category : string)
              (habitat description : JSValue)
| ParseErrorNote (message : string).

Record Element : Type := mkElement {
  el_id : string;                 (* the id attribute, "" when there is none *)
  el_classList : list string;     (* classList, in token order *)
  el_onclick : option string;     (* getAttribute('onclick') *)
  el_opacity : string;            (* style.opacity *)
  el_firstDiv : option ref;       (* querySelector('div'): first descendant div *)
  el_innerHTML : Markup
}.

Definition Document : Type := list Element.

Definition set_classList (cl : list string) (e : Element) : Element :=
  mkElement (el_id e) cl (el_onclick e) (el_opacity e) (el_firstDiv e) (el_innerHTML e).

Definition set_opacity (o : string) (e : Element) : Element :=
  mkElement (el_id e) (el_classList e) (el_onclick e) o (el_firstDiv e) (el_innerHTML e).

Definition set_innerHTML (m : Markup) (e : Element) : Element :=
  mkElement (el_id e) (el_classList e) (el_onclick e) (el_opacity e) (el_firstDiv e) m.

(** [classList.contains], [classList.add(...)], [classList.remove(...)] *)
Definition contains (cl : list string) (c : string) : bool :=
  existsb (String.eqb c) cl.

Definition add_token (cl : list string) (c : string) : list string :=
  if contains cl c then cl else (cl ++ [c])%list.

Definition add_tokens (tokens cl : list string) : list string :=
  fold_left add_token tokens cl.

Definition remove_tokens (tokens cl : list string) : list string :=
  filter (fun c => negb (contains tokens c)) cl.

Definition has_class (c : string) (e : Element) : bool := contains (el_classList e) c.

Definition el_add (tokens : list string) (e : Element) : Element :=
  set_classList (add_tokens tokens (el_classList e)) e.

Definition el_remove (tokens : list string) (e : Element) : Element :=
  set_classList (remove_tokens tokens (el_classList e)) e.

(** Position of the first element that passes [p]. *)
Fixpoint index_of (p : Element -> bool) (d : Document) : option ref :=
  match d with
  | [] => None
  | e :: rest => if p e then Some O else option_map S (index_of p rest)
  end.

(** [document.getElementById(s)]; no element has the empty id. *)
Definition lookup_id (s : string) (d : Document) : option ref :=
  if String.eqb s "" then None else index_of (fun e => String.eqb (el_id e) s) d.

(** Positions of the elements that pass [p], in document order, counted
    from [i]. *)
Fixpoint positions_from (i : nat) (p : Element -> bool) (d : Document) : list ref :=
  match d with
  | [] => []
  | e :: rest => if p e then i :: positions_from (S i) p rest
                 else positions_from (S i) p rest
  end.

(** [document.querySelectorAll('.' + c)] *)
Definition select_class (c : string) (d : Document) : list ref :=
  positions_from O (has_class c) d.

(** The element at [r] replaced by [f] of it (nothing happens out of range:
    references only come from look-ups, and the document never changes
    length). *)
Fixpoint update (r : ref) (f : Element -> Element) (d : Document) : Document :=
  match d, r with
  | [], _ => []
  | e :: rest, O => f e :: rest
  | e :: rest, S k => e :: update k f rest
  end.

(** ** 5. The page's mutable state *)

(** What a pending [setTimeout] will run. *)
Inductive task : Type :=
| ResumeSwitchPage (pageId : string)
    (* the rest of [switchPage] after [await new Promise(r => setTimeout(r, 500))] *)
| CanvasOpacity (canvas : option ref) (pageId : string)
    (* the 800 ms callback of step 4, with the [canvas] it closed over *)
| ShowTeamBees.
    (* the 2000 ms callback of step 6 *)

Record Timer : Type := mkTimer {
  timer_id : nat;
  due : nat;            (* in milliseconds *)
  callback : task
}.

(** What [animate] writes into the scene graph each frame. *)
Record Scene : Type := mkScene {
  bookGroup_scale : Q;
  leftPivot_rotation_z : Q;
  rightPivot_rotation_z : Q;
  linesGroup_scale : Q;
  popupGroup_scale : Q;
  popupGroup_visible : bool
}.

(** A fetch that went out: its URL and the prompt in its body. *)
Record Request : Type := mkRequest { req_url : string; req_prompt : string }.

Record World : Type := mkWorld {
  document : Document;
  bookState : BookState;
  teamBeeGroup_visible : bool;
  teamBeeTimer : option nat;          (* [null] or a timer id *)
  teamBeeOpacity : Q;
  currentParallaxWeight : Q;
  timers : list Timer;                (* pending timeouts, oldest first *)
  now : nat;                          (* the clock, in milliseconds *)
  nextTimerId : nat;
  scene : Scene;
  localStorage : option string;       (* the item "gemini_api_key" *)
  requests : list Request
}.

Definition set_document (d : Document) (w : World) : World :=
  mkWorld d (bookState w) (teamBeeGroup_visible w) (teamBeeTimer w) (teamBeeOpacity w)
    (currentParallaxWeight w) (timers w) (now w) (nextTimerId w) (scene w)
    (localStorage w) (requests w).

Definition set_bookState (b : BookState) (w : World) : World :=
  mkWorld (document w) b (teamBeeGroup_visible w) (teamBeeTimer w) (teamBeeOpacity w)
    (currentParallaxWeight w) (timers w) (now w) (nextTimerId w) (scene w)
    (localStorage w) (requests w).

Definition set_teamBeeGroup_visible (v : bool) (w : World) : World :=
  mkWorld (document w) (bookState w) v (teamBeeTimer w) (teamBeeOpacity w)
    (currentParallaxWeight w) (timers w) (now w) (nextTimerId w) (scene w)
    (localStorage w) (requests w).

Definition set_teamBeeTimer (t : option nat) (w : World) : World :=
  mkWorld (document w) (bookState w) (teamBeeGroup_visible w) t (teamBeeOpacity w)
    (currentParallaxWeight w) (timers w) (now w) (nextTimerId w) (scene w)
    (localStorage w) (requests w).

Definition set_timers (ts : list Timer) (w : World) : World :=
  mkWorld (document w) (bookState w) (teamBeeGroup_visible w) (teamBeeTimer w)
    (teamBeeOpacity w) (currentParallaxWeight w) ts (now w) (nextTimerId w) (scene w)
    (localStorage w) (requests w).

Definition set_now (t : nat) (w : World) : World :=
  mkWorld (document w) (bookState w) (teamBeeGroup_visible w) (teamBeeTimer w)
    (teamBeeOpacity w) (currentParallaxWeight w) (timers w) t (nextTimerId w) (scene w)
    (localStorage w) (requests w).

Definition set_nextTimerId (n : nat) (w : World) : World :=
  mkWorld (document w) (bookState w) (teamBeeGroup_visible w) (teamBeeTimer w)
    (teamBeeOpacity w) (currentParallaxWeight w) (timers w) (now w) n (scene w)
    (localStorage w) (requests w).

Definition set_localStorage (k : option string) (w : World) : World :=
  mkWorld (document w) (bookState w) (teamBeeGroup_visible w) (teamBeeTimer w)
    (teamBeeOpacity w) (currentParallaxWeight w) (timers w) (now w) (nextTimerId w)
    (scene w) k (requests w).

Definition set_requests (r : list Request) (w : World) : World :=
  mkWorld (document w) (bookState w) (teamBeeGroup_visible w) (teamBeeTimer w)
    (teamBeeOpacity w) (currentParallaxWeight w) (timers w) (now w) (nextTimerId w)
    (scene w) (localStorage w) r.

(** The page as the script finds it: book open, no timer, bees hidden
    (lines 510, 677, 700-702). *)
Definition initial_world (d : Document) (key : option string) : World :=
  {| document := d;
     bookState := bookState_init;
     teamBeeGroup_visible := false;
     teamBeeTimer := None;
     teamBeeOpacity := 0;
     currentParallaxWeight := 1.0;
     timers := [];
     now := O;
     nextTimerId := 1%nat;
     scene := mkScene 1.4 0 0 1 1 true;
     localStorage := key;
     requests := [] |}.

(** ** 6. Statements that read and write the state, and may throw *)

Record Error : Type := mkError { err_name : string; err_message : string }.

(** How a run of statements ends: normally with a value, or by a thrown
    error; either way the writes made so far stay. *)
Inductive Completion (A : Type) : Type :=
| Normal (a : A) (w : World)
| Throw (e : Error) (w : World).

Arguments Normal {A} a w.
Arguments Throw {A} e w.

Definition M (A : Type) : Type := World -> Completion A.

Definition ret {A : Type} (a : A) : M A := fun w => Normal a w.

Definition bind {A B : Type} (m : M A) (k : A -> M B) : M B :=
  fun w => match m w with
           | Normal a w' => k a w'
           | Throw e w' => Throw e w'
           end.

Definition throw {A : Type} (e : Error) : M A := fun w => Throw e w.

(** [try { m } catch (error) { h error }] *)
Definition try_catch {A : Type} (m : M A) (h : Error -> M A) : M A :=
  fun w => match m w with
           | Normal a w' => Normal a w'
           | Throw e w' => h e w'
           end.

Definition gets {A : Type} (f : World -> A) : M A := fun w => Normal (f w) w.

Definition modify (f : World -> World) : M unit := fun w => Normal tt (f w).

Notation "x <- m ;; k" := (bind m (fun x => k))
  (at level 100, m at next level, right associativity).
Notation "m ;;; k" := (bind m (fun _ => k))
  (at level 100, right associativity).

(** The state in which a run ends, thrown or not: an error nobody catches
    (a rejected promise, a failing timer callback) stops that run only. *)
Definition settle {A : Type} (c : Completion A) : World :=
  match c with
  | Normal _ w => w
  | Throw _ w => w
  end.

(** Reading a property of [null] or [undefined]. *)
Definition TypeError (what : string) : Error :=
  mkError "TypeError" ("Cannot read properties of " ++ what).

Definition deref (r : option ref) : M ref :=
  match r with
  | Some x => ret x
  | None => throw (TypeError "null")
  end.

Definition getElementById (s : string) : M (option ref) :=
  gets (fun w => lookup_id s (document w)).

Definition querySelectorAll (c : string) : M (list ref) :=
  gets (fun w => select_class c (document w)).

Definition modify_element (r : ref) (f : Element -> Element) : M unit :=
  modify (fun w => set_document (update r f (document w)) w).

Definition read_element {A : Type} (r : ref) (f : Element -> A) (default : A) : M A :=
  gets (fun w => match nth_error (document w) r with
                 | Some e => f e
                 | None => default
                 end).

Definition classList_contains (r : option ref) (c : string) : M bool :=
  x <- deref r ;; read_element x (has_class c) false.

Definition classList_add (r : option ref) (tokens : list string) : M unit :=
  x <- deref r ;; modify_element x (el_add tokens).

Definition classList_remove (r : option ref) (tokens : list string) : M unit :=
  x <- deref r ;; modify_element x (el_remove tokens).

Definition style_opacity_set (r : option ref) (o : string) : M unit :=
  x <- deref r ;; modify_element x (set_opacity o).

Definition innerHTML_set (r : option ref) (m : Markup) : M unit :=
  x <- deref r ;; modify_element x (set_innerHTML m).

Definition querySelector_div (r : ref) : M (option ref) :=
  read_element r el_firstDiv None.

Definition getAttribute_onclick (r : ref) : M (option string) :=
  read_element r el_onclick None.

(** [list.forEach(f)] *)
Fixpoint forEach (rs : list ref) (f : ref -> M unit) : M unit :=
  match rs with
  | [] => ret tt
  | r :: rest => f r ;;; forEach rest f
  end.

(** [setTimeout(callback, delay)]: ids are handed out from 1 upwards. *)
Definition setTimeout (t : task) (delay : nat) : M nat :=
  fun w =>
    let id := nextTimerId w in
    Normal id
      (set_nextTimerId (S id)
         (set_timers (timers w ++ [mkTimer id (now w + delay) t])%list w)).

Definition clearTimeout (id : nat) : M unit :=
  modify (fun w => set_timers (filter (fun t => negb (timer_id t =? id)%nat) (timers w)) w).

(** ** 7. Navigation controller: [switchPage] (main.js, lines 189-287) *)

Definition header_solid : list string :=
  ["bg-black/90"; "backdrop-blur-md"; "shadow-2xl"; "border-b"; "border-white/10"].

Definition nav_pill : list string :=
  ["bg-black/50"; "backdrop-blur-md"; "border"; "border-white/10"; "shadow-lg"].

Definition highlight : string := "text-[#D4AF37]".

Definition set_target (t : Q) : M unit :=
  modify (fun w => set_bookState {| value := value (bookState w); target := t |} w).

(** Step 2, "Logic for entering Home". *)
Definition enter_home (isHome : bool) : M unit :=
  if isHome then
    set_target 1.0 ;;;
    canvas <- getElementById "canvas-container" ;;
    style_opacity_set canvas "1" ;;;
    header <- getElementById "main-header" ;;
    classList_remove header header_solid ;;;
    classList_add header ["py-6"] ;;;
    navContainer <- getElementById "nav-container" ;;
    classList_add navContainer nav_pill
  else ret tt.

(** Step 3, "UI Update (Page Switching)". *)
Definition swap_sections (isHome : bool) (pageId : string) : M unit :=
  sections <- querySelectorAll "page-section" ;;
  forEach sections (fun el =>
    classList_remove (Some el) ["active"] ;;;
    classList_remove (Some el) ["page-transition-enter"]) ;;;
  target <- getElementById (if isHome then "home-page" else pageId) ;;
  match target with
  | Some t =>
      classList_add target ["active"] ;;;
      if negb isHome then
        contentContainer <- querySelector_div t ;;
        match contentContainer with
        | Some _ => classList_add contentContainer ["page-transition-enter"]
        | None => ret tt
        end
      else ret tt
  | None => ret tt
  end.

(** Step 4, "Update Header/Nav Styling for Non-Home". *)
Definition style_non_home (isHome : bool) (pageId : string) : M unit :=
  if negb isHome then
    canvas <- getElementById "canvas-container" ;;
    _ <- setTimeout (CanvasOpacity canvas pageId) 800 ;;
    header <- getElementById "main-header" ;;
    classList_add header header_solid ;;;
    classList_remove header ["py-6"] ;;;
    navContainer <- getElementById "nav-container" ;;
    classList_remove navContainer nav_pill
  else ret tt.

(** Step 5, "Update Nav Links". *)
Definition update_nav_links (pageId : string) : M unit :=
  all <- querySelectorAll "nav-link" ;;
  forEach all (fun el => classList_remove (Some el) [highlight]) ;;;
  links <- querySelectorAll "nav-link" ;;
  forEach links (fun link =>
    onclick <- getAttribute_onclick link ;;
    match onclick with
    | None => throw (TypeError "null")
    | Some text =>
        if includes text pageId then classList_add (Some link) [highlight] else ret tt
    end).

(** Step 6, "Team Bees Logic".  [if (teamBeeTimer)] holds for a non-zero id. *)
Definition team_bees (pageId : string) : M unit :=
  pending <- gets teamBeeTimer ;;
  match pending with
  | Some (S _ as id) => clearTimeout id
  | _ => ret tt
  end ;;;
  if String.eqb pageId "team" then
    id <- setTimeout ShowTeamBees 2000 ;;
    modify (set_teamBeeTimer (Some id))
  else
    modify (set_teamBeeGroup_visible false).

(** Steps 2 to 6: what [switchPage] does once it is past its [await], or at
    once when it does not wait. *)
Definition switchPage_finish (pageId : string) : M unit :=
  let isHome := String.eqb pageId "home" in
  enter_home isHome ;;;
  swap_sections isHome pageId ;;;
  style_non_home isHome pageId ;;;
  update_nav_links pageId ;;;
  team_bees pageId.

(** [switchPage(pageId)] up to the point where it returns to the event loop:
    leaving home it sets the target and parks the rest behind a 500 ms timer;
    otherwise it runs to its end. *)
Definition switchPage (pageId : string) : M unit :=
  let isHome := String.eqb pageId "home" in
  home <- getElementById "home-page" ;;
  currentIsHome <- classList_contains home "active" ;;
  if currentIsHome && negb isHome then
    set_target 0.0 ;;;
    _ <- setTimeout (ResumeSwitchPage pageId) 500 ;;
    ret tt
  else switchPage_finish pageId.

(** The bodies of the timer callbacks. *)
Definition run_task (t : task) : M unit :=
  match t with
  | ResumeSwitchPage pageId => switchPage_finish pageId
  | CanvasOpacity canvas pageId =>
      if String.eqb pageId "team" then style_opacity_set canvas "1"
      else style_opacity_set canvas "0.3"
  | ShowTeamBees =>
      team <- getElementById "team" ;;
      active <- classList_contains team "active" ;;
      if active then
        modify (set_teamBeeGroup_visible true) ;;;
        canvas <- getElementById "canvas-container" ;;
        style_opacity_set canvas "1"
      else ret tt
  end.

(** ** 8. The render loop's state update: [animate] (lines 705-843)

    The camera and the orbiting bees (sines and cosines of the clock) are
    left out; everything that reads or writes the state above is here. *)
Definition animate (w : World) : World :=
  let isTeamPage :=
    match lookup_id "team" (document w) with
    | Some t => match nth_error (document w) t with
                | Some e => has_class "active" e
                | None => false
                end
    | None => false
    end in
  let targetWeight := if isTeamPage then 0.0 else 1.0 in
  let weight := currentParallaxWeight w + (targetWeight - currentParallaxWeight w) * 0.05 in
  let bs := advance (bookState w) in
  let p := derive (value bs) in
  let opacity :=
    if teamBeeGroup_visible w then
      if Qltb (teamBeeOpacity w) 1.0 then
        let o := teamBeeOpacity w + 0.01 in
        if Qgtb o 1.0 then 1.0 else o
      else teamBeeOpacity w
    else 0 in
  mkWorld (document w) bs (teamBeeGroup_visible w) (teamBeeTimer w) opacity weight
    (timers w) (now w) (nextTimerId w)
    {| bookGroup_scale := currentBookScale p;
       leftPivot_rotation_z := - bookRotation p;
       rightPivot_rotation_z := bookRotation p;
       linesGroup_scale := contentScale p;
       popupGroup_scale := contentScale p;
       popupGroup_visible := Qgtb (contentScale p) 0.01 |}
    (localStorage w) (requests w).

(** ** 9. The event loop *)

(** The oldest pending timer that is due, and the others. *)
Fixpoint pop_due (t : nat) (ts : list Timer) : option (Timer * list Timer) :=
  match ts with
  | [] => None
  | x :: rest =>
      if (due x <=? t)%nat then Some (x, rest)
      else match pop_due t rest with
           | Some (y, rest') => Some (y, x :: rest')
           | None => None
           end
  end.

(** Run the timers that are due, oldest first; a callback may cancel one
    that was still to run.  Every delay of the source is positive, so a
    timer armed here is not due yet and [fuel], the number of timers pending
    at the start, is enough ([tick_runs_all_due] below). *)
Fixpoint run_due (fuel : nat) (w : World) : World :=
  match fuel with
  | O => w
  | S k =>
      match pop_due (now w) (timers w) with
      | None => w
      | Some (t, rest) => run_due k (settle (run_task (callback t) (set_timers rest w)))
      end
  end.

(** One millisecond passes. *)
Definition tick (w : World) : World :=
  let w' := set_now (S (now w)) w in
  run_due (List.length (timers w')) w'.

Inductive event : Type :=
| Click (pageId : string)     (* an [onclick="switchPage('...')"] *)
| Tick
| Frame.                      (* a [requestAnimationFrame] callback *)

Definition step (w : World) (e : event) : World :=
  match e with
  | Click pageId => settle (switchPage pageId w)
  | Tick => tick w
  | Frame => animate w
  end.

Definition run (w : World) (es : list event) : World := fold_left step es w.

(** Pending timers that would show the team bees. *)
Definition is_bee_timer (t : Timer) : bool :=
  match callback t with
  | ShowTeamBees => true
  | _ => false
  end.

Definition bee_timers (w : World) : list Timer := filter is_bee_timer (timers w).

(** Page sections that carry the active marker, by position. *)
Definition active_sections (d : Document) : list ref :=
  positions_from O (fun e => has_class "page-section" e && has_class "active" e) d.

(** Navigation links that carry the highlight, by position. *)
Definition highlighted_links (d : Document) : list ref :=
  positions_from O (fun e => has_class "nav-link" e && has_class highlight e) d.

(** ** 10. Text-service client (main.js, lines 3-183) *)

(** How a [fetch] ends: it rejects, or it resolves to a response with a
    status and a body that [response.json()] parses or rejects. *)
Inductive FetchOutcome : Type :=
| NetworkError (message : string)
| Response (status : nat) (body : Error + JSON).

(** What the browser and the network answer during one call. *)
Record Env : Type := mkEnv {
  confirm_answer : bool;                       (* [confirm(...)] *)
  prompt_answer : option string;               (* [prompt(...)], [null] when cancelled *)
  fetch_outcome : string -> string -> FetchOutcome;   (* by URL and prompt *)
  random_category : nat;                       (* the two [Math.random()] draws *)
  random_seed : nat
}.

(** The double quote, which a string literal cannot hold. *)
Definition dq : string := String (ascii_of_nat 34) "".

(** [v[key]] and [v.key]: reading a property throws on [null] and
    [undefined]; an object gives its field, an array or a string its element
    at a numeric key, anything else [undefined]. *)
Fixpoint field (key : string) (fields : list (string * JSON)) : JSValue :=
  match fields with
  | [] => Undefined
  | (k, v) :: rest => if String.eqb k key then Val v else field key rest
  end.

Definition read_prop (v : JSValue) (key : string) : Error + JSValue :=
  match v with
  | Undefined => inl (TypeError ("undefined (reading '" ++ key ++ "')"))
  | Val JNull => inl (TypeError ("null (reading '" ++ key ++ "')"))
  | Val (JObject fields) => inr (field key fields)
  | Val (JArray items) =>
      if String.eqb key "0" then
        inr (match items with x :: _ => Val x | [] => Undefined end)
      else inr Undefined
  | Val (JString s) =>
      if String.eqb key "0" then
        inr (match s with String c _ => Val (JString (String c "")) | EmptyString => Undefined end)
      else inr Undefined
  | Val _ => inr Undefined
  end.

Definition get_prop (v : JSValue) (key : string) : M JSValue :=
  match read_prop v key with
  | inl e => throw e
  | inr x => ret x
  end.

(** [localStorage.getItem("gemini_api_key") || ""] *)
Definition getApiKey : M string :=
  gets (fun w => match localStorage w with Some k => k | None => "" end).

(** [manageApiKey()]; the masked [displayKey] is computed and not used, the
    alerts change nothing. *)
Definition manageApiKey (env : Env) : M unit :=
  currentKey <- getApiKey ;;
  match prompt_answer env with
  | Some newKey =>
      if String.eqb (trim newKey) "" then modify (set_localStorage None)
      else modify (set_localStorage (Some (trim newKey)))
  | None => ret tt
  end.

Definition checkApiKey (env : Env) : M bool :=
  key <- getApiKey ;;
  if String.eqb key "" then
    if confirm_answer env then
      manageApiKey env ;;;
      k <- getApiKey ;;
      ret (negb (String.eqb k ""))
    else ret false
  else ret true.

Definition endpoint : string :=
  "https://generativelanguage.googleapis.com/v1beta/models/gemini-2.5-flash-lite:generateContent?key=".

(** [await fetch(url, ...)] *)
Definition fetch (env : Env) (url prompt : string) : M (nat * (Error + JSON)) :=
  fun w =>
    let w' := set_requests (requests w ++ [mkRequest url prompt])%list w in
    match fetch_outcome env url prompt with
    | NetworkError message => Throw (mkError "TypeError" message) w'
    | Response status body => Normal (status, body) w'
    end.

(** [response.ok] *)
Definition ok (status : nat) : bool := ((200 <=? status) && (status <=? 299))%nat.

(** [await response.json()] *)
Definition response_json (body : Error + JSON) : M JSValue :=
  match body with
  | inl e => throw e
  | inr j => ret (Val j)
  end.

Definition no_key_message : string := "請先設定 API Key 才能使用此功能。".

Definition connection_error (message : string) : string :=
  "連線發生錯誤：" ++ message ++ "。" ++ nl ++ "請檢查您的 API Key 是否正確。".

(** [callGemini(prompt)] *)
Definition callGemini (env : Env) (prompt : string) : M JSValue :=
  apiKey <- getApiKey ;;
  hasKey <- (if String.eqb apiKey "" then checkApiKey env else ret true) ;;
  if negb hasKey then ret (Val (JString no_key_message))
  else
    key <- getApiKey ;;
    let url := endpoint ++ key in
    try_catch
      (response <- fetch env url prompt ;;
       let (status, body) := response in
       (if negb (ok status) then
          errData <- response_json body ;;
          throw (mkError "Error" ("API Error: " ++ decimal status))
        else ret tt) ;;;
       data <- response_json body ;;
       candidates <- get_prop data "candidates" ;;
       candidate <- get_prop candidates "0" ;;
       content <- get_prop candidate "content" ;;
       parts <- get_prop content "parts" ;;
       part <- get_prop parts "0" ;;
       get_prop part "text")
      (fun error => ret (Val (JString (connection_error (err_message error))))).

Definition categories : list string :=
  ["熱帶雨林的特殊鳥類 (如蜂鳥、太陽鳥)";
   "夜行性授粉動物 (如長舌蝠、天蛾)";
   "特殊的授粉甲蟲或蒼蠅";
   "非昆蟲類的授粉者 (如壁虎、狐猴、負鼠)";
   "蘭花的專一性授粉者 (如特殊的蜂類)";
   "沙漠植物的授粉者";
   "高山或寒冷地區的授粉昆蟲";
   "色彩斑斕的蝴蝶"].

(** One line of the JSON sample in the prompt. *)
Definition sample_line (key text : string) (last : bool) : string :=
  "        " ++ dq ++ key ++ dq ++ ": " ++ dq ++ text ++ dq
  ++ (if last then "" else ",") ++ nl.

Definition species_prompt (randomCategory : string) (randomSeed : nat) : string :=
  "請作為一位自然圖鑑學家，從「" ++ randomCategory
  ++ "」這個具體類別中，挑選一個真實存在、獨特且令人驚奇的授粉物種。" ++ nl
  ++ "    請避免重複常見的物種（如普通蜜蜂），目標是讓讀者感到新奇。(隨機參數: "
  ++ decimal randomSeed ++ ")" ++ nl
  ++ "    " ++ nl
  ++ "    請回傳一個 JSON 格式的資料，包含以下欄位：" ++ nl
  ++ "    {" ++ nl
  ++ sample_line "name" "物種名稱 (繁體中文)" false
  ++ sample_line "latinName" "學名 (Latin)" false
  ++ sample_line "icon" "一個最能代表該物種的 emoji (若是罕見物種可用相近動物)" false
  ++ sample_line "habitat" "棲息地簡述" false
  ++ sample_line "description"
       "一段約 50-80 字的優美介紹，描述它是如何授粉的，以及它的特殊冷知識。" true
  ++ "    }" ++ nl
  ++ "    嚴格只回傳 JSON 字串，不要有 markdown 標記 (不要寫 ```json)，只要純 JSON。".

(** Line 153: [jsonStr.replace(/```json/g, '').replace(/```/g, '').trim()] *)
Definition strip_fences (s : string) : string :=
  trim (remove_all "```" (remove_all "```json" s)).


Section SpeciesGenerator.

(** [JSON.parse], the platform's: it returns a value or throws a
    [SyntaxError]. *)
Variable JSON_parse : string -> Error + JSON.

(** Lines 152-182 of [generateSpeciesProfile]: what is done with the reply
    of [callGemini]. *)
Definition show_species (contentEl loadingEl : option ref) (randomCategory : string)
           (reply : JSValue) : M unit :=
  jsonStr <- match reply with
             | Val (JString s) => ret (strip_fences s)
             | _ => throw (mkError "TypeError" "jsonStr.replace is not a function")
             end ;;
  try_catch
    (data <- match JSON_parse jsonStr with
             | inl e => throw e
             | inr j => ret (Val j)
             end ;;
     icon <- get_prop data "icon" ;;
     name <- get_prop data "name" ;;
     latinName <- get_prop data "latinName" ;;
     habitat <- get_prop data "habitat" ;;
     description <- get_prop data "description" ;;
     innerHTML_set contentEl
       (SpeciesCard icon name latinName (before_paren randomCategory) habitat description))
    (fun e => innerHTML_set contentEl (ParseErrorNote (err_message e))) ;;;
  classList_add loadingEl ["hidden"].

(** [generateSpeciesProfile()] *)
Definition generateSpeciesProfile (env : Env) : M unit :=
  contentEl <- getElementById "species-content" ;;
  loadingEl <- getElementById "species-loading" ;;
  key <- getApiKey ;;
  hasKey <- (if String.eqb key "" then checkApiKey env else ret true) ;;
  if negb hasKey then ret tt
  else
    classList_remove loadingEl ["hidden"] ;;;
    let randomCategory :=
      nth (random_category env mod List.length categories) categories "" in
    let randomSeed := random_seed env in
    let systemPrompt := species_prompt randomCategory randomSeed in
    reply <- callGemini env systemPrompt ;;
    show_species contentEl loadingEl randomCategory reply.



End SpeciesGenerator.

(** The reply of the service that carries [text] (section 6 of the spec:
    [candidates[0].content.parts[0].text]). *)
Definition reply_with (text : string) : JSON :=
  JObject [("candidates",
            JArray [JObject [("content",
                              JObject [("parts", JArray [JObject [("text", JString text)]])])]])].

(** ** 11. The update rule on binary64 floats

    The same two lines of [animate] on the numbers JavaScript computes with,
    to run the closed cases on. *)
Module Binary64.
Import PrimFloat.
Local Open Scope float_scope.

Record BookState : Type := mkBookState { value : float; target : float }.

Definition lerpSpeed (bs : BookState) : float :=
  if ltb (target bs) (value bs) then 0.10 else 0.05.

Definition advance (bs : BookState) : BookState :=
  {| value := value bs + (target bs - value bs) * lerpSpeed bs;
     target := target bs |}.

Fixpoint advance_n (n : nat) (bs : BookState) : BookState :=
  match n with
  | O => bs
  | S k => advance_n k (advance bs)
  end.

Fixpoint steps_until (p : float -> bool) (fuel : nat) (bs : BookState) : option nat :=
  if p (value bs) then Some O
  else match fuel with
       | O => None
       | S k => option_map S (steps_until p k (advance bs))
       end.

End Binary64.

(** A [JSON.parse] for the one text of the example below; any other text is
    a syntax error to it. *)
Definition sample_json : string :=
  "{" ++ dq ++ "name" ++ dq ++ ":" ++ dq ++ "X" ++ dq ++ "}".

Definition sample_parse (s : string) : Error + JSON :=
  if String.eqb s sample_json then inr (JObject [("name", JString "X")])
  else inl (mkError "SyntaxError" "Unexpected token").

(** A browser and a service that answer every request with [text]. *)
Definition answering (text : string) : Env :=
  {| confirm_answer := false;
     prompt_answer := None;
     fetch_outcome := fun _ _ => Response 200 (inr (reply_with text));
     random_category := 0;
     random_seed := 0 |}.

(** ** 12. A page to run the script on

    The markup is not part of main.js; this is a small page with the ids and
    classes the script looks for: the canvas host, the header, the nav
    container with four links, and the sections home-page, hive, species and
    team, each content section with a first div. *)
Definition plain (id : string) (classes : list string) : Element :=
  mkElement id classes None "" None PageMarkup.

Definition nav_link (onclick : string) (classes : list string) : Element :=
  mkElement "" ("nav-link" :: classes) (Some onclick) "" None PageMarkup.

Definition section (id : string) (classes : list string) (div : option ref) : Element :=
  mkElement id ("page-section" :: classes) None "" div PageMarkup.

Definition sample_document : Document :=
  [ plain "canvas-container" [];                               (* 0 *)
    plain "main-header" ["py-6"];                              (* 1 *)
    plain "nav-container" nav_pill;                            (* 2 *)
    nav_link "switchPage('home')" [highlight];                 (* 3 *)
    nav_link "switchPage('hive')" [];                          (* 4 *)
    nav_link "switchPage('species')" [];                       (* 5 *)
    nav_link "switchPage('team')" [];                          (* 6 *)
    section "home-page" ["active"] None;                       (* 7 *)
    section "hive" [] (Some 9%nat);                            (* 8 *)
    plain "" [];                                               (* 9 *)
    section "species" [] (Some 11%nat);                        (* 10 *)
    plain "" [];                                               (* 11 *)
    section "team" [] (Some 13%nat);                           (* 12 *)
    plain "" [];                                               (* 13 *)
    plain "species-content" [];                                (* 14 *)
    plain "species-loading" ["hidden"] ].                      (* 15 *)

Definition sample_world : World := initial_world sample_document (Some "key").

(** [n] milliseconds pass. *)
Definition wait (n : nat) : list event := repeat Tick n.

(** The elements [switchPage] and the timer callbacks dereference are
    there, and every navigation link has an onclick attribute. *)
Definition well_formed (d : Document) : Prop :=
  lookup_id "home-page" d <> None
  /\ lookup_id "canvas-container" d <> None
  /\ lookup_id "main-header" d <> None
  /\ lookup_id "nav-container" d <> None
  /\ Forall (fun e => has_class "nav-link" e = true -> el_onclick e <> None) d.

(** Timer ids are fresh and distinct, and a pending bee timer is the one
    [teamBeeTimer] records. *)
Definition coherent (w : World) : Prop :=
  (1 <= nextTimerId w)%nat
  /\ NoDup (map timer_id (timers w))
  /\ Forall (fun t => (1 <= timer_id t < nextTimerId w)%nat) (timers w)
  /\ Forall (fun t => is_bee_timer t = true -> teamBeeTimer w = Some (timer_id t)) (timers w).

(** What holds of the timers while the bees must stay hidden.  [okDue]
    says when a bee timer may fall due: every pending one obeys it, and so
    will the one a pending switch to the team page is going to arm.  With
    [hidden] the flag is off. *)
Definition guard (okDue : nat -> Prop) (hidden : bool) (w : World) : Prop :=
  coherent w
  /\ (hidden = true -> teamBeeGroup_visible w = false)
  /\ Forall (fun t => is_bee_timer t = true -> okDue (due t)) (timers w)
  /\ Forall (fun t => callback t = ResumeSwitchPage "team" ->
                      forall n, (now w <= n)%nat -> okDue (n + 2000)%nat) (timers w).

(** No switch to the team page is waiting behind its 500 ms timer. *)
Definition no_team_switch_pending (w : World) : Prop :=
  Forall (fun t => callback t <> ResumeSwitchPage "team") (timers w).

Definition is_team_click (e : event) : bool :=
  match e with
  | Click pageId => String.eqb pageId "team"
  | _ => false
  end.

Definition ticks (es : list event) : nat :=
  List.length (filter (fun e => match e with Tick => true | _ => false end) es).

(** ** 13. Notions the properties are stated and proved with *)

(** An element as it may look after statements that add or remove only the
    tokens in [T]: same id, same onclick, same first div, and the same
    answer to [classList.contains] for every other token. *)
Definition stable_except (T : list string) (e e' : Element) : Prop :=
  el_id e' = el_id e
  /\ el_onclick e' = el_onclick e
  /\ el_firstDiv e' = el_firstDiv e
  /\ forall c, contains T c = false -> has_class c e' = has_class c e.

(** An element update that stays within [T]. *)
Definition tame (T : list string) (f : Element -> Element) : Prop :=
  forall e, stable_except T e (f e).

(** [wp m Q E w]: from [w], [m] ends normally in a state and with a value
    that satisfy [Q], or throws in a state that satisfies [E]. *)
Definition wp {A : Type} (m : M A) (Q : A -> World -> Prop) (E : World -> Prop)
           (w : World) : Prop :=
  match m w with
  | Normal a w' => Q a w'
  | Throw _ w' => E w'
  end.

(** An assertion that survives the element updates the statements make
    within the tokens [T], and a change of the book state. *)
Record writes_within (T : list string) (I : World -> Prop) : Prop := {
  ww_element : forall w r f, tame T f -> I w -> I (set_document (update r f (document w)) w);
  ww_bookState : forall w b, I w -> I (set_bookState b w)
}.

(** The tokens each step adds or removes. *)
Definition T_style : list string := (header_solid ++ "py-6" :: nav_pill)%list.
Definition T_swap : list string := ["active"; "page-transition-enter"].
Definition T_links : list string := [highlight].
Definition T_after : list string := (T_style ++ T_links)%list.
Definition T_all : list string := (T_swap ++ T_after)%list.

(** An assertion that also survives [setTimeout] of step 4's callback. *)
Definition survives_canvas_timer (I : World -> Prop) : Prop :=
  forall w c p, I w -> I (settle (setTimeout (CanvasOpacity c p) 800 w)).

(** Where a missing element makes a statement throw, [E] has to hold. *)
Definition covers_missing (ids : list string) (I E : World -> Prop) : Prop :=
  forall w s, In s ids -> I w -> lookup_id s (document w) = None -> E w.

(** And where a navigation link has no onclick attribute. *)
Definition covers_bare_link (I E : World -> Prop) : Prop :=
  forall w r e, I w -> In r (select_class "nav-link" (document w)) ->
    nth_error (document w) r = Some e -> el_onclick e = None -> E w.

(** The timers left once step 6 has cancelled the recorded one. *)
Definition cleared (w : World) : list Timer :=
  match teamBeeTimer w with
  | Some (S k) => filter (fun t => negb (timer_id t =? S k)%nat) (timers w)
  | _ => timers w
  end.

(** What step 3's loop does to one section. *)
Definition deactivate (e : Element) : Element :=
  el_remove ["page-transition-enter"] (el_remove ["active"] e).

(** After step 3 a section is active exactly when it is the target. *)
Definition only_target_active (target : option ref) (d : Document) : Prop :=
  forall i e, nth_error d i = Some e -> has_class "page-section" e = true ->
    (has_class "active" e = true <-> target = Some i).

(** The milliseconds an event takes. *)
Definition elapsed (e : event) : nat :=
  match e with
  | Tick => 1
  | _ => 0
  end.

(** What step 5's second loop does to one link. *)
Definition mark_link (pageId : string) (e : Element) : Element :=
  match el_onclick e with
  | Some text => if includes text pageId then el_add [highlight] e else e
  | None => e
  end.

(** [getAttribute('onclick')] is not [null]. *)
Definition has_onclick (e : Element) : bool :=
  match el_onclick e with
  | Some _ => true
  | None => false
  end.

(** How many pending timers are due. *)
Definition due_count (w : World) : nat :=
  List.length (filter (fun t => (due t <=? now w)%nat) (timers w)).

(** ** 14. What navigation leaves alone *)

(** [keeps R m]: wherever [m] ends, thrown or not, the state it ends in is
    related by [R] to the state it started from. *)
Definition keeps {A : Type} (R : World -> World -> Prop) (m : M A) : Prop :=
  forall w, R w (settle (m w)).

(** An element as [switchPage] and the timer callbacks may leave it: only
    classes among the tokens they toggle, and the opacity, may differ. *)
Definition restyled (e e' : Element) : Prop :=
  stable_except T_all e e' /\ el_innerHTML e' = el_innerHTML e.

(** What [switchPage] and the timer callbacks may change in the state: the
    styling of elements, the target of the book (to 0 or to 1), the timers
    and the bee flag.  Everything else stays. *)
Definition navigates (w w' : World) : Prop :=
  Forall2 restyled (document w) (document w')
  /\ value (bookState w') = value (bookState w)
  /\ (target (bookState w') = target (bookState w)
      \/ target (bookState w') = 0.0 \/ target (bookState w') = 1.0)
  /\ teamBeeOpacity w' = teamBeeOpacity w
  /\ currentParallaxWeight w' = currentParallaxWeight w
  /\ scene w' = scene w
  /\ localStorage w' = localStorage w
  /\ requests w' = requests w.

(** The book is somewhere between closed and open, on its way to one of
    the two. *)
Definition book_in_range (bs : BookState) : Prop :=
  0 <= value bs <= 1 /\ (target bs == 0 \/ target bs == 1).

Definition is_click (e : event) : bool :=
  match e with
  | Click _ => true
  | _ => false
  end.

(** A state that differs from [w] in the class lists of elements only. *)
Definition same_but_classes (e e' : Element) : Prop :=
  set_classList (el_classList e) e' = e.

Definition reclassed (w w' : World) : Prop :=
  Forall2 same_but_classes (document w) (document w')
  /\ set_document (document w) w' = w.

(** No pending timer falls due within the next [n] milliseconds. *)
Definition idle_for (n : nat) (w : World) : Prop :=
  Forall (fun t => (now w + n < due t)%nat) (timers w).

(** The id that [teamBeeTimer] records has been handed out. *)
Definition bee_id_used (w : World) : Prop :=
  match teamBeeTimer w with
  | Some k => (k < nextTimerId w)%nat
  | None => True
  end.

(** [style.opacity] of the element at [r]. *)
Definition opacity_at (r : ref) (w : World) : option string :=
  option_map el_opacity (nth_error (document w) r).

(** [classList.contains(c)] of the element at [r]. *)
Definition class_at (c : string) (r : ref) (w : World) : option bool :=
  option_map (has_class c) (nth_error (document w) r).

(** The canvas, if the page has one, is at full opacity. *)
Definition canvas_lit (c : option ref) (w : World) : Prop :=
  forall c0, c = Some c0 -> opacity_at c0 w = Some "1".

(** On the team page, [t] its section and [c] the canvas: the canvas timer
    [C] and the bee timer [B] are both pending; or [C] has run and [B] is
    pending; or both have run and the bees are shown. *)
Definition bees_on_their_way (t : ref) (c : option ref) (C B : Timer) (w : World) : Prop :=
  lookup_id "team" (document w) = Some t
  /\ class_at "active" t w = Some true
  /\ lookup_id "canvas-container" (document w) = c
  /\ ((timers w = [C; B] /\ (now w < due C)%nat)
      \/ (timers w = [B] /\ (now w < due B)%nat /\ canvas_lit c w)
      \/ (timers w = [] /\ teamBeeGroup_visible w = true /\ canvas_lit c w)).

(** ** 15. Gyroscope parallax: [handleOrientation] (main.js, lines 662-665
       and 870-893) *)

(** [THREE.MathUtils.clamp(value, min, max)], which three.js defines as
    [Math.max(min, Math.min(max, value))]. *)
Definition clamp (v lo hi : Q) : Q := Qmax lo (Qmin hi v).

(** A [deviceorientation] event: each angle is a number or [null]. *)
Record OrientationEvent : Type := mkOrientation {
  gamma : option Q;
  beta : option Q
}.

Record Gyro : Type := mkGyro {
  gyroX : Q;
  gyroY : Q;
  initialGamma : option Q;     (* [null] until calibrated *)
  initialBeta : option Q
}.

(** Lines 662-665. *)
Definition gyro_init : Gyro := mkGyro 0 0 None None.

(** A number or [null] as an operand of [-]: [null] counts as 0. *)
Definition to_number (x : option Q) : Q :=
  match x with
  | Some q => q
  | None => 0
  end.

Definition handleOrientation (event : OrientationEvent) (s : Gyro) : Gyro :=
  let s1 :=
    match initialGamma s, gamma event with
    | None, Some g => mkGyro (gyroX s) (gyroY s) (Some g) (beta event)
    | _, _ => s
    end in
  match gamma event, beta event with
  | Some eg, Some eb =>
      let g := eg - to_number (initialGamma s1) in
      let b := eb - to_number (initialBeta s1) in
      mkGyro (clamp (g * 0.05) (-3) 3) (clamp (b * 0.05) (-3) 3)
        (initialGamma s1) (initialBeta s1)
  | _, _ => s1
  end.

(** The handler run on a series of events. *)
Definition orientations (s : Gyro) (events : list OrientationEvent) : Gyro :=
  fold_left (fun s e => handleOrientation e s) events s.

(** ** 16. The team card (main.js, lines 288-448) *)

Module TeamCard.

(** One entry of [teamMembers]; [image] or [icon] is missing (undefined)
    where the source leaves it out. *)
Record Member : Type := mkMember {
  name : string;
  role : string;
  desc : string;
  image : option string;
  icon : option string
}.

Definition teamMembers : list Member :=
  [ mkMember "廖偉傑" "組長 Team Leader"
      "負責包裝結構設計與進度規劃。統籌專案的整體走向，確保每一個設計環節都能精準到位，引領團隊前進。"
      (Some "img/Headshot02.jpg") None;
    mkMember "李岳" "組員 Team Member"
      "負責立體書結構設計，網頁製作。透過精密的紙藝結構與程式邏輯，將平面的視覺轉化為立體的數位體驗。"
      (Some "img/Headshot01.jpg") None;
    mkMember "鄭鈺儒" "組員 Team Member"
      "負責插畫設計、主視覺海報設計。以細膩的筆觸描繪自然生態，賦予作品獨特的視覺美感與生命力。"
      (Some "img/Headshot03.jpg") None;
    mkMember "張嘉容" "組員 Team Member"
      "負責標準字設計與插畫設計。專注於字體結構與圖像敘事的結合，為作品注入獨特的視覺個性。"
      (Some "img/Headshot04.jpg") None;
    mkMember "田郁棻" "組員 Team Member"
      "負責企劃書與書籍編排設計。細心梳理文字脈絡與版面構成，將豐富的內容轉化為清晰優雅的閱讀體驗。"
      (Some "img/Headshot05.jpg") None;
    mkMember "Gemini" "AI Co-Pilot"
      "提供創意發想、文案撰寫與程式碼優化建議。是團隊中不知疲倦的智慧核心，隨時準備提供協助。"
      None (Some "✨") ].

(** An element of the card, as far as the script reads and writes it. *)
Record Node : Type := mkNode {
  classList : list string;
  textContent : string;
  src : string
}.

(** The elements by id; an element reference is the id, [null] is [None]. *)
Definition Dom : Type := list (string * Node).

Fixpoint lookup (id : string) (d : Dom) : option Node :=
  match d with
  | [] => None
  | (k, n) :: rest => if String.eqb k id then Some n else lookup id rest
  end.

(** The first element with that id replaced by [f] of it. *)
Fixpoint update (id : string) (f : Node -> Node) (d : Dom) : Dom :=
  match d with
  | [] => []
  | (k, n) :: rest => if String.eqb k id then (k, f n) :: rest else (k, n) :: update id f rest
  end.

Definition add_class (c : string) (n : Node) : Node :=
  mkNode (add_token (classList n) c) (textContent n) (src n).

Definition remove_class (c : string) (n : Node) : Node :=
  mkNode (remove_tokens [c] (classList n)) (textContent n) (src n).

Definition set_textContent (t : string) (n : Node) : Node :=
  mkNode (classList n) t (src n).

Definition set_src (t : string) (n : Node) : Node :=
  mkNode (classList n) (textContent n) t.

(** What a pending [setTimeout] of [triggerFlip] will run: the 250 ms
    callback, with the [direction] and [outClass] it closed over, and the
    500 ms callback armed by it, with its [inClass]. *)
Inductive task : Type :=
| SwapContent (direction outClass : string)
| RemoveInClass (inClass : string).

Record Timer : Type := mkTimer {
  due : nat;
  callback : task
}.

(** A mouse or touch event, as far as the handlers read it: [clientX] is
    undefined on a touch event, [touches] and [changedTouches] (the
    [clientX] of each touch) on a mouse event. *)
Record PointerEvent : Type := mkPointerEvent {
  type : string;
  clientX : option Q;
  touches : option (list Q);
  changedTouches : option (list Q)
}.

Record Card : Type := mkCard {
  dom : Dom;
  currentTeamIndex : Z;
  isDraggingTeam : bool;
  startX : option Q;                       (* a number; [None] is NaN or undefined *)
  teamCardEl : option string;              (* [null] or the card element *)
  listeners : list (string * string);      (* on [document]: event type, handler *)
  timers : list Timer;                     (* pending timeouts, oldest first *)
  now : nat
}.

Definition set_dom (d : Dom) (s : Card) : Card :=
  mkCard d (currentTeamIndex s) (isDraggingTeam s) (startX s) (teamCardEl s) (listeners s)
    (timers s) (now s).

Definition set_currentTeamIndex (i : Z) (s : Card) : Card :=
  mkCard (dom s) i (isDraggingTeam s) (startX s) (teamCardEl s) (listeners s)
    (timers s) (now s).

Definition set_isDraggingTeam (b : bool) (s : Card) : Card :=
  mkCard (dom s) (currentTeamIndex s) b (startX s) (teamCardEl s) (listeners s)
    (timers s) (now s).

Definition set_startX (x : option Q) (s : Card) : Card :=
  mkCard (dom s) (currentTeamIndex s) (isDraggingTeam s) x (teamCardEl s) (listeners s)
    (timers s) (now s).

Definition set_teamCardEl (e : option string) (s : Card) : Card :=
  mkCard (dom s) (currentTeamIndex s) (isDraggingTeam s) (startX s) e (listeners s)
    (timers s) (now s).

Definition set_listeners (l : list (string * string)) (s : Card) : Card :=
  mkCard (dom s) (currentTeamIndex s) (isDraggingTeam s) (startX s) (teamCardEl s) l
    (timers s) (now s).

Definition set_timers (t : list Timer) (s : Card) : Card :=
  mkCard (dom s) (currentTeamIndex s) (isDraggingTeam s) (startX s) (teamCardEl s)
    (listeners s) t (now s).

Definition set_now (t : nat) (s : Card) : Card :=
  mkCard (dom s) (currentTeamIndex s) (isDraggingTeam s) (startX s) (teamCardEl s)
    (listeners s) (timers s) t.

(** Lines 329-332, on a page [d]. *)
Definition initial (d : Dom) : Card :=
  mkCard d 0 false (Some 0) None [] [] O.

(** Statements over the card's state that may throw. *)
Inductive Completion (A : Type) : Type :=
| Normal (a : A) (s : Card)
| Throw (e : Error) (s : Card).

Arguments Normal {A} a s.
Arguments Throw {A} e s.

Definition T (A : Type) : Type := Card -> Completion A.

Definition ret {A : Type} (a : A) : T A := fun s => Normal a s.

Definition bind {A B : Type} (m : T A) (k : A -> T B) : T B :=
  fun s => match m s with
           | Normal a s' => k a s'
           | Throw e s' => Throw e s'
           end.

Definition throw {A : Type} (e : Error) : T A := fun s => Throw e s.

Definition gets {A : Type} (f : Card -> A) : T A := fun s => Normal (f s) s.

Definition modify (f : Card -> Card) : T unit := fun s => Normal tt (f s).

Declare Scope card_scope.
Notation "x <- m ;; k" := (bind m (fun x => k))
  (at level 100, m at next level, right associativity) : card_scope.
Notation "m ;;; k" := (bind m (fun _ => k))
  (at level 100, right associativity) : card_scope.
Local Open Scope card_scope.

Definition settle {A : Type} (c : Completion A) : Card :=
  match c with
  | Normal _ s => s
  | Throw _ s => s
  end.

(** [document.getElementById(id)]: the reference, or [null]. *)
Definition getElementById (id : string) : T (option string) :=
  gets (fun s => match lookup id (dom s) with Some _ => Some id | None => None end).

(** A write through a reference; through [null] it throws. *)
Definition write (r : option string) (f : Node -> Node) : T unit :=
  match r with
  | Some id => modify (fun s => set_dom (update id f (dom s)) s)
  | None => throw (TypeError "null")
  end.

(** [teamMembers[index]] *)
Definition member_at (index : Z) : option Member :=
  if (index <? 0)%Z then None else nth_error teamMembers (Z.to_nat index).

(** A string as a condition: the empty string and undefined are falsy. *)
Definition truthy (x : option string) : bool :=
  match x with
  | Some s => negb (String.eqb s "")
  | None => false
  end.

(** A string or undefined assigned to [textContent]: undefined clears it. *)
Definition text_of (x : option string) : string :=
  match x with
  | Some s => s
  | None => ""
  end.

(** [updateTeamCard(index)].  In [el.textContent = member.name] the right
    side is read before the write is attempted. *)
Definition updateTeamCard (index : Z) : T unit :=
  let member := member_at index in
  imgEl <- getElementById "member-img" ;;
  iconEl <- getElementById "member-icon" ;;
  match member with
  | None => throw (TypeError "undefined (reading 'name')")
  | Some member =>
      nameEl <- getElementById "member-name" ;;
      write nameEl (set_textContent (name member)) ;;;
      roleEl <- getElementById "member-role" ;;
      write roleEl (set_textContent (role member)) ;;;
      descEl <- getElementById "member-desc" ;;
      write descEl (set_textContent (desc member)) ;;;
      if truthy (image member) then
        write imgEl (set_src (text_of (image member))) ;;;
        write imgEl (remove_class "hidden") ;;;
        match iconEl with
        | Some _ => write iconEl (add_class "hidden")
        | None => ret tt
        end
      else
        write imgEl (add_class "hidden") ;;;
        match iconEl with
        | Some _ =>
            write iconEl (remove_class "hidden") ;;;
            write iconEl (set_textContent (text_of (icon member)))
        | None => ret tt
        end
  end.

(** [initTeam()] *)
Definition initTeam : T unit := updateTeamCard 0.

(** [setTimeout(callback, delay)] *)
Definition setTimeout (t : task) (delay : nat) : T unit :=
  modify (fun s => set_timers (timers s ++ [mkTimer (now s + delay) t])%list s).

(** [a % b] on integers: the sign is the dividend's. *)
Definition js_rem (a b : Z) : Z := Z.rem a b.

Definition length_of_teamMembers : Z := Z.of_nat (List.length teamMembers).

(** [triggerFlip(direction)], up to its [setTimeout]. *)
Definition triggerFlip (direction : string) : T unit :=
  cached <- gets teamCardEl ;;
  match cached with
  | None => el <- getElementById "team-card" ;; modify (set_teamCardEl el)
  | Some _ => ret tt
  end ;;;
  let outClass := if String.eqb direction "left" then "flip-out-left" else "flip-out-right" in
  card <- gets teamCardEl ;;
  write card (add_class outClass) ;;;
  setTimeout (SwapContent direction outClass) 250.

(** The bodies of the two timer callbacks. *)
Definition run_task (t : task) : T unit :=
  match t with
  | SwapContent direction outClass =>
      i <- gets currentTeamIndex ;;
      modify (set_currentTeamIndex
                (if String.eqb direction "left"
                 then js_rem (i + 1) length_of_teamMembers
                 else js_rem (i - 1 + length_of_teamMembers) length_of_teamMembers)) ;;;
      j <- gets currentTeamIndex ;;
      updateTeamCard j ;;;
      card <- gets teamCardEl ;;
      write card (remove_class outClass) ;;;
      let inClass := if String.eqb direction "left" then "flip-in-right" else "flip-in-left" in
      card <- gets teamCardEl ;;
      write card (add_class inClass) ;;;
      setTimeout (RemoveInClass inClass) 500
  | RemoveInClass inClass =>
      card <- gets teamCardEl ;;
      write card (remove_class inClass)
  end.

(** [document.addEventListener(type, handler)]: registering the same pair
    again does nothing. *)
Definition same_listener (a b : string * string) : bool :=
  String.eqb (fst a) (fst b) && String.eqb (snd a) (snd b).

Definition addEventListener (type handler : string) : T unit :=
  modify (fun s =>
            if existsb (same_listener (type, handler)) (listeners s) then s
            else set_listeners (listeners s ++ [(type, handler)])%list s).

Definition removeEventListener (type handler : string) : T unit :=
  modify (fun s =>
            set_listeners (filter (fun l => negb (same_listener (type, handler) l))
                             (listeners s)) s).

(** [xs[0].clientX] for a list of touches that may be undefined or empty. *)
Definition first_clientX (xs : option (list Q)) : T (option Q) :=
  match xs with
  | None => throw (TypeError "undefined (reading '0')")
  | Some [] => throw (TypeError "undefined (reading 'clientX')")
  | Some (x :: _) => ret (Some x)
  end.

(** [startTeamDrag(e)] *)
Definition startTeamDrag (e : PointerEvent) : T unit :=
  modify (set_isDraggingTeam true) ;;;
  x <- (if includes (type e) "mouse" then ret (clientX e) else first_clientX (touches e)) ;;
  modify (set_startX x) ;;;
  el <- getElementById "team-card" ;;
  modify (set_teamCardEl el) ;;;
  if includes (type e) "mouse" then
    addEventListener "mousemove" "onTeamDragMove" ;;;
    addEventListener "mouseup" "onTeamDragEnd"
  else
    addEventListener "touchmove" "onTeamDragMove" ;;;
    addEventListener "touchend" "onTeamDragEnd".

(** [onTeamDragMove(e)] *)
Definition onTeamDragMove (e : PointerEvent) : T unit := ret tt.

(** [endX - startX], [Math.abs(diff) > 50] and [diff > 0] on numbers that
    may be NaN: every comparison with NaN is false. *)
Definition minus (a b : option Q) : option Q :=
  match a, b with
  | Some x, Some y => Some (x - y)
  | _, _ => None
  end.

Definition abs_gt (d : option Q) (limit : Q) : bool :=
  match d with
  | Some x => Qgtb (Qabs x) limit
  | None => false
  end.

Definition gt (d : option Q) (limit : Q) : bool :=
  match d with
  | Some x => Qgtb x limit
  | None => false
  end.

(** [onTeamDragEnd(e)] *)
Definition onTeamDragEnd (e : PointerEvent) : T unit :=
  dragging <- gets isDraggingTeam ;;
  if negb dragging then ret tt
  else
    modify (set_isDraggingTeam false) ;;;
    removeEventListener "mousemove" "onTeamDragMove" ;;;
    removeEventListener "mouseup" "onTeamDragEnd" ;;;
    removeEventListener "touchmove" "onTeamDragMove" ;;;
    removeEventListener "touchend" "onTeamDragEnd" ;;;
    start <- gets startX ;;
    endX <- (if includes (type e) "mouse" then ret (clientX e)
             else match changedTouches e with
                  | Some xs => first_clientX (Some xs)
                  | None => ret start
                  end) ;;
    let diff := minus endX start in
    if abs_gt diff 50 then
      if gt diff 0 then triggerFlip "right" else triggerFlip "left"
    else ret tt.

(** The [keydown] listener of lines 438-448; [teamSection] is what
    [document.getElementById('team')] gave, with its class list. *)
Definition onKeyDown (teamSection : option (list string)) (key : string) : T unit :=
  match teamSection with
  | None => ret tt
  | Some classes =>
      if negb (contains classes "active") then ret tt
      else if String.eqb key "ArrowRight" then triggerFlip "left"
      else if String.eqb key "ArrowLeft" then triggerFlip "right"
      else ret tt
  end.

(** The oldest pending timer that is due, and the others. *)
Fixpoint pop_due (t : nat) (ts : list Timer) : option (Timer * list Timer) :=
  match ts with
  | [] => None
  | x :: rest =>
      if (due x <=? t)%nat then Some (x, rest)
      else match pop_due t rest with
           | Some (y, rest') => Some (y, x :: rest')
           | None => None
           end
  end.

(** Run the timers that are due, oldest first.  A callback arms at most
    one timer, 500 ms ahead, so as much fuel as there are timers pending is
    enough. *)
Fixpoint run_due (fuel : nat) (s : Card) : Card :=
  match fuel with
  | O => s
  | S k =>
      match pop_due (now s) (timers s) with
      | None => s
      | Some (t, rest) => run_due k (settle (run_task (callback t) (set_timers rest s)))
      end
  end.

(** One millisecond passes. *)
Definition tick (s : Card) : Card :=
  let s' := set_now (S (now s)) s in
  run_due (List.length (timers s')) s'.

Inductive event : Type :=
| KeyDown (teamSection : option (list string)) (key : string)
| DragStart (e : PointerEvent)
| DragMove (e : PointerEvent)
| DragEnd (e : PointerEvent)
| Flip (direction : string)        (* [triggerFlip(direction)] called from the page *)
| Tick.

Definition step (s : Card) (e : event) : Card :=
  match e with
  | KeyDown teamSection key => settle (onKeyDown teamSection key s)
  | DragStart e => settle (startTeamDrag e s)
  | DragMove e => settle (onTeamDragMove e s)
  | DragEnd e => settle (onTeamDragEnd e s)
  | Flip direction => settle (triggerFlip direction s)
  | Tick => tick s
  end.

Definition run (s : Card) (es : list event) : Card := fold_left step es s.

(** The classes [triggerFlip] and its callbacks put on the card. *)
Definition flip_classes : list string :=
  ["flip-out-left"; "flip-out-right"; "flip-in-right"; "flip-in-left"].

(** [classList.contains(c)] of the element [id]; false when there is none. *)
Definition has (c id : string) (s : Card) : bool :=
  match lookup id (dom s) with
  | Some n => contains (classList n) c
  | None => false
  end.

(** A page with the six elements of the card. *)
Definition sample_dom : Dom :=
  [ ("team-card", mkNode [] "" "");
    ("member-img", mkNode [] "" "");
    ("member-icon", mkNode ["hidden"] "" "");
    ("member-name", mkNode [] "" "");
    ("member-role", mkNode [] "" "");
    ("member-desc", mkNode [] "" "") ].

Definition wait (n : nat) : list event := repeat Tick n.

(** [preserves I m]: an assertion that holds before [m] holds wherever [m]
    ends, thrown or not. *)
Definition preserves {A : Type} (I : Card -> Prop) (m : T A) : Prop :=
  forall s, I s -> I (settle (m s)).

(** The page has the card and the elements [updateTeamCard] writes to
    without a test. *)
Definition page_ok (d : Dom) : Prop :=
  lookup "team-card" d <> None
  /\ lookup "member-img" d <> None
  /\ lookup "member-name" d <> None
  /\ lookup "member-role" d <> None
  /\ lookup "member-desc" d <> None.

(** The card shows member [m]. *)
Definition shown (m : Member) (s : Card) : Prop :=
  option_map textContent (lookup "member-name" (dom s)) = Some (name m)
  /\ option_map textContent (lookup "member-role" (dom s)) = Some (role m)
  /\ option_map textContent (lookup "member-desc" (dom s)) = Some (desc m)
  /\ has "hidden" "member-img" s = negb (truthy (image m)).

(** The index is in range, the card shows the member it points to, and
    [teamCardEl] is [null] or the card. *)
Definition card_ok (s : Card) : Prop :=
  page_ok (dom s)
  /\ (teamCardEl s = None \/ teamCardEl s = Some "team-card")
  /\ (0 <= currentTeamIndex s < length_of_teamMembers)%Z
  /\ exists m, member_at (currentTeamIndex s) = Some m /\ shown m s.

(** The class the 250 ms callback puts on the card. *)
Definition inClass_of (direction : string) : string :=
  if String.eqb direction "left" then "flip-in-right" else "flip-in-left".

(** A pending callback that will take class [c] off the card: the 250 ms
    callback takes off its [outClass] and arms the removal of its in-class;
    the 500 ms callback takes off its [inClass]. *)
Definition removes (t : task) (c : string) : Prop :=
  match t with
  | SwapContent direction outClass => c = outClass \/ c = inClass_of direction
  | RemoveInClass inClass => c = inClass
  end.

(** Every flip class on the card has a pending callback that will take it
    off. *)
Definition flips_accounted (s : Card) : Prop :=
  forall c, In c flip_classes -> has c "team-card" s = true ->
    exists t, In t (timers s) /\ removes (callback t) c.

(** The latest moment at which a pending timer and what it arms are over. *)
Definition over_by (t : Timer) : nat :=
  match callback t with
  | SwapContent _ _ => due t + 500
  | RemoveInClass _ => due t
  end.

(** A pending timer is not overdue and was armed no longer ago than its
    delay. *)
Definition timing_ok (s : Card) (t : Timer) : Prop :=
  (now s <= due t)%nat
  /\ match callback t with
     | SwapContent _ _ => (due t <= now s + 250)%nat
     | RemoveInClass _ => (due t <= now s + 500)%nat
     end.

(** The card is in order, and so are the flips under way. *)
Definition flip_ok (s : Card) : Prop :=
  card_ok s
  /\ (teamCardEl s = Some "team-card" \/ timers s = [])
  /\ flips_accounted s
  /\ Forall (timing_ok s) (timers s).

(** No pending timer is due. *)
Definition settled (s : Card) : Prop :=
  Forall (fun t => (now s < due t)%nat) (timers s).

(** The card between two tasks: in order, and nothing due. *)
Definition steady (s : Card) : Prop := flip_ok s /\ settled s.

(** The listeners a drag puts on the document while it lasts. *)
Definition drag_listeners : list (string * string) :=
  [ ("mousemove", "onTeamDragMove"); ("mouseup", "onTeamDragEnd");
    ("touchmove", "onTeamDragMove"); ("touchend", "onTeamDragEnd") ].

(** How many pending timers are due. *)
Definition due_count (s : Card) : nat :=
  List.length (filter (fun t => (due t <=? now s)%nat) (timers s)).

Definition is_input (e : event) : bool :=
  match e with
  | Tick => false
  | _ => true
  end.

End TeamCard.

(** ** 17. Three lines on binary64

    Lines 749 and 781 and lines 396 and 398 as they stand, on primitive
    floats, for the closed checks that show where rounding decides a
    comparison. *)
Module Binary64Lines.
Import PrimFloat.
Local Open Scope float_scope.

(** [popupGroup.visible = contentScale > 0.01] with the [contentScale] of
    line 749, for a value above 0.6. *)
Definition popup_visible (value : float) : bool :=
  ltb 0.01 ((value - 0.6) / 0.4).

(** [Math.abs(endX - startX) > 50] *)
Definition drag_flips (startX endX : float) : bool :=
  ltb 50 (abs (endX - startX)).

End Binary64Lines.

(* ================================================================== *)
(** * Part II.  Properties                                             *)
(* ================================================================== *)

(** ** Comparisons *)

Lemma Qltb_lt (a b : Q) : Qltb a b = true <-> a < b.
Proof.
  unfold Qltb. rewrite negb_true_iff.
  split; intro H.
  - apply Qnot_le_lt. intro Hle. apply Qle_bool_iff in Hle. congruence.
  - destruct (Qle_bool b a) eqn:E; [|reflexivity].
    apply Qle_bool_iff in E. exfalso. apply (Qlt_not_le _ _ H E).
Qed.

Lemma Qltb_ge (a b : Q) : Qltb a b = false <-> b <= a.
Proof.
  unfold Qltb. rewrite negb_false_iff. apply Qle_bool_iff.
Qed.

Lemma Qltb_spec (a b : Q) : reflect (a < b) (Qltb a b).
Proof.
  destruct (Qltb a b) eqn:E; constructor.
  - now apply Qltb_lt.
  - apply Qltb_ge in E. now apply Qle_not_lt.
Qed.

#[global] Instance Qltb_comp : Proper (Qeq ==> Qeq ==> eq) Qltb.
Proof.
  intros a a' Ha b b' Hb. unfold Qltb. now rewrite Ha, Hb.
Qed.

(** ** The three-phase derivation *)

Ltac derive_cases v :=
  unfold derive, Qgtb;
  destruct (Qltb_spec 0.6 v); [|destruct (Qltb_spec 0.2 v)];
  cbn [contentScale bookRotation currentBookScale].

Ltac qabs_cases :=
  repeat match goal with
         | |- context [Qabs ?a] => pattern (Qabs a); apply Qabs_case; intro
         end.

Ltac const_div := unfold Qdiv; cbn [Qinv Qnum Qden].

(** C1.  On [0,1] the code's derivation is the spec's table, row by row:
    phase 1 on (0.6, 1], phase 2 on (0.2, 0.6], phase 3 on [0, 0.2]. *)
Theorem derive_three_phases (v : Q) :
  0 <= v <= 1 ->
  (0.6 < v -> derive v = spec_phase1 v)
  /\ (0.2 < v /\ v <= 0.6 -> derive v = spec_phase2 v)
  /\ (v <= 0.2 -> derive v = spec_phase3 v).
Proof.
  intros _. unfold derive, Qgtb.
  destruct (Qltb_spec 0.6 v) as [H6|H6]; [|destruct (Qltb_spec 0.2 v) as [H2|H2]].
  - split; [|split]; [reflexivity | intros [_ H]; lra | intro H; lra].
  - split; [|split]; [intro H; lra | reflexivity | intro H; lra].
  - split; [|split]; [intro H; lra | intros [H _]; lra | reflexivity].
Qed.

Lemma derive_three_phases_witness :
  derive 0.8 = spec_phase1 0.8
  /\ derive 0.4 = spec_phase2 0.4
  /\ derive 0.1 = spec_phase3 0.1.
Proof.
  split; [|split].
  - apply (derive_three_phases 0.8); [split|]; vm_compute; congruence.
  - apply (derive_three_phases 0.4); [split|split]; vm_compute; congruence.
  - apply (derive_three_phases 0.1); [split|]; vm_compute; congruence.
Defined.

(** X1.  For an openness in [0,1] the three derived values stay in the
    ranges of the data model: the content scale in [0,1], the book's
    rotation in [0,1.57] and the book's scale in [0,1.4]. *)
Lemma derive_ranges (v : Q) :
  0 <= v <= 1 ->
  0 <= contentScale (derive v) <= 1
  /\ 0 <= bookRotation (derive v) <= 1.57
  /\ 0 <= currentBookScale (derive v) <= 1.4.
Proof.
  intros [H0 H1]. derive_cases v; const_div; repeat split; lra.
Qed.

Lemma derive_ranges_witness :
  0 <= contentScale (derive 0.5) <= 1
  /\ 0 <= bookRotation (derive 0.5) <= 1.57
  /\ 0 <= currentBookScale (derive 0.5) <= 1.4.
Proof. apply (derive_ranges 0.5). split; lra. Defined.

Lemma contentScale_lipschitz : lipschitz 2.5 (fun v => contentScale (derive v)).
Proof.
  intros x y. derive_cases x; derive_cases y; const_div; qabs_cases; lra.
Qed.

Lemma bookRotation_lipschitz : lipschitz 3.925 (fun v => bookRotation (derive v)).
Proof.
  intros x y. derive_cases x; derive_cases y; const_div; qabs_cases; lra.
Qed.

Lemma currentBookScale_lipschitz : lipschitz 7 (fun v => currentBookScale (derive v)).
Proof.
  intros x y. derive_cases x; derive_cases y; const_div; qabs_cases; lra.
Qed.

Lemma lipschitz_continuous (L : Q) (f : Q -> Q) :
  0 < L -> lipschitz L f -> continuous_on_unit f.
Proof.
  intros HL Hf eps Heps. exists (eps / L). split.
  - apply Qlt_shift_div_l; lra.
  - intros x y _ _ Hxy. specialize (Hf x y).
    apply Qle_lt_trans with (L * Qabs (x - y)); [exact Hf|].
    pose proof (Qmult_lt_compat_r _ _ L HL Hxy) as H.
    assert (E : eps / L * L == eps) by (field; lra).
    rewrite E in H. lra.
Qed.

(** C3.  At 0.6 and at 0.2 the formulas of the two adjacent phases give the
    same three values, and each derived parameter is a continuous function
    of the value on [0,1]. *)
Theorem derive_continuous :
  params_equiv (spec_phase1 0.6) (spec_phase2 0.6)
  /\ params_equiv (spec_phase2 0.2) (spec_phase3 0.2)
  /\ continuous_on_unit (fun v => contentScale (derive v))
  /\ continuous_on_unit (fun v => bookRotation (derive v))
  /\ continuous_on_unit (fun v => currentBookScale (derive v)).
Proof.
  split; [|split; [|split; [|split]]].
  - repeat split; vm_compute; reflexivity.
  - repeat split; vm_compute; reflexivity.
  - apply (lipschitz_continuous 2.5); [lra | exact contentScale_lipschitz].
  - apply (lipschitz_continuous 3.925); [lra | exact bookRotation_lipschitz].
  - apply (lipschitz_continuous 7); [lra | exact currentBookScale_lipschitz].
Qed.

(** ** The transition driver *)

Lemma lerpSpeed_closing (bs : BookState) :
  target bs < value bs -> lerpSpeed bs = 0.10.
Proof.
  intro H. unfold lerpSpeed. now apply Qltb_lt in H; rewrite H.
Qed.

Lemma lerpSpeed_opening (bs : BookState) :
  ~ target bs < value bs -> lerpSpeed bs = 0.05.
Proof.
  intro H. unfold lerpSpeed.
  destruct (Qltb_spec (target bs) (value bs)); [contradiction | reflexivity].
Qed.

#[global] Instance bs_equiv_Equivalence : Equivalence bs_equiv.
Proof.
  split.
  - intros a. split; reflexivity.
  - intros a b [H1 H2]. split; now symmetry.
  - intros a b c [H1 H2] [H3 H4]. split; etransitivity; eauto.
Qed.

Lemma lerpSpeed_equiv (a b : BookState) :
  bs_equiv a b -> lerpSpeed a = lerpSpeed b.
Proof.
  intros [Hv Ht]. unfold lerpSpeed. now rewrite Hv, Ht.
Qed.

#[global] Instance advance_equiv : Proper (bs_equiv ==> bs_equiv) advance.
Proof.
  intros a b H. pose proof (lerpSpeed_equiv a b H) as Hs.
  destruct H as [Hv Ht]. split; simpl.
  - now rewrite Hs, Hv, Ht.
  - exact Ht.
Qed.

Lemma advance_red_equiv (bs : BookState) : bs_equiv (advance_red bs) (advance bs).
Proof.
  split; [exact (Qred_correct _) | reflexivity].
Qed.

Lemma advance_n_equiv (n : nat) (a b : BookState) :
  bs_equiv a b -> bs_equiv (advance_n n a) (advance_n n b).
Proof.
  revert a b. induction n as [|n IH]; intros a b H; simpl; [exact H|].
  apply IH. now apply advance_equiv.
Qed.

(** Evaluating a run in lowest terms gives the run's value. *)
Lemma advance_red_n_equiv (n : nat) (bs : BookState) :
  bs_equiv (advance_red_n n bs) (advance_n n bs).
Proof.
  revert bs. induction n as [|n IH]; intro bs; simpl; [reflexivity|].
  rewrite IH. apply advance_n_equiv, advance_red_equiv.
Qed.

Lemma advance_n_target (n : nat) (bs : BookState) :
  target (advance_n n bs) = target bs.
Proof.
  revert bs. induction n as [|n IH]; intro bs; simpl; [reflexivity|].
  now rewrite IH.
Qed.

Lemma advance_n_S (n : nat) (bs : BookState) :
  advance_n (S n) bs = advance (advance_n n bs).
Proof.
  revert bs. induction n as [|n IH]; intro bs; [reflexivity|].
  change (advance_n (S (S n)) bs) with (advance_n (S n) (advance bs)).
  rewrite IH. reflexivity.
Qed.

(** One step above the target keeps 9/10 of the distance and stays above. *)
Lemma advance_above (bs : BookState) :
  target bs < value bs ->
  value (advance bs) - target bs == (value bs - target bs) * 0.9.
Proof.
  intro H. simpl. rewrite (lerpSpeed_closing bs H). ring.
Qed.

(** One step at or below the target keeps 19/20 of the distance. *)
Lemma advance_below (bs : BookState) :
  value bs <= target bs ->
  target bs - value (advance bs) == (target bs - value bs) * 0.95.
Proof.
  intro H. simpl. rewrite (lerpSpeed_opening bs); [ring|].
  now apply Qle_not_lt.
Qed.

Lemma qpow_bounds (q : Q) (n : nat) : 0 <= q <= 1 -> 0 <= qpow q n <= 1.
Proof.
  intros [H0 H1]. induction n as [|n [IH0 IH1]]; simpl.
  - split; lra.
  - split; nra.
Qed.

Lemma qpow_add (q : Q) (n m : nat) : qpow q (n + m) == qpow q n * qpow q m.
Proof.
  induction n as [|n IH]; simpl; [ring|]. rewrite IH. ring.
Qed.

Lemma qpow_antitone (q : Q) (n m : nat) :
  0 <= q <= 1 -> (n <= m)%nat -> qpow q m <= qpow q n.
Proof.
  intros Hq Hnm. replace m with (n + (m - n))%nat by lia.
  rewrite qpow_add.
  pose proof (qpow_bounds q n Hq). pose proof (qpow_bounds q (m - n) Hq). nra.
Qed.

(** Closed form of a run that starts above its target. *)
Lemma advance_n_above (n : nat) (bs : BookState) :
  target bs < value bs ->
  value (advance_n n bs) - target bs == (value bs - target bs) * qpow 0.9 n
  /\ target bs < value (advance_n n bs).
Proof.
  revert bs. induction n as [|n IH]; intros bs H.
  - simpl. split; [ring | exact H].
  - simpl advance_n.
    pose proof (advance_above bs H) as Hs.
    assert (Hgt : target (advance bs) < value (advance bs)).
    { change (target (advance bs)) with (target bs). nra. }
    destruct (IH (advance bs) Hgt) as [Hc Hk].
    change (target (advance bs)) with (target bs) in Hc, Hk.
    split; [|exact Hk]. rewrite Hc, Hs. simpl qpow. ring.
Qed.

(** Closed form of a run that starts at or below its target. *)
Lemma advance_n_below (n : nat) (bs : BookState) :
  value bs <= target bs ->
  target bs - value (advance_n n bs) == (target bs - value bs) * qpow 0.95 n
  /\ value (advance_n n bs) <= target bs.
Proof.
  revert bs. induction n as [|n IH]; intros bs H.
  - simpl. split; [ring | exact H].
  - simpl advance_n.
    pose proof (advance_below bs H) as Hs.
    assert (Hle : value (advance bs) <= target (advance bs)).
    { change (target (advance bs)) with (target bs). nra. }
    destruct (IH (advance bs) Hle) as [Hc Hk].
    change (target (advance bs)) with (target bs) in Hc, Hk.
    split; [|exact Hk]. rewrite Hc, Hs. simpl qpow. ring.
Qed.

(** The distance to the target after [n] frames, whichever side the run
    starts on. *)
Lemma advance_n_distance (n : nat) (bs : BookState) :
  (target bs < value bs ->
   Qabs (value (advance_n n bs) - target bs) == (value bs - target bs) * qpow 0.9 n)
  /\ (value bs <= target bs ->
   Qabs (value (advance_n n bs) - target bs) == (target bs - value bs) * qpow 0.95 n).
Proof.
  split; intro H.
  - destruct (advance_n_above n bs H) as [Hc Hk].
    rewrite Qabs_pos; [exact Hc | lra].
  - destruct (advance_n_below n bs H) as [Hc Hk].
    rewrite Qabs_neg; [rewrite <- Hc; ring | lra].
Qed.

Lemma qpow_09_200 : qpow 0.9 200 < 0.000001.
Proof. vm_compute. reflexivity. Qed.

Lemma qpow_095_270 : qpow 0.95 270 < 0.000001.
Proof. vm_compute. reflexivity. Qed.

Lemma qpow_095_200_upper : qpow 0.95 200 < 0.00004.
Proof. vm_compute. reflexivity. Qed.

Lemma qpow_095_200_lower : 0.00003 < qpow 0.95 200.
Proof. vm_compute. reflexivity. Qed.

(** Closing: 200 frames are enough from anywhere in [0,1]. *)
Lemma closing_converges (v : Q) (n : nat) :
  0 <= v <= 1 -> (200 <= n)%nat ->
  Qabs (value (advance_n n {| value := v; target := 0 |}) - 0) < 0.000001.
Proof.
  intros [H0 H1] Hn.
  set (bs := {| value := v; target := 0 |}).
  assert (Hq : 0 <= 0.9 <= 1) by (split; lra).
  pose proof (qpow_antitone 0.9 200 n Hq Hn) as Hmono.
  pose proof (qpow_bounds 0.9 n Hq) as [Hp0 Hp1].
  pose proof qpow_09_200 as H200.
  destruct (Qlt_le_dec 0 v) as [Hpos | Hzero].
  - destruct (advance_n_distance n bs) as [Ha _].
    change (target bs) with 0 in Ha. change (value bs) with v in Ha.
    rewrite (Ha Hpos). nra.
  - destruct (advance_n_distance n bs) as [_ Hb].
    change (target bs) with 0 in Hb. change (value bs) with v in Hb.
    rewrite (Hb Hzero).
    assert (Hv : v == 0) by lra. rewrite Hv. lra.
Qed.

(** Opening: the distance after [n] frames is at most [0.95^n]. *)
Lemma opening_distance (v : Q) (n : nat) :
  0 <= v <= 1 ->
  Qabs (value (advance_n n {| value := v; target := 1 |}) - 1) == (1 - v) * qpow 0.95 n.
Proof.
  intros [H0 H1].
  destruct (advance_n_distance n {| value := v; target := 1 |}) as [_ Hb].
  exact (Hb H1).
Qed.

Lemma opening_converges (v : Q) (n : nat) (k : nat) (eps : Q) :
  0 <= v <= 1 -> qpow 0.95 k < eps -> (k <= n)%nat ->
  Qabs (value (advance_n n {| value := v; target := 1 |}) - 1) < eps.
Proof.
  intros Hv Hk Hn. rewrite (opening_distance v n Hv).
  assert (Hq : 0 <= 0.95 <= 1) by (split; lra).
  pose proof (qpow_antitone 0.95 k n Hq Hn) as Hmono.
  pose proof (qpow_bounds 0.95 n Hq) as [Hp0 Hp1].
  destruct Hv. nra.
Qed.

(** C4 (as amended).  From any value in [0,1]: towards target 0, 200 frames
    bring the distance below 0.000001; towards target 1 the slower rate needs 270
    frames for that bound, and 200 frames bring it below 0.00004. *)
Theorem smoothing_converges (v : Q) (n : nat) :
  0 <= v <= 1 ->
  ((200 <= n)%nat ->
     Qabs (value (advance_n n {| value := v; target := 0 |}) - 0) < 0.000001)
  /\ ((270 <= n)%nat ->
     Qabs (value (advance_n n {| value := v; target := 1 |}) - 1) < 0.000001)
  /\ ((200 <= n)%nat ->
     Qabs (value (advance_n n {| value := v; target := 1 |}) - 1) < 0.00004).
Proof.
  intro Hv. repeat split; intro Hn.
  - now apply closing_converges.
  - exact (opening_converges v n 270 _ Hv qpow_095_270 Hn).
  - exact (opening_converges v n 200 _ Hv qpow_095_200_upper Hn).
Qed.

Lemma smoothing_converges_witness :
  Qabs (value (advance_n 270 {| value := 0.5; target := 1 |}) - 1) < 0.000001.
Proof.
  refine (proj1 (proj2 (smoothing_converges 0.5 270 _)) _).
  - split; vm_compute; discriminate.
  - lia.
Defined.

(** C4 as the spec states it fails: opening from 0, 200 frames leave the value
    more than 0.00003 short of the target. *)
Lemma smoothing_200_frames_not_enough :
  ~ Qabs (value (advance_n 200 {| value := 0; target := 1 |}) - 1) < 0.000001.
Proof.
  assert (Hv : 0 <= 0 <= 1) by (split; lra).
  rewrite (opening_distance 0 200 Hv).
  pose proof qpow_095_200_lower. lra.
Qed.

(** The 270 of the amended bound is the least number of frames that works
    for every start. *)
Lemma smoothing_269_frames_not_enough :
  ~ Qabs (value (advance_n 269 {| value := 0; target := 1 |}) - 1) < 0.000001.
Proof.
  assert (Hv : 0 <= 0 <= 1) by (split; lra).
  rewrite (opening_distance 0 269 Hv).
  assert (H : 0.000001 < qpow 0.95 269) by (vm_compute; reflexivity).
  lra.
Qed.

(** *** Hitting times *)

Lemma steps_until_sound (p : Q -> bool) (fuel : nat) (bs : BookState) (n : nat) :
  steps_until p fuel bs = Some n ->
  (n <= fuel)%nat
  /\ p (value (advance_n n bs)) = true
  /\ forall k, (k < n)%nat -> p (value (advance_n k bs)) = false.
Proof.
  revert bs n. induction fuel as [|fuel IH]; intros bs n H; simpl in H.
  - destruct (p (value bs)) eqn:E; [|discriminate].
    injection H as <-. repeat split; [lia | exact E | intros k Hk; lia].
  - destruct (p (value bs)) eqn:E.
    + injection H as <-. repeat split; [lia | exact E | intros k Hk; lia].
    + destruct (steps_until p fuel (advance bs)) as [m|] eqn:Em; [|discriminate].
      injection H as <-. destruct (IH _ _ Em) as (Hle & Hp & Hlt).
      repeat split; [lia | exact Hp |].
      intros [|k] Hk; [exact E | apply Hlt; lia].
Qed.

Lemma steps_until_complete (p : Q -> bool) (fuel : nat) (bs : BookState) (n : nat) :
  (n <= fuel)%nat ->
  p (value (advance_n n bs)) = true ->
  (forall k, (k < n)%nat -> p (value (advance_n k bs)) = false) ->
  steps_until p fuel bs = Some n.
Proof.
  revert bs n. induction fuel as [|fuel IH]; intros bs n Hle Hp Hlt.
  - assert (n = O) by lia. subst n. simpl in *. now rewrite Hp.
  - destruct n as [|n].
    + simpl in *. now rewrite Hp.
    + assert (H0 : p (value bs) = false) by (apply (Hlt O); lia).
      simpl. rewrite H0.
      rewrite (IH (advance bs) n); [reflexivity | lia | exact Hp |].
      intros k Hk. apply (Hlt (S k)). lia.
Qed.

Lemma Qltb_run_l (n : nat) (bs : BookState) (c : Q) :
  Qltb (value (advance_n n bs)) c = Qltb (value (advance_red_n n bs)) c.
Proof.
  destruct (advance_red_n_equiv n bs) as [Hv _]. now rewrite Hv.
Qed.

Lemma Qltb_run_r (n : nat) (bs : BookState) (c : Q) :
  Qltb c (value (advance_n n bs)) = Qltb c (value (advance_red_n n bs)).
Proof.
  destruct (advance_red_n_equiv n bs) as [Hv _]. now rewrite Hv.
Qed.

(** C5.  Closing from 1 is below 0.5 after 7 frames and not before; opening
    from 0 is above 0.5 after 14 frames and not before; so closing gets
    there in strictly fewer steps. *)
Theorem closing_faster_than_opening :
  exists c o : nat,
    steps_until (fun v => Qltb v 0.5) 100 {| value := 1.0; target := 0.0 |} = Some c
    /\ steps_until (fun v => Qgtb v 0.5) 100 {| value := 0.0; target := 1.0 |} = Some o
    /\ c = 7%nat /\ o = 14%nat /\ (c < o)%nat.
Proof.
  exists 7%nat, 14%nat.
  split; [|split; [|split; [reflexivity | split; [reflexivity | lia]]]].
  - apply steps_until_complete; [lia | |]; cbv beta.
    + rewrite Qltb_run_l. vm_compute. reflexivity.
    + intros k Hk. rewrite Qltb_run_l.
      do 7 (destruct k as [|k]; [vm_compute; reflexivity|]). lia.
  - apply steps_until_complete; [lia | |]; cbv beta; unfold Qgtb.
    + rewrite Qltb_run_r. vm_compute. reflexivity.
    + intros k Hk. rewrite Qltb_run_r.
      do 14 (destruct k as [|k]; [vm_compute; reflexivity|]). lia.
Qed.

(** The same counts, and the same shortfall after 200 frames, on binary64
    floats. *)
Module Binary64Facts.
Import PrimFloat Binary64.
Local Open Scope float_scope.

Lemma binary64_hitting_times :
  steps_until (fun v => ltb v 0.5) 100 {| value := 1.0; target := 0.0 |} = Some 7%nat
  /\ steps_until (fun v => ltb 0.5 v) 100 {| value := 0.0; target := 1.0 |} = Some 14%nat.
Proof. split; vm_compute; reflexivity. Qed.

Lemma binary64_200_frames_not_enough :
  ltb (abs (value (advance_n 200 {| value := 0; target := 1 |}) - 1)) 0.000001 = false
  /\ ltb (abs (value (advance_n 270 {| value := 0; target := 1 |}) - 1)) 0.000001 = true
  /\ ltb (abs (value (advance_n 200 {| value := 1; target := 0 |}) - 0)) 0.000001 = true.
Proof. repeat split; vm_compute; reflexivity. Qed.

End Binary64Facts.

(** Where binary64 and exact arithmetic part: an opening run stalls just
    below 1, so a frame need not move the value; at the double 0.604 the
    pop-up is shown; a drag from 14.4 to 64.4 counts as more than 50 and one
    from 0.1 to 50.1 does not. *)
Module Binary64Rounding.
Import PrimFloat Binary64 Binary64Lines.
Local Open Scope float_scope.

Lemma binary64_opening_stalls :
  let bs := advance_n 1000 {| value := 0; target := 1 |} in
  ltb (value bs) 1 = true /\ eqb (value (advance bs)) (value bs) = true.
Proof. split; vm_compute; reflexivity. Qed.

Lemma binary64_popup_at_0604 : popup_visible 0.604 = true.
Proof. vm_compute. reflexivity. Qed.

Lemma binary64_drag_differences :
  drag_flips 14.4 64.4 = true /\ drag_flips 0.1 50.1 = false.
Proof. split; vm_compute; reflexivity. Qed.

End Binary64Rounding.

(** *** The frame *)

(** C2.  A frame replaces the value by value + (target - value) * rate, with
    rate 0.10 when the target is below the value and 0.05 otherwise, and
    leaves the target as it was. *)
Theorem animate_update_rule (w : World) :
  (target (bookState w) < value (bookState w) ->
     value (bookState (animate w))
     = value (bookState w) + (target (bookState w) - value (bookState w)) * 0.10)
  /\ (~ target (bookState w) < value (bookState w) ->
     value (bookState (animate w))
     = value (bookState w) + (target (bookState w) - value (bookState w)) * 0.05)
  /\ target (bookState (animate w)) = target (bookState w).
Proof.
  assert (Hb : bookState (animate w) = advance (bookState w)) by reflexivity.
  rewrite Hb. unfold advance. cbn [value target].
  split; [|split].
  - intro H. now rewrite (lerpSpeed_closing _ H).
  - intro H. now rewrite (lerpSpeed_opening _ H).
  - reflexivity.
Qed.

(** What a frame writes into the scene is [derive] of the value it has just
    computed; the page, the timers and the bee flag are not touched. *)
Lemma animate_scene (w : World) :
  let p := derive (value (bookState (animate w))) in
  bookGroup_scale (scene (animate w)) = currentBookScale p
  /\ rightPivot_rotation_z (scene (animate w)) = bookRotation p
  /\ leftPivot_rotation_z (scene (animate w)) = - bookRotation p
  /\ popupGroup_scale (scene (animate w)) = contentScale p
  /\ popupGroup_visible (scene (animate w)) = Qgtb (contentScale p) 0.01.
Proof. repeat split. Qed.

Lemma animate_frame (w : World) :
  document (animate w) = document w
  /\ timers (animate w) = timers w
  /\ teamBeeGroup_visible (animate w) = teamBeeGroup_visible w
  /\ teamBeeTimer (animate w) = teamBeeTimer w
  /\ now (animate w) = now w
  /\ nextTimerId (animate w) = nextTimerId w.
Proof. repeat split. Qed.

(** X2.  With the openness in [0,1] and its target 0 or 1, one frame never
    moves the openness away from its target and never past it.  (On
    binary64 the step can be too small to move the value at all:
    [binary64_opening_stalls].) *)
Lemma advance_between (bs : BookState) :
  book_in_range bs ->
  (target bs <= value bs -> target bs <= value (advance bs) <= value bs)
  /\ (value bs <= target bs -> value bs <= value (advance bs) <= target bs).
Proof.
  intros _. split; intro H; simpl.
  - destruct (Qlt_le_dec (target bs) (value bs)) as [Hlt|Hle].
    + rewrite (lerpSpeed_closing bs Hlt). split; lra.
    + rewrite (lerpSpeed_opening bs) by lra. split; lra.
  - rewrite (lerpSpeed_opening bs) by lra. split; lra.
Qed.

Lemma advance_between_witness :
  let bs := {| value := 0.5; target := 1 |} in
  value bs <= value (advance bs) <= target bs.
Proof.
  intro bs. apply (advance_between bs); unfold book_in_range; cbn [value target bs].
  - split; [split; lra | right; reflexivity].
  - lra.
Defined.

(** ** Class lists and documents *)

Lemma contains_app (cl1 cl2 : list string) (c : string) :
  contains (cl1 ++ cl2)%list c = contains cl1 c || contains cl2 c.
Proof. unfold contains. apply existsb_app. Qed.

Lemma contains_singleton (a c : string) : contains [a] c = String.eqb c a.
Proof. unfold contains. simpl. apply orb_false_r. Qed.

Lemma contains_add_token (cl : list string) (a c : string) :
  contains (add_token cl a) c = contains cl c || String.eqb c a.
Proof.
  unfold add_token. destruct (contains cl a) eqn:E.
  - destruct (String.eqb_spec c a) as [->|]; [now rewrite E | now rewrite orb_false_r].
  - now rewrite contains_app, contains_singleton.
Qed.

Lemma contains_add_tokens (tokens cl : list string) (c : string) :
  contains (add_tokens tokens cl) c = contains cl c || contains tokens c.
Proof.
  unfold add_tokens. revert cl.
  induction tokens as [|a tokens IH]; intro cl; simpl.
  - now rewrite orb_false_r.
  - rewrite IH, contains_add_token, <- orb_assoc. reflexivity.
Qed.

Lemma contains_remove_tokens (tokens cl : list string) (c : string) :
  contains (remove_tokens tokens cl) c = contains cl c && negb (contains tokens c).
Proof.
  unfold remove_tokens. induction cl as [|a cl IH]; simpl; [reflexivity|].
  destruct (contains tokens a) eqn:Ea; simpl.
  - rewrite IH. destruct (String.eqb_spec c a) as [->|]; simpl; [|reflexivity].
    rewrite Ea. simpl. now rewrite andb_false_r.
  - rewrite IH. destruct (String.eqb_spec c a) as [->|]; simpl; [|reflexivity].
    now rewrite Ea.
Qed.

Lemma has_class_el_add (tokens : list string) (c : string) (e : Element) :
  has_class c (el_add tokens e) = has_class c e || contains tokens c.
Proof. unfold has_class, el_add. simpl. apply contains_add_tokens. Qed.

Lemma has_class_el_remove (tokens : list string) (c : string) (e : Element) :
  has_class c (el_remove tokens e) = has_class c e && negb (contains tokens c).
Proof. unfold has_class, el_remove. simpl. apply contains_remove_tokens. Qed.

Lemma has_class_set_opacity (o c : string) (e : Element) :
  has_class c (set_opacity o e) = has_class c e.
Proof. reflexivity. Qed.

Lemma stable_except_refl (T : list string) (e : Element) : stable_except T e e.
Proof. repeat split. Qed.

Lemma stable_except_trans (T : list string) (a b c : Element) :
  stable_except T a b -> stable_except T b c -> stable_except T a c.
Proof.
  intros (H1 & H2 & H3 & H4) (K1 & K2 & K3 & K4). repeat split; try congruence.
  intros x Hx. rewrite (K4 x Hx). now apply H4.
Qed.

Lemma stable_except_weaken (T T' : list string) (a b : Element) :
  (forall c, contains T c = true -> contains T' c = true) ->
  stable_except T a b -> stable_except T' a b.
Proof.
  intros Hsub (H1 & H2 & H3 & H4). repeat split; auto.
  intros c Hc. apply H4. destruct (contains T c) eqn:E; [|reflexivity].
  apply Hsub in E. congruence.
Qed.

Lemma tame_el_add (T tokens : list string) :
  (forall c, contains tokens c = true -> contains T c = true) -> tame T (el_add tokens).
Proof.
  intros Hsub e. repeat split. intros c Hc. rewrite has_class_el_add.
  destruct (contains tokens c) eqn:E; [apply Hsub in E; congruence|].
  now rewrite orb_false_r.
Qed.

Lemma tame_el_remove (T tokens : list string) :
  (forall c, contains tokens c = true -> contains T c = true) -> tame T (el_remove tokens).
Proof.
  intros Hsub e. repeat split. intros c Hc. rewrite has_class_el_remove.
  destruct (contains tokens c) eqn:E; [apply Hsub in E; congruence|].
  now rewrite andb_true_r.
Qed.

Lemma tame_set_opacity (T : list string) (o : string) : tame T (set_opacity o).
Proof. intro e. repeat split. Qed.

Lemma tame_compose (T : list string) (f g : Element -> Element) :
  tame T f -> tame T g -> tame T (fun e => g (f e)).
Proof. intros Hf Hg e. eapply stable_except_trans; [apply Hf | apply Hg]. Qed.

(** *** [update] *)

Lemma update_length (r : ref) (f : Element -> Element) (d : Document) :
  List.length (update r f d) = List.length d.
Proof.
  revert r. induction d as [|e d IH]; intros [|r]; simpl; auto.
Qed.

Lemma nth_error_update (r i : ref) (f : Element -> Element) (d : Document) :
  nth_error (update r f d) i
  = if (i =? r)%nat then option_map f (nth_error d i) else nth_error d i.
Proof.
  revert r i. induction d as [|e d IH]; intros [|r] [|i]; simpl; auto.
  - destruct (i =? r)%nat; reflexivity.
Qed.

Lemma update_update (r : ref) (f g : Element -> Element) (d : Document) :
  update r g (update r f d) = update r (fun e => g (f e)) d.
Proof.
  revert r. induction d as [|e d IH]; intros [|r]; simpl; auto.
  now rewrite IH.
Qed.

Lemma update_app_length (pre : Document) (f : Element -> Element) (e : Element) (rest : Document) :
  update (List.length pre) f (pre ++ e :: rest)%list = (pre ++ f e :: rest)%list.
Proof. induction pre as [|a pre IH]; simpl; [reflexivity | now rewrite IH]. Qed.

Lemma Forall2_update (R : Element -> Element -> Prop) (r : ref)
      (f : Element -> Element) (d0 d : Document) :
  (forall e0 e, R e0 e -> R e0 (f e)) ->
  Forall2 R d0 d -> Forall2 R d0 (update r f d).
Proof.
  intros Hf H. revert r. induction H as [|e0 e d0 d He H IH]; intros [|r]; simpl.
  - constructor.
  - constructor.
  - constructor; auto.
  - constructor; auto.
Qed.

Lemma Forall2_stable_refl (T : list string) (d : Document) :
  Forall2 (stable_except T) d d.
Proof. induction d; constructor; auto using stable_except_refl. Qed.

Lemma Forall2_stable_trans (T : list string) (a b c : Document) :
  Forall2 (stable_except T) a b -> Forall2 (stable_except T) b c ->
  Forall2 (stable_except T) a c.
Proof.
  intro H. revert c. induction H as [|x y a b Hxy H IH]; intros c Hc; inversion Hc; subst.
  - constructor.
  - constructor; [eapply stable_except_trans; eauto | auto].
Qed.

Lemma Forall2_stable_weaken (T T' : list string) (a b : Document) :
  (forall c, contains T c = true -> contains T' c = true) ->
  Forall2 (stable_except T) a b -> Forall2 (stable_except T') a b.
Proof.
  intros Hsub H. induction H; constructor; eauto using stable_except_weaken.
Qed.

(** *** Look-ups on a document whose elements kept what the look-up reads *)

Lemma index_of_ext (p : Element -> bool) (d d' : Document) :
  Forall2 (fun e e' => p e' = p e) d d' -> index_of p d' = index_of p d.
Proof.
  intro H. induction H as [|e e' d d' He H IH]; simpl; [reflexivity|].
  now rewrite He, IH.
Qed.

Lemma positions_from_ext (p : Element -> bool) (i : nat) (d d' : Document) :
  Forall2 (fun e e' => p e' = p e) d d' -> positions_from i p d' = positions_from i p d.
Proof.
  intro H. revert i. induction H as [|e e' d d' He H IH]; intro i; simpl; [reflexivity|].
  now rewrite He, IH.
Qed.

Lemma lookup_id_stable (T : list string) (s : string) (d d' : Document) :
  Forall2 (stable_except T) d d' -> lookup_id s d' = lookup_id s d.
Proof.
  intro H. unfold lookup_id. destruct (String.eqb s ""); [reflexivity|].
  apply index_of_ext. eapply Forall2_impl; [|exact H].
  intros e e' (Hid & _). cbn beta. now rewrite Hid.
Qed.

Lemma select_class_stable (T : list string) (c : string) (d d' : Document) :
  contains T c = false ->
  Forall2 (stable_except T) d d' -> select_class c d' = select_class c d.
Proof.
  intros Hc H. unfold select_class. apply positions_from_ext.
  eapply Forall2_impl; [|exact H]. intros e e' (_ & _ & _ & Hcl). now apply Hcl.
Qed.

Lemma index_of_Some (p : Element -> bool) (d : Document) (i : ref) :
  index_of p d = Some i ->
  exists e, nth_error d i = Some e /\ p e = true.
Proof.
  revert i. induction d as [|e d IH]; intros i H; simpl in H; [discriminate|].
  destruct (p e) eqn:E.
  - injection H as <-. exists e. auto.
  - destruct (index_of p d) as [j|]; [|discriminate]. injection H as <-.
    destruct (IH j eq_refl) as (e' & Hn & Hp). exists e'. auto.
Qed.

Lemma lookup_id_Some (s : string) (d : Document) (i : ref) :
  lookup_id s d = Some i -> exists e, nth_error d i = Some e /\ el_id e = s.
Proof.
  unfold lookup_id. destruct (String.eqb s ""); [discriminate|]. intro H.
  destruct (index_of_Some _ _ _ H) as (e & Hn & Hp). exists e. split; [exact Hn|].
  now apply String.eqb_eq.
Qed.

Lemma In_positions_from (p : Element -> bool) (k : nat) (d : Document) (i : ref) :
  In i (positions_from k p d) <->
  exists e, (k <= i)%nat /\ nth_error d (i - k) = Some e /\ p e = true.
Proof.
  revert k. induction d as [|a d IH]; intro k; simpl.
  - split; [tauto|]. intros (e & _ & H & _). destruct (i - k)%nat; discriminate.
  - assert (Hrest : In i (positions_from (S k) p d) <->
              exists e, (k < i)%nat /\ nth_error (a :: d) (i - k) = Some e /\ p e = true).
    { rewrite IH. split; intros (e & Hk & Hn & Hp); exists e; (split; [lia|]); split; auto.
      - replace (i - k)%nat with (S (i - S k)) by lia. exact Hn.
      - replace (i - k)%nat with (S (i - S k)) in Hn by lia. exact Hn. }
    destruct (p a) eqn:Ea; simpl; rewrite Hrest.
    + split.
      * intros [<-|(e & Hk & Hn & Hp)].
        -- exists a. rewrite Nat.sub_diag. auto.
        -- exists e. split; [lia|auto].
      * intros (e & Hk & Hn & Hp).
        destruct (Nat.eq_dec k i) as [->|Hne]; [now left|].
        right. exists e. split; [lia|auto].
    + split.
      * intros (e & Hk & Hn & Hp). exists e. split; [lia|auto].
      * intros (e & Hk & Hn & Hp).
        destruct (Nat.eq_dec k i) as [->|Hne].
        -- rewrite Nat.sub_diag in Hn. simpl in Hn. injection Hn as <-. congruence.
        -- exists e. split; [lia|auto].
Qed.

(** Updating the selected positions one after the other is a conditional
    map over the document. *)
Lemma fold_update_positions (p : Element -> bool) (g : Element -> Element)
      (pre d : Document) :
  fold_left (fun acc r => update r g acc) (positions_from (List.length pre) p d) (pre ++ d)%list
  = (pre ++ map (fun e => if p e then g e else e) d)%list.
Proof.
  revert pre. induction d as [|e d IH]; intro pre; simpl; [reflexivity|].
  assert (Hnext : forall x, S (List.length pre) = List.length (pre ++ [x])%list).
  { intro x. rewrite length_app. simpl. lia. }
  destruct (p e) eqn:E; simpl.
  - rewrite update_app_length. rewrite (Hnext (g e)).
    replace (pre ++ g e :: d)%list with ((pre ++ [g e]) ++ d)%list
      by (rewrite <- app_assoc; reflexivity).
    rewrite IH, <- app_assoc. reflexivity.
  - rewrite (Hnext e).
    replace (pre ++ e :: d)%list with ((pre ++ [e]) ++ d)%list
      by (rewrite <- app_assoc; reflexivity).
    rewrite IH, <- app_assoc. reflexivity.
Qed.

Lemma fold_update_select (c : string) (g : Element -> Element) (d : Document) :
  fold_left (fun acc r => update r g acc) (select_class c d) d
  = map (fun e => if has_class c e then g e else e) d.
Proof. exact (fold_update_positions (has_class c) g [] d). Qed.

(** ** Reasoning about statements *)

Lemma wp_ret {A : Type} (a : A) (Q : A -> World -> Prop) (E : World -> Prop) (w : World) :
  Q a w -> wp (ret a) Q E w.
Proof. exact (fun H => H). Qed.

Lemma wp_throw {A : Type} (e : Error) (Q : A -> World -> Prop) (E : World -> Prop) (w : World) :
  E w -> wp (throw e) Q E w.
Proof. exact (fun H => H). Qed.

Lemma wp_gets {A : Type} (f : World -> A) (Q : A -> World -> Prop) (E : World -> Prop)
      (w : World) :
  Q (f w) w -> wp (gets f) Q E w.
Proof. exact (fun H => H). Qed.

Lemma wp_modify (f : World -> World) (Q : unit -> World -> Prop) (E : World -> Prop)
      (w : World) :
  Q tt (f w) -> wp (modify f) Q E w.
Proof. exact (fun H => H). Qed.

Lemma wp_bind {A B : Type} (m : M A) (k : A -> M B) (Q : B -> World -> Prop)
      (E : World -> Prop) (w : World) :
  wp m (fun a w' => wp (k a) Q E w') E w -> wp (bind m k) Q E w.
Proof. unfold wp, bind. destruct (m w); auto. Qed.

Lemma wp_mono {A : Type} (m : M A) (Q Q' : A -> World -> Prop) (E E' : World -> Prop)
      (w : World) :
  (forall a w', Q a w' -> Q' a w') -> (forall w', E w' -> E' w') ->
  wp m Q E w -> wp m Q' E' w.
Proof. unfold wp. intros HQ HE. destruct (m w); auto. Qed.

(** Sequencing through an intermediate assertion. *)
Lemma wp_seq {A B : Type} (I : World -> Prop) (m : M A) (k : A -> M B)
      (Q : B -> World -> Prop) (E : World -> Prop) (w : World) :
  wp m (fun _ => I) E w ->
  (forall a w', I w' -> wp (k a) Q E w') ->
  wp (bind m k) Q E w.
Proof.
  intros Hm Hk. apply wp_bind. eapply wp_mono; [| |exact Hm]; cbv beta; auto.
Qed.

Lemma wp_normal {A : Type} (m : M A) (Q : A -> World -> Prop) (E : World -> Prop)
      (w w' : World) (a : A) :
  wp m Q E w -> m w = Normal a w' -> Q a w'.
Proof. unfold wp. intros H Hm. now rewrite Hm in H. Qed.

Lemma wp_total {A : Type} (m : M A) (Q : A -> World -> Prop) (w : World) :
  wp m Q (fun _ => False) w -> exists a w', m w = Normal a w' /\ Q a w'.
Proof. unfold wp. destruct (m w) as [a w'|e w']; [eauto | tauto]. Qed.

Lemma wp_settle {A : Type} (m : M A) (I : World -> Prop) (w : World) :
  wp m (fun _ => I) I w -> I (settle (m w)).
Proof. unfold wp, settle. destruct (m w); auto. Qed.

Lemma wp_forEach (I E : World -> Prop) (rs : list ref) (f : ref -> M unit) (w : World) :
  (forall r w', In r rs -> I w' -> wp (f r) (fun _ => I) E w') ->
  I w -> wp (forEach rs f) (fun _ => I) E w.
Proof.
  revert w. induction rs as [|r rs IH]; intros w Hf Hw; simpl.
  - now apply wp_ret.
  - apply (wp_seq I).
    + apply Hf; [now left | exact Hw].
    + intros _ w' Hw'. apply IH; [|exact Hw']. intros r' w'' Hin. apply Hf. now right.
Qed.

Lemma wp_element (T : list string) (I E : World -> Prop) (r : option ref)
      (f : Element -> Element) (w : World) :
  writes_within T I -> tame T f -> I w -> (r = None -> E w) ->
  wp (x <- deref r ;; modify_element x f) (fun _ => I) E w.
Proof.
  intros HI Hf Hw Hnone. destruct r as [x|].
  - apply (ww_element T I HI); assumption.
  - now apply Hnone.
Qed.

(** Token lists, compared by evaluation. *)
Lemma tokens_within (A T : list string) :
  forallb (contains T) A = true ->
  forall c, contains A c = true -> contains T c = true.
Proof.
  intros H c Hc. unfold contains in Hc at 1. apply existsb_exists in Hc.
  destruct Hc as (a & Hin & Heq). apply String.eqb_eq in Heq. subst a.
  rewrite forallb_forall in H. now apply H.
Qed.

Ltac tokens := apply tokens_within; vm_compute; reflexivity.

(** *** The steps of [switchPage], one by one *)

Lemma enter_home_spec (T : list string) (I E : World -> Prop) (isHome : bool) (w : World) :
  (forall c, contains T_style c = true -> contains T c = true) ->
  writes_within T I ->
  covers_missing ["canvas-container"; "main-header"; "nav-container"] I E ->
  I w -> wp (enter_home isHome) (fun _ => I) E w.
Proof.
  intros HT HI HE Hw. unfold enter_home. destruct isHome; [|now apply wp_ret].
  apply (wp_seq I); [apply wp_modify; now apply (ww_bookState T I HI)|].
  intros _ w1 H1. apply wp_bind, wp_gets.
  apply (wp_seq I).
  { apply (wp_element T); auto using tame_set_opacity.
    intro Hn. apply (HE w1 "canvas-container"); simpl; auto. }
  intros _ w2 H2. apply wp_bind, wp_gets.
  destruct (lookup_id "main-header" (document w2)) as [h|] eqn:Hh.
  2:{ apply wp_bind. change (E w2). apply (HE w2 "main-header"); simpl; auto. }
  apply (wp_seq I).
  { apply (wp_element T); auto; [|discriminate].
    apply tame_el_remove. intros c Hc. apply HT. revert c Hc. tokens. }
  intros _ w3 H3. apply (wp_seq I).
  { apply (wp_element T); auto; [|discriminate].
    apply tame_el_add. intros c Hc. apply HT. revert c Hc. tokens. }
  intros _ w4 H4. apply wp_bind, wp_gets.
  apply (wp_element T); auto.
  - apply tame_el_add. intros c Hc. apply HT. revert c Hc. tokens.
  - intro Hn. apply (HE w4 "nav-container"); simpl; auto.
Qed.

Lemma style_non_home_spec (T : list string) (I E : World -> Prop) (isHome : bool)
      (pageId : string) (w : World) :
  (forall c, contains T_style c = true -> contains T c = true) ->
  writes_within T I -> survives_canvas_timer I ->
  covers_missing ["main-header"; "nav-container"] I E ->
  I w -> wp (style_non_home isHome pageId) (fun _ => I) E w.
Proof.
  intros HT HI Htimer HE Hw. unfold style_non_home.
  destruct isHome; simpl; [now apply wp_ret|].
  apply wp_bind, wp_gets. apply (wp_seq I).
  { exact (Htimer w _ pageId Hw). }
  intros _ w1 H1. apply wp_bind, wp_gets.
  destruct (lookup_id "main-header" (document w1)) as [h|] eqn:Hh.
  2:{ apply wp_bind. change (E w1). apply (HE w1 "main-header"); simpl; auto. }
  apply (wp_seq I).
  { apply (wp_element T); auto; [|discriminate].
    apply tame_el_add. intros c Hc. apply HT. revert c Hc. tokens. }
  intros _ w2 H2. apply (wp_seq I).
  { apply (wp_element T); auto; [|discriminate].
    apply tame_el_remove. intros c Hc. apply HT. revert c Hc. tokens. }
  intros _ w3 H3. apply wp_bind, wp_gets.
  apply (wp_element T); auto.
  - apply tame_el_remove. intros c Hc. apply HT. revert c Hc. tokens.
  - intro Hn. apply (HE w3 "nav-container"); simpl; auto.
Qed.


Lemma swap_sections_spec (T : list string) (I E : World -> Prop) (isHome : bool)
      (pageId : string) (w : World) :
  (forall c, contains T_swap c = true -> contains T c = true) ->
  writes_within T I ->
  I w -> wp (swap_sections isHome pageId) (fun _ => I) E w.
Proof.
  intros HT HI Hw. unfold swap_sections.
  assert (Hrem : forall tokens, forallb (contains T_swap) tokens = true ->
                                tame T (el_remove tokens)).
  { intros tokens Ht. apply tame_el_remove. intros c Hc. apply HT.
    revert c Hc. now apply tokens_within. }
  assert (Hadd : forall tokens, forallb (contains T_swap) tokens = true ->
                                tame T (el_add tokens)).
  { intros tokens Ht. apply tame_el_add. intros c Hc. apply HT.
    revert c Hc. now apply tokens_within. }
  apply wp_bind, wp_gets. apply (wp_seq I).
  { apply wp_forEach; [|exact Hw]. intros r w' _ Hw'. apply (wp_seq I).
    - apply (wp_element T); auto; discriminate.
    - intros _ w'' Hw''. apply (wp_element T); auto; discriminate. }
  intros _ w1 H1. apply wp_bind, wp_gets.
  destruct (lookup_id (if isHome then "home-page" else pageId) (document w1)) as [t|];
    [|now apply wp_ret].
  apply (wp_seq I).
  { apply (wp_element T); auto; discriminate. }
  intros _ w2 H2. destruct isHome; simpl; [now apply wp_ret|].
  apply wp_bind, wp_gets.
  destruct (match nth_error (document w2) t with
            | Some e => el_firstDiv e
            | None => None
            end) as [c|]; [|now apply wp_ret].
  apply (wp_element T); auto; discriminate.
Qed.

Lemma select_class_update (T : list string) (c : string) (r : ref)
      (f : Element -> Element) (d : Document) :
  tame T f -> contains T c = false ->
  select_class c (update r f d) = select_class c d.
Proof.
  intros Hf Hc. apply (select_class_stable T); [exact Hc|].
  apply Forall2_update; [|apply Forall2_stable_refl].
  intros e0 e He. eapply stable_except_trans; [exact He | apply Hf].
Qed.

Lemma update_nav_links_spec (T : list string) (I E : World -> Prop)
      (pageId : string) (w : World) :
  (forall c, contains T_links c = true -> contains T c = true) ->
  writes_within T I -> covers_bare_link I E ->
  I w -> wp (update_nav_links pageId) (fun _ => I) E w.
Proof.
  intros HT HI HE Hw. unfold update_nav_links.
  assert (Hrem : tame T (el_remove [highlight])).
  { apply tame_el_remove. intros c Hc. apply HT. revert c Hc. tokens. }
  assert (Hadd : tame T (el_add [highlight])).
  { apply tame_el_add. intros c Hc. apply HT. revert c Hc. tokens. }
  apply wp_bind, wp_gets. apply (wp_seq I).
  { apply wp_forEach; [|exact Hw]. intros r w' _ Hw'.
    apply (wp_element T); auto; discriminate. }
  intros _ w1 H1. apply wp_bind, wp_gets.
  set (links := select_class "nav-link" (document w1)).
  set (J := fun w' => I w' /\ select_class "nav-link" (document w') = links).
  apply (wp_mono _ (fun _ => J) _ E E); [intros _ w' [H _]; exact H | auto |].
  apply wp_forEach; [|split; [exact H1 | reflexivity]].
  intros r w' Hin [Hw' Hsel]. apply wp_bind, wp_gets.
  destruct (nth_error (document w') r) as [e|] eqn:Hr.
  - destruct (el_onclick e) as [text|] eqn:Ho.
    + destruct (includes text pageId); [|now apply wp_ret].
      change (J (set_document (update r (el_add [highlight]) (document w')) w')).
      split; [now apply (ww_element T I HI)|]. cbn [document set_document].
      rewrite <- Hsel. apply (select_class_update [highlight]); [|reflexivity].
      apply tame_el_add. auto.
    + apply wp_throw. apply (HE w' r e); auto. now rewrite Hsel.
  - exfalso. rewrite <- Hsel in Hin. unfold select_class in Hin.
    apply In_positions_from in Hin. destruct Hin as (e & _ & Hn & _).
    rewrite Nat.sub_0_r in Hn. congruence.
Qed.

(** Step 6 never throws; what it leaves behind. *)
Lemma team_bees_run (pageId : string) (w : World) :
  exists w', team_bees pageId w = Normal tt w'
    /\ document w' = document w
    /\ bookState w' = bookState w
    /\ now w' = now w
    /\ (if String.eqb pageId "team"
        then timers w' = (cleared w ++ [mkTimer (nextTimerId w) (now w + 2000) ShowTeamBees])%list
             /\ teamBeeTimer w' = Some (nextTimerId w)
             /\ nextTimerId w' = S (nextTimerId w)
             /\ teamBeeGroup_visible w' = teamBeeGroup_visible w
        else timers w' = cleared w
             /\ teamBeeTimer w' = teamBeeTimer w
             /\ nextTimerId w' = nextTimerId w
             /\ teamBeeGroup_visible w' = false).
Proof.
  unfold team_bees, cleared, bind, gets.
  destruct (teamBeeTimer w) as [[|k]|] eqn:Ht; destruct (String.eqb pageId "team");
    eexists; (split; [reflexivity|]); cbn; rewrite ?Ht; repeat split; reflexivity.
Qed.

(** Steps 2 to 5 under one assertion. *)
Lemma switchPage_prefix_spec (I E : World -> Prop) (pageId : string) (w : World)
      (k : M unit) (Q : unit -> World -> Prop) :
  writes_within T_all I -> survives_canvas_timer I ->
  covers_missing ["canvas-container"; "main-header"; "nav-container"] I E ->
  covers_bare_link I E ->
  I w ->
  (forall w', I w' -> wp k Q E w') ->
  wp (enter_home (String.eqb pageId "home") ;;;
      swap_sections (String.eqb pageId "home") pageId ;;;
      style_non_home (String.eqb pageId "home") pageId ;;;
      update_nav_links pageId ;;; k) Q E w.
Proof.
  intros HI Htimer Hmiss Hlink Hw Hk.
  apply (wp_seq I).
  { apply (enter_home_spec T_all); auto. tokens. }
  intros _ w1 H1. apply (wp_seq I).
  { apply (swap_sections_spec T_all); auto. tokens. }
  intros _ w2 H2. apply (wp_seq I).
  { apply (style_non_home_spec T_all); auto; [tokens|].
    intros w' s Hs. apply Hmiss. simpl in *. tauto. }
  intros _ w3 H3. apply (wp_seq I).
  { apply (update_nav_links_spec T_all); auto. tokens. }
  intros _ w4 H4. now apply Hk.
Qed.

(** ** Which sections are active after [switchPage] *)

Lemma set_document_same (w : World) : set_document (document w) w = w.
Proof. destruct w. reflexivity. Qed.

(** A loop whose body rewrites the visited element and nothing else. *)
Lemma forEach_updates (g : Element -> Element) (f : ref -> M unit) (rs : list ref) (w : World) :
  (forall r w', f r w' = Normal tt (set_document (update r g (document w')) w')) ->
  forEach rs f w
  = Normal tt (set_document (fold_left (fun acc r => update r g acc) rs (document w)) w).
Proof.
  intro Hf. revert w. induction rs as [|r rs IH]; intro w; simpl.
  - unfold ret. now rewrite set_document_same.
  - unfold bind. rewrite Hf, IH. reflexivity.
Qed.

Lemma deactivate_loop (w : World) :
  forEach (select_class "page-section" (document w))
    (fun el => classList_remove (Some el) ["active"] ;;;
               classList_remove (Some el) ["page-transition-enter"]) w
  = Normal tt
      (set_document
         (map (fun e => if has_class "page-section" e then deactivate e else e) (document w)) w).
Proof.
  rewrite (forEach_updates deactivate).
  - now rewrite fold_update_select.
  - intros r w'. unfold bind, classList_remove, deref, ret, modify_element, modify.
    cbn. now rewrite update_update.
Qed.

Lemma deactivate_tame : tame T_swap deactivate.
Proof.
  apply (tame_compose T_swap (el_remove ["active"]) (el_remove ["page-transition-enter"]));
    apply tame_el_remove; tokens.
Qed.

Lemma Forall2_map_r (R : Element -> Element -> Prop) (f : Element -> Element) (d : Document) :
  (forall e, R e (f e)) -> Forall2 R d (map f d).
Proof. intro H. induction d; simpl; constructor; auto. Qed.

Lemma Forall2_nth_error (R : Element -> Element -> Prop) (d d' : Document) (i : nat) (e' : Element) :
  Forall2 R d d' -> nth_error d' i = Some e' ->
  exists e, nth_error d i = Some e /\ R e e'.
Proof.
  intro H. revert i. induction H as [|x y d d' Hxy H IH]; intros [|i] Hn; simpl in *;
    try discriminate.
  - injection Hn as <-. eauto.
  - now apply IH.
Qed.

Lemma only_target_active_update (target : option ref) (r : ref) (f : Element -> Element)
      (d : Document) :
  (forall e, has_class "page-section" (f e) = has_class "page-section" e
             /\ has_class "active" (f e) = has_class "active" e) ->
  only_target_active target d -> only_target_active target (update r f d).
Proof.
  intros Hf H i e Hn Hs. rewrite nth_error_update in Hn.
  destruct (i =? r)%nat.
  - destruct (nth_error d i) as [e0|] eqn:E0; [|discriminate]. injection Hn as <-.
    destruct (Hf e0) as [Hps Hact]. rewrite Hps in Hs. rewrite Hact. now apply (H i).
  - now apply (H i).
Qed.

Lemma swap_sections_active (isHome : bool) (pageId : string) (w : World) :
  wp (swap_sections isHome pageId)
     (fun _ w' =>
        Forall2 (stable_except T_swap) (document w) (document w')
        /\ only_target_active
             (lookup_id (if isHome then "home-page" else pageId) (document w)) (document w'))
     (fun _ => False) w.
Proof.
  unfold swap_sections. apply wp_bind, wp_gets. apply wp_bind.
  unfold wp at 1. rewrite deactivate_loop.
  set (d1 := map (fun e => if has_class "page-section" e then deactivate e else e) (document w)).
  assert (Hst : Forall2 (stable_except T_swap) (document w) d1).
  { apply Forall2_map_r. intro e. destruct (has_class "page-section" e);
      [apply deactivate_tame | apply stable_except_refl]. }
  assert (Hnone : forall i e, nth_error d1 i = Some e -> has_class "page-section" e = true ->
                              has_class "active" e = false).
  { intros i e Hn Hs. unfold d1 in Hn. rewrite nth_error_map in Hn.
    destruct (nth_error (document w) i) as [e0|]; [|discriminate]. injection Hn as <-.
    destruct (has_class "page-section" e0) eqn:E0; [|congruence].
    unfold deactivate. rewrite !has_class_el_remove.
    destruct (has_class "active" e0); reflexivity. }
  apply wp_bind, wp_gets. cbn [document set_document].
  rewrite (lookup_id_stable T_swap _ _ _ Hst).
  set (tid := if isHome then "home-page" else pageId).
  destruct (lookup_id tid (document w)) as [t|] eqn:Ht.
  2:{ apply wp_ret. cbn [document set_document]. split; [exact Hst|].
      intros i e Hn Hs. rewrite (Hnone i e Hn Hs). split; discriminate. }
  set (d2 := update t (el_add ["active"]) d1).
  assert (Hst2 : Forall2 (stable_except T_swap) (document w) d2).
  { apply Forall2_update; [|exact Hst]. intros e0 e He.
    eapply stable_except_trans; [exact He|]. apply tame_el_add. tokens. }
  assert (Hact2 : only_target_active (Some t) d2).
  { intros i e Hn Hs. unfold d2 in Hn. rewrite nth_error_update in Hn.
    destruct (Nat.eqb_spec i t) as [->|Hne].
    - destruct (nth_error d1 t) as [e0|]; [|discriminate]. injection Hn as <-.
      rewrite has_class_el_add. rewrite orb_true_r. tauto.
    - rewrite (Hnone i e Hn Hs). split; [discriminate | congruence]. }
  apply wp_bind. unfold wp at 1. cbn [classList_add bind deref ret modify_element modify].
  cbn [document set_document].
  fold d2.
  destruct isHome; cbn [negb].
  { apply wp_ret. cbn [document set_document]. auto. }
  apply wp_bind, wp_gets. cbn [document set_document].
  destruct (match nth_error d2 t with Some e => el_firstDiv e | None => None end) as [c|].
  2:{ apply wp_ret. cbn [document set_document]. auto. }
  unfold wp. cbn [classList_add bind deref ret modify_element modify].
  cbn [document set_document]. split.
  - apply Forall2_update; [|exact Hst2]. intros e0 e He.
    eapply stable_except_trans; [exact He|]. apply tame_el_add. tokens.
  - apply only_target_active_update; [|exact Hact2].
    intro e. rewrite !has_class_el_add. cbn. now rewrite !orb_false_r.
Qed.

Lemma doc_stable_writes (T : list string) (d0 : Document) :
  writes_within T (fun w => Forall2 (stable_except T) d0 (document w)).
Proof.
  split.
  - intros w r f Hf H. cbn [document set_document].
    apply Forall2_update; [|exact H]. intros e0 e He.
    eapply stable_except_trans; [exact He | apply Hf].
  - intros w b H. exact H.
Qed.

Lemma doc_stable_canvas_timer (T : list string) (d0 : Document) :
  survives_canvas_timer (fun w => Forall2 (stable_except T) d0 (document w)).
Proof. intros w c p H. exact H. Qed.

Lemma active_sections_stable (T : list string) (d d' : Document) :
  contains T "page-section" = false -> contains T "active" = false ->
  Forall2 (stable_except T) d d' -> active_sections d' = active_sections d.
Proof.
  intros Hps Hact H. unfold active_sections. apply positions_from_ext.
  eapply Forall2_impl; [|exact H]. intros e e' (_ & _ & _ & Hcl).
  cbn beta. now rewrite (Hcl _ Hps), (Hcl _ Hact).
Qed.

Lemma In_active_sections (d : Document) (i : ref) :
  In i (active_sections d) <->
  exists e, nth_error d i = Some e
            /\ has_class "page-section" e = true /\ has_class "active" e = true.
Proof.
  unfold active_sections. rewrite In_positions_from. rewrite Nat.sub_0_r.
  split; intros (e & H); exists e.
  - destruct H as (_ & Hn & Hp). apply andb_true_iff in Hp. tauto.
  - destruct H as (Hn & Hp & Ha). repeat split; [lia | exact Hn | now rewrite Hp, Ha].
Qed.

Lemma In_select_class (c : string) (d : Document) (i : ref) :
  In i (select_class c d) <-> exists e, nth_error d i = Some e /\ has_class c e = true.
Proof.
  unfold select_class. rewrite In_positions_from. rewrite Nat.sub_0_r.
  split; intros (e & H); exists e; [tauto | repeat split; try tauto; lia].
Qed.

(** After steps 2 to 6 have run to their end, the active sections are the
    target of the switch if it is a section, and nothing else. *)
Lemma switchPage_finish_active (pageId : string) (w w' : World) :
  switchPage_finish pageId w = Normal tt w' ->
  forall i, In i (active_sections (document w')) <->
            lookup_id (if String.eqb pageId "home" then "home-page" else pageId) (document w)
            = Some i
            /\ In i (select_class "page-section" (document w)).
Proof.
  intro Hrun.
  set (tid := if String.eqb pageId "home" then "home-page" else pageId).
  apply (wp_normal (switchPage_finish pageId)
           (fun _ w1 => forall i, In i (active_sections (document w1)) <->
                          lookup_id tid (document w) = Some i
                          /\ In i (select_class "page-section" (document w)))
           (fun _ => True) w w' tt); [|exact Hrun].
  unfold switchPage_finish. cbv zeta.
  set (I2 := fun w2 : World => Forall2 (stable_except T_style) (document w) (document w2)).
  apply (wp_seq I2).
  { apply (enter_home_spec T_style); try exact I; auto.
    - apply doc_stable_writes.
    - intros ? ? ? ? ?. exact I.
    - apply Forall2_stable_refl. }
  intros _ w2 H2.
  set (I3 := fun w3 : World =>
               Forall2 (stable_except T_swap) (document w2) (document w3)
               /\ only_target_active (lookup_id tid (document w2)) (document w3)).
  apply (wp_seq I3).
  { eapply wp_mono; [| |apply swap_sections_active]; cbv beta; auto. }
  intros _ w3 [H3 Hact].
  set (I4 := fun w4 : World => Forall2 (stable_except T_after) (document w3) (document w4)).
  apply (wp_seq I4).
  { apply (style_non_home_spec T_after); auto.
    - tokens.
    - apply doc_stable_writes.
    - apply doc_stable_canvas_timer.
    - intros ? ? ? ? ?. exact I.
    - apply Forall2_stable_refl. }
  intros _ w4 H4. apply (wp_seq I4).
  { apply (update_nav_links_spec T_after); auto.
    - tokens.
    - apply doc_stable_writes.
    - intros ? ? ? ? ? ? ?. exact I. }
  intros _ w5 H5.
  destruct (team_bees_run pageId w5) as (w6 & Hrun6 & Hdoc & _).
  unfold wp. rewrite Hrun6. rewrite Hdoc.
  intro i.
  rewrite (active_sections_stable T_after _ _ eq_refl eq_refl H5).
  rewrite In_active_sections, In_select_class.
  rewrite <- (lookup_id_stable T_style tid _ _ H2).
  split.
  - intros (e3 & Hn & Hps & Ha). split; [now apply (Hact i e3)|].
    destruct (Forall2_nth_error _ _ _ i e3 H3 Hn) as (e2 & Hn2 & (_ & _ & _ & Hc2)).
    destruct (Forall2_nth_error _ _ _ i e2 H2 Hn2) as (e1 & Hn1 & (_ & _ & _ & Hc1)).
    exists e1. split; [exact Hn1|].
    rewrite <- (Hc1 "page-section" eq_refl), <- (Hc2 "page-section" eq_refl). exact Hps.
  - intros [Ht (e1 & Hn1 & Hps1)].
    assert (Hs2 : In i (select_class "page-section" (document w2))).
    { rewrite (select_class_stable T_style "page-section" _ _ eq_refl H2). apply In_select_class. eauto. }
    assert (Hs3 : In i (select_class "page-section" (document w3))).
    { now rewrite (select_class_stable T_swap "page-section" _ _ eq_refl H3). }
    apply In_select_class in Hs3. destruct Hs3 as (e3 & Hn3 & Hps3).
    exists e3. repeat split; auto. now apply (Hact i e3).
Qed.

Lemma positions_from_NoDup (p : Element -> bool) (k : nat) (d : Document) :
  NoDup (positions_from k p d).
Proof.
  revert k. induction d as [|e d IH]; intro k; simpl; [constructor|].
  destruct (p e); [|apply IH]. constructor; [|apply IH].
  rewrite In_positions_from. intros (x & Hk & _). lia.
Qed.

Lemma NoDup_only (l : list ref) (t : ref) :
  NoDup l -> (forall i, In i l <-> i = t) -> l = [t].
Proof.
  intros Hnd H. destruct l as [|a l].
  - exfalso. apply (proj2 (H t) eq_refl).
  - assert (a = t) by (apply H; now left). subst a.
    destruct l as [|b l]; [reflexivity|]. exfalso.
    assert (b = t) by (apply H; right; now left). subst b.
    inversion Hnd as [|? ? Hnot _]. apply Hnot. now left.
Qed.

Lemma none_in_nil (l : list ref) : (forall i, ~ In i l) -> l = [].
Proof. destruct l as [|a l]; [reflexivity|]. intro H. exfalso. apply (H a). now left. Qed.

(** C6 (as amended).  When [switchPage(pageId)] has run to its end, at most
    one page section is active: the element that
    [getElementById(pageId === 'home' ? 'home-page' : pageId)] finds, when it
    exists and is a page section; otherwise none is. *)
Theorem switchPage_active_sections (pageId : string) (w w' : World) :
  switchPage_finish pageId w = Normal tt w' ->
  match lookup_id (if String.eqb pageId "home" then "home-page" else pageId) (document w) with
  | Some t =>
      if existsb (Nat.eqb t) (select_class "page-section" (document w))
      then active_sections (document w') = [t]
      else active_sections (document w') = []
  | None => active_sections (document w') = []
  end.
Proof.
  intro Hrun. pose proof (switchPage_finish_active pageId w w' Hrun) as H.
  destruct (lookup_id _ (document w)) as [t|].
  - destruct (existsb (Nat.eqb t) (select_class "page-section" (document w))) eqn:Ex.
    + apply NoDup_only; [apply positions_from_NoDup|].
      intro i. rewrite H. split; [intros [Ht _]; congruence|]. intros ->.
      split; [reflexivity|]. apply existsb_exists in Ex. destruct Ex as (x & Hin & Hx).
      apply Nat.eqb_eq in Hx. now subst x.
    + apply none_in_nil. intros i Hi. apply H in Hi. destruct Hi as [Ht Hin].
      injection Ht as <-.
      assert (existsb (Nat.eqb t) (select_class "page-section" (document w)) = true).
      { apply existsb_exists. exists t. split; [exact Hin | apply Nat.eqb_refl]. }
      congruence.
  - apply none_in_nil. intros i Hi. apply H in Hi. destruct Hi as [Ht _]. discriminate.
Qed.

Lemma switchPage_active_sections_witness :
  active_sections (document (settle (switchPage_finish "hive" sample_world))) = [8%nat].
Proof.
  apply (switchPage_active_sections "hive" sample_world).
  vm_compute. reflexivity.
Defined.

(** C6 as the spec states it fails: a click on a page id that no element
    carries leaves, once the switch is through, no section active. *)
Lemma switchPage_unknown_page_none_active :
  active_sections (document sample_world) = [7%nat]
  /\ List.length (active_sections (document (run sample_world (Click "missing" :: wait 500))))
     <> 1%nat.
Proof. split; vm_compute; [reflexivity | discriminate]. Qed.

(** ** The bee timer *)

Lemma NoDup_snoc (l : list nat) (x : nat) : NoDup l -> ~ In x l -> NoDup (l ++ [x])%list.
Proof.
  induction l as [|a l IH]; intros Hnd Hx; simpl.
  - constructor; [tauto | constructor].
  - inversion Hnd as [|? ? Ha Hl]; subst. constructor.
    + rewrite in_app_iff. simpl. intros [H|[H|[]]]; [tauto|]. subst. apply Hx. now left.
    + apply IH; [exact Hl|]. intro H. apply Hx. now right.
Qed.

Lemma Forall_filter_keep {A : Type} (P : A -> Prop) (q : A -> bool) (l : list A) :
  Forall P l -> Forall P (filter q l).
Proof.
  rewrite !Forall_forall. intros H x Hx. apply filter_In in Hx. now apply H.
Qed.

Lemma NoDup_map_filter {A : Type} (f : A -> nat) (q : A -> bool) (l : list A) :
  NoDup (map f l) -> NoDup (map f (filter q l)).
Proof.
  induction l as [|a l IH]; simpl; intro H; [constructor|].
  inversion H as [|? ? Ha Hl]; subst. destruct (q a); simpl; [|now apply IH].
  constructor; [|now apply IH]. intro Hin. apply Ha.
  apply in_map_iff in Hin. destruct Hin as (x & Hx & Hin). apply filter_In in Hin.
  apply in_map_iff. exists x. tauto.
Qed.

Lemma pop_due_split (t : nat) (ts : list Timer) (x : Timer) (rest : list Timer) :
  pop_due t ts = Some (x, rest) ->
  (due x <= t)%nat /\ exists l1 l2, ts = (l1 ++ x :: l2)%list /\ rest = (l1 ++ l2)%list.
Proof.
  revert x rest. induction ts as [|a ts IH]; intros x rest H; simpl in H; [discriminate|].
  destruct (Nat.leb_spec (due a) t) as [Hle|Hgt].
  - injection H as <- <-. split; [exact Hle|]. exists [], ts. auto.
  - destruct (pop_due t ts) as [[y rest']|]; [|discriminate]. injection H as <- <-.
    destruct (IH y rest' eq_refl) as (Hd & l1 & l2 & -> & ->).
    split; [exact Hd|]. exists (a :: l1), l2. auto.
Qed.

Lemma Forall_remove_middle {A : Type} (P : A -> Prop) (l1 l2 : list A) (x : A) :
  Forall P (l1 ++ x :: l2)%list -> P x /\ Forall P (l1 ++ l2)%list.
Proof.
  rewrite !Forall_app. intros [H1 H2]. inversion H2; subst. auto.
Qed.

(** [coherent] reads the timers, the next id and [teamBeeTimer] only. *)
Lemma coherent_same (w w' : World) :
  timers w' = timers w -> nextTimerId w' = nextTimerId w -> teamBeeTimer w' = teamBeeTimer w ->
  coherent w -> coherent w'.
Proof. unfold coherent. intros -> -> ->. auto. Qed.

Lemma guard_frame (okDue : nat -> Prop) (hidden : bool) (w w' : World) :
  timers w' = timers w -> nextTimerId w' = nextTimerId w -> teamBeeTimer w' = teamBeeTimer w ->
  now w' = now w -> (hidden = true -> teamBeeGroup_visible w' = false) ->
  guard okDue hidden w -> guard okDue hidden w'.
Proof.
  unfold guard. intros Ht Hn Hb Hnow Hv (Hc & Hh & Hbee & Hres).
  rewrite Ht, Hnow. split; [now apply (coherent_same w) | auto].
Qed.

Lemma guard_same (okDue : nat -> Prop) (hidden : bool) (w w' : World) :
  timers w' = timers w -> nextTimerId w' = nextTimerId w -> teamBeeTimer w' = teamBeeTimer w ->
  teamBeeGroup_visible w' = teamBeeGroup_visible w -> now w' = now w ->
  guard okDue hidden w -> guard okDue hidden w'.
Proof.
  intros Ht Hn Hb Hv Hnow Hg. apply (guard_frame okDue hidden w); auto.
  rewrite Hv. now destruct Hg as (_ & Hh & _).
Qed.

(** A timer that is not a bee timer joins the queue. *)
Lemma coherent_setTimeout (t : task) (delay : nat) (w : World) :
  t <> ShowTeamBees -> coherent w -> coherent (settle (setTimeout t delay w)).
Proof.
  intros Ht (H1 & Hnd & Hrange & Hbee). unfold coherent. cbn.
  repeat split.
  - lia.
  - rewrite map_app. apply NoDup_snoc; [exact Hnd|]. cbn.
    intro Hin. apply in_map_iff in Hin. destruct Hin as (x & Hx & Hin).
    rewrite Forall_forall in Hrange. specialize (Hrange x Hin). lia.
  - apply Forall_app. split.
    + eapply Forall_impl; [|exact Hrange]. cbn. intros a Ha. lia.
    + constructor; [cbn; lia | constructor].
  - apply Forall_app. split; [exact Hbee|]. constructor; [|constructor].
    unfold is_bee_timer. cbn. destruct t; try discriminate. congruence.
Qed.

Lemma guard_setTimeout (okDue : nat -> Prop) (hidden : bool) (t : task) (delay : nat)
      (w : World) :
  t <> ShowTeamBees ->
  (t = ResumeSwitchPage "team" -> forall n, (now w <= n)%nat -> okDue (n + 2000)%nat) ->
  guard okDue hidden w -> guard okDue hidden (settle (setTimeout t delay w)).
Proof.
  intros Ht Hteam (Hc & Hh & Hbee & Hres). split; [now apply coherent_setTimeout|].
  cbn. repeat split; auto.
  - apply Forall_app. split; [exact Hbee|]. constructor; [|constructor].
    unfold is_bee_timer. cbn. destruct t; try discriminate. congruence.
  - apply Forall_app. split; [exact Hres|]. constructor; [|constructor]. exact Hteam.
Qed.

Lemma guard_writes (T : list string) (okDue : nat -> Prop) (hidden : bool) (P : World -> Prop) :
  (forall w w', timers w' = timers w -> nextTimerId w' = nextTimerId w ->
                teamBeeTimer w' = teamBeeTimer w ->
                teamBeeGroup_visible w' = teamBeeGroup_visible w -> now w' = now w ->
                P w -> P w') ->
  writes_within T (fun w => guard okDue hidden w /\ P w).
Proof.
  intro HP. split.
  - intros w r f _ [Hg Hp].
    split; [apply (guard_same okDue hidden w) | apply (HP w)]; auto.
  - intros w b [Hg Hp].
    split; [apply (guard_same okDue hidden w) | apply (HP w)]; auto.
Qed.

(** Step 6 cancels every pending bee timer. *)
Lemma cleared_no_bees (w : World) :
  coherent w -> Forall (fun t => is_bee_timer t = false) (cleared w).
Proof.
  intros (_ & _ & Hrange & Hbee). unfold cleared.
  rewrite Forall_forall in *.
  destruct (teamBeeTimer w) as [[|k]|] eqn:Hb; intros t Hin;
    destruct (is_bee_timer t) eqn:E; try reflexivity; exfalso.
  - specialize (Hbee t Hin E). specialize (Hrange t Hin).
    injection Hbee as Hid. lia.
  - apply filter_In in Hin. destruct Hin as [Hin Hne].
    specialize (Hbee t Hin E). injection Hbee as Hid.
    rewrite <- Hid, Nat.eqb_refl in Hne. discriminate.
  - specialize (Hbee t Hin E). discriminate.
Qed.

Lemma cleared_filter (w : World) :
  exists q, cleared w = filter q (timers w).
Proof.
  unfold cleared. destruct (teamBeeTimer w) as [[|k]|].
  - exists (fun _ => true). symmetry. apply forallb_filter_id. now apply forallb_forall.
  - eexists. reflexivity.
  - exists (fun _ => true). symmetry. apply forallb_filter_id. now apply forallb_forall.
Qed.

Lemma filter_none {A : Type} (q : A -> bool) (l : list A) :
  Forall (fun x => q x = false) l -> filter q l = [].
Proof.
  induction l as [|a l IH]; intro H; [reflexivity|].
  inversion H as [|? ? Ha Hl]; subst. simpl. rewrite Ha. now apply IH.
Qed.

(** Step 6 under [guard]: towards the team page it leaves exactly one bee
    timer, due 2000 ms from now; away from it none, with the flag off. *)
Lemma team_bees_guard (okDue : nat -> Prop) (hidden : bool) (pageId : string) (w : World) :
  guard okDue hidden w ->
  (pageId = "team" -> okDue (now w + 2000)%nat) ->
  exists w', team_bees pageId w = Normal tt w'
    /\ guard okDue hidden w'
    /\ now w' = now w
    /\ document w' = document w
    /\ (if String.eqb pageId "team"
        then (exists id, bee_timers w' = [mkTimer id (now w + 2000) ShowTeamBees])
             /\ teamBeeGroup_visible w' = teamBeeGroup_visible w
        else bee_timers w' = [] /\ teamBeeGroup_visible w' = false).
Proof.
  intros (Hc & Hh & Hbee & Hres) Hteam.
  destruct (team_bees_run pageId w) as (w' & Hrun & Hdoc & _ & Hnow & Hrest).
  exists w'. split; [exact Hrun|].
  pose proof (cleared_no_bees w Hc) as Hnb.
  destruct (cleared_filter w) as (q & Hq).
  destruct Hc as (H1 & Hnd & Hrange & Hrec).
  assert (Hnd' : NoDup (map timer_id (cleared w))) by (rewrite Hq; now apply NoDup_map_filter).
  assert (Hrange' : Forall (fun t => (1 <= timer_id t < nextTimerId w)%nat) (cleared w))
    by (rewrite Hq; now apply Forall_filter_keep).
  assert (Hres' : Forall (fun t => callback t = ResumeSwitchPage "team" ->
                            forall n, (now w <= n)%nat -> okDue (n + 2000)%nat) (cleared w))
    by (rewrite Hq; now apply Forall_filter_keep).
  destruct (String.eqb_spec pageId "team") as [Hp|Hp].
  - destruct Hrest as (Ht & Hb & Hn & Hv).
    assert (Hbees : bee_timers w' = [mkTimer (nextTimerId w) (now w + 2000) ShowTeamBees]).
    { unfold bee_timers. rewrite Ht, filter_app, (filter_none _ _ Hnb). reflexivity. }
    split; [|repeat split; eauto].
    unfold guard, coherent. rewrite Ht, Hb, Hn, Hv, Hnow. repeat split; auto.
    + rewrite map_app. apply NoDup_snoc; [exact Hnd'|]. cbn. intro Hin.
      apply in_map_iff in Hin. destruct Hin as (x & Hx & Hin).
      rewrite Forall_forall in Hrange'. specialize (Hrange' x Hin). lia.
    + apply Forall_app. split.
      * eapply Forall_impl; [|exact Hrange']. cbn. intros a Ha. lia.
      * constructor; [cbn; lia | constructor].
    + apply Forall_app. split.
      * eapply Forall_impl; [|exact Hnb]. cbn. intros a Ha Hb'. congruence.
      * constructor; [reflexivity | constructor].
    + apply Forall_app. split.
      * eapply Forall_impl; [|exact Hnb]. cbn. intros a Ha Hb'. congruence.
      * constructor; [|constructor]. intros _. now apply Hteam.
    + apply Forall_app. split; [exact Hres'|]. constructor; [discriminate | constructor].
  - destruct Hrest as (Ht & Hb & Hn & Hv).
    assert (Hbees : bee_timers w' = []).
    { unfold bee_timers. rewrite Ht. now apply filter_none. }
    split; [|repeat split; auto].
    unfold guard, coherent. rewrite Ht, Hb, Hn, Hv, Hnow. repeat split; auto.
    + eapply Forall_impl; [|exact Hnb]. cbn. intros a Ha Hb'. congruence.
    + eapply Forall_impl; [|exact Hnb]. cbn. intros a Ha Hb'. congruence.
Qed.

(** Steps 2 to 6 under [guard]. *)
Lemma switchPage_finish_guard (okDue : nat -> Prop) (hidden : bool) (pageId : string)
      (w : World) :
  guard okDue hidden w ->
  (pageId = "team" -> okDue (now w + 2000)%nat) ->
  wp (switchPage_finish pageId)
     (fun _ w' =>
        guard okDue hidden w' /\ now w' = now w
        /\ (if String.eqb pageId "team"
            then (exists id, bee_timers w' = [mkTimer id (now w + 2000) ShowTeamBees])
                 /\ teamBeeGroup_visible w' = teamBeeGroup_visible w
            else bee_timers w' = [] /\ teamBeeGroup_visible w' = false))
     (fun w' => guard okDue hidden w' /\ now w' = now w) w.
Proof.
  intros Hg Hteam. unfold switchPage_finish. cbv zeta.
  set (P := fun w' : World =>
              now w' = now w /\ teamBeeGroup_visible w' = teamBeeGroup_visible w).
  apply (switchPage_prefix_spec (fun w' => guard okDue hidden w' /\ P w')).
  - apply guard_writes. unfold P. intros w1 w2 _ _ _ Hv Hn [H1 H2]. split; congruence.
  - intros w1 c p [H1 H2]. split; [|exact H2].
    apply guard_setTimeout; [discriminate | discriminate | exact H1].
  - intros w1 s _ [H1 [H2 _]] _. auto.
  - intros w1 r e [H1 [H2 _]] _ _ _. auto.
  - split; [exact Hg | split; reflexivity].
  - intros w1 [H1 [Hn Hv]].
    destruct (team_bees_guard okDue hidden pageId w1 H1) as (w2 & Hrun & Hg2 & Hn2 & _ & Hb).
    { intro Hp. rewrite Hn. now apply Hteam. }
    unfold wp. rewrite Hrun. split; [exact Hg2|]. split; [congruence|].
    rewrite Hn, Hv in Hb. exact Hb.
Qed.

(** [switchPage] up to its return to the event loop. *)
Lemma switchPage_guard (okDue : nat -> Prop) (hidden : bool) (pageId : string) (w : World) :
  guard okDue hidden w ->
  (pageId = "team" -> forall n, (now w <= n)%nat -> okDue (n + 2000)%nat) ->
  guard okDue hidden (settle (switchPage pageId w)) /\ now (settle (switchPage pageId w)) = now w.
Proof.
  intros Hg Hteam.
  apply (wp_settle (switchPage pageId) (fun w' => guard okDue hidden w' /\ now w' = now w)).
  unfold switchPage. cbv zeta. apply wp_bind, wp_gets.
  destruct (lookup_id "home-page" (document w)) as [h|].
  2:{ apply wp_bind. unfold wp. cbn. auto. }
  apply wp_bind. unfold classList_contains. apply wp_bind. apply wp_ret. apply wp_gets.
  destruct (_ && _).
  - apply wp_bind, wp_modify. apply wp_bind.
    unfold wp. cbn [setTimeout]. apply wp_ret. split; [|reflexivity].
    apply (guard_setTimeout okDue hidden (ResumeSwitchPage pageId) 500); [discriminate| |].
    + intro Hp. injection Hp as ->. now apply Hteam.
    + apply (guard_same okDue hidden w); auto.
  - eapply wp_mono; [| |apply (switchPage_finish_guard okDue hidden pageId w Hg)].
    + cbv beta. intros _ w' (H1 & H2 & _). auto.
    + auto.
    + intro Hp. apply Hteam; [exact Hp | lia].
Qed.

(** A timer callback. *)
Lemma run_task_guard (okDue : nat -> Prop) (hidden : bool) (t : task) (w : World) :
  guard okDue hidden w ->
  (t = ShowTeamBees -> hidden = false) ->
  (t = ResumeSwitchPage "team" -> okDue (now w + 2000)%nat) ->
  guard okDue hidden (settle (run_task t w)) /\ now (settle (run_task t w)) = now w.
Proof.
  intros Hg Hbee Hteam. destruct t as [pageId|canvas pageId|].
  - apply (wp_settle (run_task (ResumeSwitchPage pageId))
             (fun w' => guard okDue hidden w' /\ now w' = now w)).
    eapply wp_mono; [| |apply (switchPage_finish_guard okDue hidden pageId w Hg)].
    + cbv beta. intros _ w' (H1 & H2 & _). auto.
    + auto.
    + intros ->. now apply Hteam.
  - unfold run_task, style_opacity_set, bind, deref, ret, throw, modify_element, modify.
    destruct (String.eqb pageId "team"); destruct canvas; cbn;
      (split; [|reflexivity]); try exact Hg; apply (guard_same okDue hidden w); auto.
  - specialize (Hbee eq_refl). subst hidden.
    unfold run_task, getElementById, classList_contains, read_element, style_opacity_set,
      bind, gets, deref, ret, throw, modify_element, modify.
    destruct (lookup_id "team" (document w)) as [tm|]; cbn -[lookup_id]; [|auto].
    destruct (match nth_error (document w) tm with
              | Some e => has_class "active" e
              | None => false
              end); cbn -[lookup_id]; [|auto].
    destruct (lookup_id "canvas-container" (document w)); cbn;
      (split; [|reflexivity]); apply (guard_frame okDue false w); auto; discriminate.
Qed.

Lemma run_due_guard (okDue : nat -> Prop) (hidden : bool) (fuel : nat) (w : World) :
  guard okDue hidden w ->
  (hidden = true -> forall d, okDue d -> (now w < d)%nat) ->
  guard okDue hidden (run_due fuel w) /\ now (run_due fuel w) = now w.
Proof.
  revert w. induction fuel as [|fuel IH]; intros w Hg Hnot; simpl; [auto|].
  destruct (pop_due (now w) (timers w)) as [[t rest]|] eqn:Hpop; [|auto].
  destruct (pop_due_split _ _ _ _ Hpop) as (Hdue & l1 & l2 & Hts & ->).
  destruct Hg as ((H1 & Hnd & Hrange & Hrec) & Hh & Hbee & Hres).
  rewrite Hts in Hnd, Hrange, Hrec, Hbee, Hres.
  apply Forall_remove_middle in Hrange, Hrec, Hbee, Hres.
  assert (Hg1 : guard okDue hidden (set_timers (l1 ++ l2)%list w)).
  { unfold guard, coherent. cbn. repeat split; try tauto.
    rewrite map_app in *. cbn in Hnd. now apply NoDup_remove_1 in Hnd. }
  destruct (run_task_guard okDue hidden (callback t) (set_timers (l1 ++ l2)%list w) Hg1)
    as [Hg2 Hn2].
  - intro Hc. destruct hidden; [|reflexivity]. exfalso.
    assert (Hb : is_bee_timer t = true) by (unfold is_bee_timer; now rewrite Hc).
    pose proof (Hnot eq_refl (due t) (proj1 Hbee Hb)). lia.
  - intro Hc. cbn. apply (proj1 Hres Hc). lia.
  - destruct (IH _ Hg2) as [Hg3 Hn3].
    + intros Hh' d Hd. rewrite Hn2. cbn. now apply Hnot.
    + split; [exact Hg3|]. rewrite Hn3, Hn2. reflexivity.
Qed.

Lemma tick_guard (okDue : nat -> Prop) (hidden : bool) (w : World) :
  guard okDue hidden w ->
  (hidden = true -> forall d, okDue d -> (S (now w) < d)%nat) ->
  guard okDue hidden (tick w) /\ now (tick w) = S (now w).
Proof.
  intros Hg Hnot. unfold tick. cbv zeta.
  apply (run_due_guard okDue hidden _ (set_now (S (now w)) w)); [|exact Hnot].
  destruct Hg as (Hc & Hh & Hbee & Hres).
  split; [exact Hc | split; [exact Hh | split; [exact Hbee|]]]. cbn.
  eapply Forall_impl; [|exact Hres]. cbn. intros t Ht Hcb n Hn. apply Ht; [exact Hcb | lia].
Qed.

Lemma step_guard (okDue : nat -> Prop) (hidden : bool) (w : World) (e : event) :
  guard okDue hidden w ->
  (hidden = true -> forall d, okDue d -> (now w + elapsed e < d)%nat) ->
  (is_team_click e = true -> forall n, (now w <= n)%nat -> okDue (n + 2000)%nat) ->
  guard okDue hidden (step w e) /\ now (step w e) = (now w + elapsed e)%nat.
Proof.
  intros Hg Hnot Hclick. destruct e as [pageId| |]; cbn [step elapsed].
  - rewrite Nat.add_0_r. apply switchPage_guard; [exact Hg|].
    intros ->. now apply Hclick.
  - rewrite Nat.add_1_r. apply tick_guard; [exact Hg|].
    intros Hh d Hd. specialize (Hnot Hh d Hd). cbn in Hnot. lia.
  - rewrite Nat.add_0_r. split; [|reflexivity].
    apply (guard_same okDue hidden w); auto.
Qed.

Lemma ticks_cons (e : event) (es : list event) : ticks (e :: es) = (elapsed e + ticks es)%nat.
Proof. unfold ticks. destruct e; reflexivity. Qed.

(** While a bee timer cannot be due before [T], and [T] has not come. *)
Lemma run_guard_until (T : nat) (es : list event) (w : World) :
  guard (fun d => (T <= d)%nat) true w ->
  (T <= now w + 2000)%nat -> (now w + ticks es < T)%nat ->
  guard (fun d => (T <= d)%nat) true (run w es).
Proof.
  revert w. induction es as [|e es IH]; intros w Hg HT Hlt; [exact Hg|].
  rewrite ticks_cons in Hlt. cbn [run fold_left].
  destruct (step_guard _ true w e Hg) as [Hg' Hn'].
  - intros _ d Hd. lia.
  - intros _ n Hn. lia.
  - apply IH; [exact Hg' | lia | lia].
Qed.

(** While no bee timer is pending and the team page is not entered. *)
Lemma run_guard_quiet (es : list event) (w : World) :
  guard (fun _ => False) true w ->
  forallb (fun e => negb (is_team_click e)) es = true ->
  guard (fun _ => False) true (run w es).
Proof.
  revert w. induction es as [|e es IH]; intros w Hg Hes; [exact Hg|].
  cbn in Hes. apply andb_true_iff in Hes. destruct Hes as [He Hes].
  cbn [run fold_left].
  destruct (step_guard _ true w e Hg) as [Hg' _].
  - intros _ d [].
  - intro Hc. rewrite Hc in He. discriminate.
  - now apply IH.
Qed.

Lemma coherent_guard (w : World) : coherent w <-> guard (fun _ => True) false w.
Proof.
  split.
  - intro Hc. repeat split; try apply Hc; try discriminate;
      apply Forall_forall; intros; exact I.
  - intros (Hc & _). exact Hc.
Qed.

(** The timers stay coherent whatever happens. *)
Lemma coherent_run (es : list event) (w : World) : coherent w -> coherent (run w es).
Proof.
  rewrite !coherent_guard. revert w.
  induction es as [|e es IH]; intros w Hg; [exact Hg|].
  cbn [run fold_left]. apply IH. apply step_guard; [exact Hg | discriminate | auto].
Qed.

Lemma coherent_initial (d : Document) (key : option string) : coherent (initial_world d key).
Proof. repeat split; cbn; try constructor. Qed.

Lemma bee_timers_nil (w : World) :
  bee_timers w = [] <-> Forall (fun t => is_bee_timer t = true -> False) (timers w).
Proof.
  unfold bee_timers. rewrite Forall_forall. split.
  - intros H t Hin Hb. assert (Hf : In t (filter is_bee_timer (timers w)))
      by (apply filter_In; auto). now rewrite H in Hf.
  - intro H. apply filter_none. apply Forall_forall. intros t Hin.
    destruct (is_bee_timer t) eqn:E; [exfalso; eauto | reflexivity].
Qed.

(** C8.  The team page is entered in [w0], which leaves exactly one delayed
    activation pending whatever was pending before; time goes by, with any
    clicks and frames; the page is left by a [switchPage] to another page.
    If the bees were hidden in [w0] and fewer than 2000 ms went by, the flag
    has stayed off all along.  Whether it was on or off when the page is
    left - the bees may long have come on - leaving turns it off and leaves
    no activation pending, and it stays off for as long as the team page is
    not entered again. *)
Theorem team_bees_cancelled_on_leave (w0 w1 w3 : World) (es1 es2 : list event)
        (pageId : string) :
  coherent w0 ->
  switchPage_finish "team" w0 = Normal tt w1 ->
  pageId <> "team" ->
  switchPage_finish pageId (run w1 es1) = Normal tt w3 ->
  no_team_switch_pending w3 ->
  forallb (fun e => negb (is_team_click e)) es2 = true ->
  (exists id, bee_timers w1 = [mkTimer id (now w0 + 2000) ShowTeamBees])
  /\ (teamBeeGroup_visible w0 = false -> (ticks es1 < 2000)%nat ->
      teamBeeGroup_visible (run w1 es1) = false)
  /\ teamBeeGroup_visible w3 = false
  /\ bee_timers w3 = []
  /\ teamBeeGroup_visible (run w3 es2) = false.
Proof.
  intros Hc Henter Hp Hleave Hpend Hes2.
  set (T := (now w0 + 2000)%nat).
  (* entering *)
  pose proof (switchPage_finish_guard (fun _ => True) false "team" w0
                (proj1 (coherent_guard w0) Hc) (fun _ => I)) as Hwp.
  apply (fun H => wp_normal _ _ _ _ _ _ H Henter) in Hwp.
  destruct Hwp as (Hg1 & Hn1 & [(id & Hbees) Hv1]).
  (* leaving, whatever the flag is by then *)
  assert (Hc2 : coherent (run w1 es1)) by (apply coherent_run; apply Hg1).
  pose proof (switchPage_finish_guard (fun _ => True) false pageId (run w1 es1)
                (proj1 (coherent_guard _) Hc2) (fun _ => I)) as Hwp3.
  apply (fun H => wp_normal _ _ _ _ _ _ H Hleave) in Hwp3.
  destruct (String.eqb_spec pageId "team") as [|_]; [contradiction|].
  destruct Hwp3 as (Hg3 & _ & Hb3 & Hv3).
  assert (Hquiet : guard (fun _ => False) true w3).
  { destruct Hg3 as (Hc3 & _ & _ & _). split; [exact Hc3|].
    split; [intros _; exact Hv3|]. split.
    - now apply bee_timers_nil.
    - eapply Forall_impl; [|exact Hpend]. cbn. intros t Ht Hcb. contradiction. }
  pose proof (run_guard_quiet es2 w3 Hquiet Hes2) as (_ & Hv4 & _).
  split; [eauto|]. split; [|split; [exact Hv3 | split; [exact Hb3 | now apply Hv4]]].
  (* before the delay has elapsed *)
  intros Hv Hticks.
  assert (Hheld : guard (fun d => (T <= d)%nat) true w1).
  { destruct Hg1 as (Hc1 & _ & _ & _). split; [exact Hc1|].
    split; [intros _; congruence|]. split; apply Forall_forall; intros t Hin.
    - intro Hb. assert (Hf : In t (bee_timers w1)) by (apply filter_In; auto).
      rewrite Hbees in Hf. destruct Hf as [<-|[]]. cbn. lia.
    - intros _ n Hn. unfold T. lia. }
  pose proof (run_guard_until T es1 w1 Hheld) as Hg2.
  specialize (Hg2 ltac:(unfold T; lia) ltac:(unfold T; lia)).
  now apply Hg2.
Qed.

(** Left after one second, the flag never came on; left after two and a
    half, the bees had come on and leaving takes them off. *)
Lemma team_bees_cancelled_on_leave_witness :
  let w1 := settle (switchPage_finish "team" sample_world) in
  let early := settle (switchPage_finish "home" (run w1 (wait 1000))) in
  let late := settle (switchPage_finish "home" (run w1 (wait 2500))) in
  (teamBeeGroup_visible (run w1 (wait 1000)) = false
   /\ teamBeeGroup_visible (run early (wait 3000 ++ Click "hive" :: wait 3000)) = false)
  /\ (teamBeeGroup_visible (run w1 (wait 2500)) = true
      /\ teamBeeGroup_visible late = false
      /\ bee_timers late = []).
Proof.
  intros w1 early late. split.
  - destruct (team_bees_cancelled_on_leave sample_world w1 early (wait 1000)
                (wait 3000 ++ Click "hive" :: wait 3000) "home")
      as (_ & Hbefore & _ & _ & Hafter).
    + apply coherent_initial.
    + vm_compute. reflexivity.
    + discriminate.
    + vm_compute. reflexivity.
    + unfold no_team_switch_pending. vm_compute. repeat constructor; discriminate.
    + vm_compute. reflexivity.
    + split; [|exact Hafter]. apply Hbefore; [reflexivity|].
      apply Nat.ltb_lt. vm_compute. reflexivity.
  - destruct (team_bees_cancelled_on_leave sample_world w1 late (wait 2500) [] "home")
      as (_ & _ & Hoff & Hnone & _).
    + apply coherent_initial.
    + vm_compute. reflexivity.
    + discriminate.
    + vm_compute. reflexivity.
    + unfold no_team_switch_pending. vm_compute. repeat constructor; discriminate.
    + reflexivity.
    + split; [vm_compute; reflexivity|]. split; [exact Hoff | exact Hnone].
Defined.

(** Left alone on the team page, the bees do come on when the 2000 ms are
    over, and not a millisecond before. *)
Lemma team_bees_shown_after_delay :
  teamBeeGroup_visible (run sample_world (Click "team" :: wait 2499)) = false
  /\ teamBeeGroup_visible (run sample_world (Click "team" :: wait 2500)) = true.
Proof. split; vm_compute; reflexivity. Qed.

(** ** The event loop runs every timer that is due

    [run_due] is given as much fuel as there are timers pending; no callback
    arms a timer that is due at once, so that is enough: after a tick no
    pending timer is due. *)

Lemma filter_length_le {A : Type} (q : A -> bool) (l : list A) :
  (List.length (filter q l) <= List.length l)%nat.
Proof. induction l as [|a l IH]; simpl; [lia|]. destruct (q a); simpl; lia. Qed.

Lemma filter_filter_length {A : Type} (p q : A -> bool) (l : list A) :
  (List.length (filter p (filter q l)) <= List.length (filter p l))%nat.
Proof.
  induction l as [|a l IH]; simpl; [lia|].
  destruct (q a); simpl; destruct (p a); simpl; lia.
Qed.

Lemma due_count_same (w w' : World) :
  timers w' = timers w -> now w' = now w -> due_count w' = due_count w.
Proof. unfold due_count. now intros -> ->. Qed.

Lemma due_count_setTimeout (t : task) (delay : nat) (w : World) :
  (0 < delay)%nat -> due_count (settle (setTimeout t delay w)) = due_count w.
Proof.
  intro Hd. unfold due_count. cbn. rewrite filter_app, length_app. cbn.
  destruct (Nat.leb_spec (now w + delay) (now w)); [lia|]. cbn. lia.
Qed.

Lemma pop_due_none (t : nat) (ts : list Timer) :
  filter (fun x => (due x <=? t)%nat) ts = [] -> pop_due t ts = None.
Proof.
  induction ts as [|a ts IH]; simpl; [reflexivity|].
  destruct (due a <=? t)%nat; [discriminate|]. intro H. now rewrite IH.
Qed.

Lemma due_count_pop (w : World) (t : Timer) (rest : list Timer) :
  pop_due (now w) (timers w) = Some (t, rest) ->
  S (due_count (set_timers rest w)) = due_count w.
Proof.
  intro H. destruct (pop_due_split _ _ _ _ H) as (Hd & l1 & l2 & Hts & ->).
  unfold due_count. cbn. rewrite Hts, !filter_app, !length_app. cbn.
  apply Nat.leb_le in Hd. rewrite Hd. cbn. lia.
Qed.

(** A callback leaves the clock alone and does not add to the timers that
    are due. *)
Lemma run_task_due_count (t : task) (w : World) :
  (due_count (settle (run_task t w)) <= due_count w)%nat
  /\ now (settle (run_task t w)) = now w.
Proof.
  set (I := fun w' : World => (due_count w' <= due_count w)%nat /\ now w' = now w).
  assert (HI : forall w1 w2, timers w2 = timers w1 -> now w2 = now w1 -> I w1 -> I w2).
  { intros w1 w2 Ht Hn [H1 H2]. split; [|congruence].
    now rewrite (due_count_same w1 w2 Ht Hn). }
  assert (H0 : I w) by (split; [lia | reflexivity]).
  destruct t as [pageId|canvas pageId|].
  - apply (wp_settle (run_task (ResumeSwitchPage pageId)) I).
    unfold run_task, switchPage_finish. cbv zeta.
    apply (switchPage_prefix_spec I I); auto.
    + split; intros; eapply HI; eauto.
    + intros w1 c p [H1 H2]. split; [|exact H2].
      rewrite due_count_setTimeout; [exact H1 | lia].
    + intros w1 s _ H1 _. exact H1.
    + intros w1 r e H1 _ _ _. exact H1.
    + intros w1 [H1 H2].
      destruct (team_bees_run pageId w1) as (w2 & Hrun & _ & _ & Hn & Hrest).
      unfold wp. rewrite Hrun. split; [|congruence].
      destruct (cleared_filter w1) as (q & Hq).
      assert (Hc : (List.length (filter (fun x => (due x <=? now w1)%nat) (cleared w1))
                    <= due_count w1)%nat).
      { rewrite Hq. apply filter_filter_length. }
      unfold due_count at 1. rewrite Hn.
      destruct (String.eqb pageId "team").
      * destruct Hrest as (-> & _). rewrite filter_app, length_app. cbn.
        destruct (Nat.leb_spec (now w1 + 2000) (now w1)); [lia|]. cbn. lia.
      * destruct Hrest as (-> & _). lia.
  - unfold run_task, style_opacity_set, bind, deref, ret, throw, modify_element, modify.
    destruct (String.eqb pageId "team"); destruct canvas; cbn; apply (HI w); auto.
  - unfold run_task, getElementById, classList_contains, read_element, style_opacity_set,
      bind, gets, deref, ret, throw, modify_element, modify.
    destruct (lookup_id "team" (document w)) as [tm|]; cbn -[lookup_id]; [|exact H0].
    destruct (match nth_error (document w) tm with
              | Some e => has_class "active" e
              | None => false
              end); cbn -[lookup_id]; [|exact H0].
    destruct (lookup_id "canvas-container" (document w)); cbn; apply (HI w); auto.
Qed.

Lemma run_due_complete (fuel : nat) (w : World) :
  (due_count w <= fuel)%nat ->
  pop_due (now (run_due fuel w)) (timers (run_due fuel w)) = None.
Proof.
  revert w. induction fuel as [|fuel IH]; intros w Hf; simpl.
  - apply pop_due_none. apply length_zero_iff_nil. unfold due_count in Hf. lia.
  - destruct (pop_due (now w) (timers w)) as [[t rest]|] eqn:Hpop; [|exact Hpop].
    apply IH. pose proof (due_count_pop w t rest Hpop).
    destruct (run_task_due_count (callback t) (set_timers rest w)). lia.
Qed.

Lemma tick_runs_all_due (w : World) :
  pop_due (now (tick w)) (timers (tick w)) = None.
Proof.
  unfold tick. cbv zeta. apply run_due_complete. unfold due_count.
  apply filter_length_le.
Qed.

(** [switchPage] either parks the rest of itself behind the 500 ms timer
    (leaving home) or runs steps 2 to 6 at once; the parked rest is those
    same steps. *)
Lemma switchPage_cases (pageId : string) (w : World) (h : ref) :
  lookup_id "home-page" (document w) = Some h ->
  switchPage pageId w = switchPage_finish pageId w
  \/ (pageId <> "home"
      /\ exists w', switchPage pageId w = Normal tt w'
           /\ document w' = document w
           /\ target (bookState w') = 0.0
           /\ timers w' = (timers w ++ [mkTimer (nextTimerId w) (now w + 500)
                                          (ResumeSwitchPage pageId)])%list
           /\ run_task (ResumeSwitchPage pageId) = switchPage_finish pageId).
Proof.
  intro Hh.
  assert (Hg : getElementById "home-page" w = Normal (Some h) w)
    by (unfold getElementById, gets; now rewrite Hh).
  assert (Hs : switchPage pageId w
               = (if match nth_error (document w) h with
                     | Some e => has_class "active" e
                     | None => false
                     end && negb (String.eqb pageId "home")
                  then set_target 0.0 ;;;
                       _ <- setTimeout (ResumeSwitchPage pageId) 500 ;; ret tt
                  else switchPage_finish pageId) w).
  { unfold switchPage. cbv zeta. unfold bind at 1. rewrite Hg. cbv beta iota.
    unfold bind at 1. unfold classList_contains, read_element, deref, gets, ret.
    unfold bind at 1. reflexivity. }
  rewrite Hs. clear Hs Hg.
  destruct (String.eqb_spec pageId "home") as [->|Hne].
  - left. now rewrite andb_false_r.
  - destruct (match nth_error (document w) h with
              | Some e => has_class "active" e
              | None => false
              end); cbn [andb negb]; [|now left].
    right. split; [exact Hne|]. eexists. split; [reflexivity|]. cbn. auto.
Qed.

(** ** A page id that no element carries *)

Lemma lookup_id_update (T : list string) (s : string) (r : ref) (f : Element -> Element)
      (d : Document) :
  tame T f -> lookup_id s (update r f d) = lookup_id s d.
Proof.
  intro Hf. apply (lookup_id_stable T). apply Forall2_update; [|apply Forall2_stable_refl].
  intros e0 e He. eapply stable_except_trans; [exact He | apply Hf].
Qed.

Lemma update_ext_at (r : ref) (f g : Element -> Element) (d : Document) (e : Element) :
  nth_error d r = Some e -> f e = g e -> update r f d = update r g d.
Proof.
  revert r. induction d as [|a d IH]; intros [|r] Hn Hfg; simpl in *; try discriminate.
  - injection Hn as ->. now rewrite Hfg.
  - f_equal. now apply IH.
Qed.

Lemma update_id_at (r : ref) (g : Element -> Element) (d : Document) (e : Element) :
  nth_error d r = Some e -> g e = e -> update r g d = d.
Proof.
  revert r. induction d as [|a d IH]; intros [|r] Hn Hg; simpl in *; try discriminate.
  - injection Hn as ->. now rewrite Hg.
  - f_equal. now apply IH.
Qed.

(** A loop whose body rewrites the visited element, provided the element
    passes [ok], which the rewriting keeps. *)
Lemma forEach_updates_when (ok : Element -> bool) (g : Element -> Element)
      (f : ref -> M unit) (rs : list ref) (w : World) :
  (forall e, ok (g e) = ok e) ->
  (forall r w' e, nth_error (document w') r = Some e -> ok e = true ->
                  f r w' = Normal tt (set_document (update r g (document w')) w')) ->
  (forall r, In r rs -> exists e, nth_error (document w) r = Some e /\ ok e = true) ->
  forEach rs f w
  = Normal tt (set_document (fold_left (fun acc r => update r g acc) rs (document w)) w).
Proof.
  intros Hok Hf. revert w. induction rs as [|r rs IH]; intros w Hrs; simpl.
  - unfold ret. now rewrite set_document_same.
  - destruct (Hrs r (or_introl eq_refl)) as (e & Hn & He).
    unfold bind. rewrite (Hf r w e Hn He). rewrite IH; [reflexivity|].
    intros r' Hin. cbn [document set_document]. rewrite nth_error_update.
    destruct (Hrs r' (or_intror Hin)) as (e' & Hn' & He').
    rewrite Hn'. destruct (r' =? r)%nat; cbn; [|eauto].
    exists (g e'). now rewrite Hok.
Qed.

Lemma mark_link_tame (pageId : string) : tame T_links (mark_link pageId).
Proof.
  intro e. unfold mark_link. destruct (el_onclick e) as [text|];
    [|apply stable_except_refl].
  destruct (includes text pageId); [|apply stable_except_refl].
  apply tame_el_add. tokens.
Qed.

(** Step 5 on a page whose links all have an onclick: it does not throw,
    and afterwards a link is highlighted exactly when its onclick text
    contains the page id. *)
Lemma update_nav_links_exact (pageId : string) (w : World) :
  Forall (fun e => has_class "nav-link" e = true -> el_onclick e <> None) (document w) ->
  exists w', update_nav_links pageId w = Normal tt w'
    /\ Forall2 (stable_except T_links) (document w) (document w')
    /\ teamBeeGroup_visible w' = teamBeeGroup_visible w
    /\ forall r e, nth_error (document w') r = Some e -> has_class "nav-link" e = true ->
         (has_class highlight e = true <->
          exists text, el_onclick e = Some text /\ includes text pageId = true).
Proof.
  intro Hwf. unfold update_nav_links, bind, querySelectorAll, gets.
  rewrite (forEach_updates (el_remove [highlight])).
  2:{ intros r w'. reflexivity. }
  rewrite fold_update_select.
  set (d1 := map (fun e => if has_class "nav-link" e then el_remove [highlight] e else e)
                 (document w)).
  cbn [document set_document].
  assert (Hst1 : Forall2 (stable_except T_links) (document w) d1).
  { apply Forall2_map_r. intro e. destruct (has_class "nav-link" e);
      [apply tame_el_remove; tokens | apply stable_except_refl]. }
  assert (Hd1 : forall r e, nth_error d1 r = Some e -> has_class "nav-link" e = true ->
                  has_class highlight e = false /\ has_onclick e = true).
  { intros r e Hn Hc. unfold d1 in Hn. rewrite nth_error_map in Hn.
    destruct (nth_error (document w) r) as [e0|] eqn:E0; [|discriminate].
    injection Hn as <-. rewrite Forall_forall in Hwf.
    specialize (Hwf e0 (nth_error_In _ _ E0)).
    destruct (has_class "nav-link" e0) eqn:Ec; [|congruence]. split.
    - rewrite has_class_el_remove. destruct (has_class highlight e0); reflexivity.
    - unfold has_onclick. cbn. destruct (el_onclick e0); [reflexivity | now elim Hwf]. }
  rewrite (forEach_updates_when has_onclick (mark_link pageId)).
  - rewrite fold_update_select. cbn [document set_document].
    eexists. split; [reflexivity|]. cbn [document set_document teamBeeGroup_visible].
    split; [|split; [reflexivity|]].
    + eapply Forall2_stable_trans; [exact Hst1|]. apply Forall2_map_r. intro e.
      destruct (has_class "nav-link" e); [apply mark_link_tame | apply stable_except_refl].
    + intros r e Hn Hc. rewrite nth_error_map in Hn.
      destruct (nth_error d1 r) as [e1|] eqn:E1; [|discriminate]. injection Hn as <-.
      destruct (has_class "nav-link" e1) eqn:Ec1.
      * destruct (Hd1 r e1 E1 Ec1) as [Hh Ho]. unfold mark_link in *.
        unfold has_onclick in Ho. destruct (el_onclick e1) as [text|] eqn:Et; [|discriminate].
        destruct (includes text pageId) eqn:Ei.
        -- rewrite has_class_el_add. cbn [el_onclick el_add set_classList].
           rewrite Et. split; [eauto|]. intros _. rewrite contains_singleton.
           rewrite String.eqb_refl. apply orb_true_r.
        -- rewrite Hh, Et. split; [discriminate|]. intros (t & Ht & Hi). congruence.
      * congruence.
  - intro e. unfold mark_link, has_onclick. destruct (el_onclick e) as [text|] eqn:Et;
      [|now rewrite Et]. destruct (includes text pageId); cbn; now rewrite Et.
  - intros r w' e Hn Ho. unfold bind, getAttribute_onclick, read_element, gets.
    rewrite Hn. unfold has_onclick in Ho. destruct (el_onclick e) as [text|] eqn:Et;
      [|discriminate].
    destruct (includes text pageId) eqn:Ei.
    + unfold classList_add, bind, deref, ret, modify_element, modify.
      f_equal. f_equal. apply (update_ext_at _ _ _ _ e Hn).
      unfold mark_link. now rewrite Et, Ei.
    + unfold ret. f_equal. rewrite (update_id_at _ _ _ e Hn).
      * now rewrite set_document_same.
      * unfold mark_link. now rewrite Et, Ei.
  - intros r Hin. cbn [document set_document] in *. apply In_select_class in Hin.
    destruct Hin as (e & Hn & Hc). exists e. split; [exact Hn|]. now apply (Hd1 r e).
Qed.

(** Step 4 for a page other than home, on a page that has the header and
    the nav container: the header ends up with the solid style and without
    its padding class. *)
Lemma style_non_home_exact (pageId : string) (w : World) (h n : ref) :
  lookup_id "main-header" (document w) = Some h ->
  lookup_id "nav-container" (document w) = Some n ->
  exists w', style_non_home false pageId w = Normal tt w'
    /\ Forall2 (stable_except T_style) (document w) (document w')
    /\ teamBeeGroup_visible w' = teamBeeGroup_visible w
    /\ exists e, nth_error (document w') h = Some e
         /\ forallb (fun c => has_class c e) header_solid = true
         /\ has_class "py-6" e = false.
Proof.
  intros Hh Hn.
  assert (Ha : tame T_style (el_add header_solid)) by (apply tame_el_add; tokens).
  assert (Hr : tame T_style (el_remove ["py-6"])) by (apply tame_el_remove; tokens).
  assert (Hp : tame T_style (el_remove nav_pill)) by (apply tame_el_remove; tokens).
  unfold style_non_home. cbn [negb].
  unfold getElementById, gets, setTimeout, classList_add, classList_remove,
    deref, ret, modify_element, modify, bind.
  cbn [document set_document set_nextTimerId set_timers]. rewrite Hh.
  cbn [document set_document set_nextTimerId set_timers].
  rewrite !(lookup_id_update T_style) by assumption. rewrite Hn.
  eexists. split; [reflexivity|].
  cbn [document set_document teamBeeGroup_visible set_nextTimerId set_timers].
  split; [|split; [reflexivity|]].
  - repeat (apply Forall2_update;
            [intros e0 e He; eapply stable_except_trans; [exact He|]; auto|]).
    apply Forall2_stable_refl.
  - destruct (lookup_id_Some _ _ _ Hh) as (eh & Heh & Hidh).
    destruct (lookup_id_Some _ _ _ Hn) as (en & Hen & Hidn).
    rewrite !nth_error_update, Nat.eqb_refl, Heh.
    destruct (Nat.eqb_spec h n) as [->|_]; [rewrite Heh in Hen; congruence|].
    eexists. split; [reflexivity|].
    cbn [forallb header_solid]. rewrite !has_class_el_remove, !has_class_el_add.
    split; cbn; rewrite ?orb_true_r, ?andb_false_r; reflexivity.
Qed.

Lemma well_formed_stable (T : list string) (d d' : Document) :
  contains T "nav-link" = false ->
  Forall2 (stable_except T) d d' -> well_formed d -> well_formed d'.
Proof.
  intros Hc H (H1 & H2 & H3 & H4 & H5). unfold well_formed.
  rewrite !(lookup_id_stable T _ _ _ H). repeat split; auto.
  clear H1 H2 H3 H4. induction H as [|e e' d d' He H IH]; [constructor|].
  inversion H5; subst. constructor; [|now apply IH].
  destruct He as (_ & Ho & _ & Hcl). rewrite Ho, (Hcl _ Hc). assumption.
Qed.

(** C7 (as amended).  On a page that has the elements the script
    dereferences, [switchPage] with a page id that no element carries does
    not fail, but it is not a no-op: once through, no page section is
    active, the header has the solid style, a navigation link is highlighted
    exactly when its onclick text contains the page id, and the bee flag is
    off (unless the id is "team"). *)
Theorem switchPage_unknown_page (pageId : string) (w : World) :
  well_formed (document w) ->
  pageId <> "home" ->
  lookup_id pageId (document w) = None ->
  (exists w1, switchPage pageId w = Normal tt w1)
  /\ exists w', switchPage_finish pageId w = Normal tt w'
       /\ active_sections (document w') = []
       /\ (forall h, lookup_id "main-header" (document w) = Some h ->
             exists e, nth_error (document w') h = Some e
               /\ forallb (fun c => has_class c e) header_solid = true
               /\ has_class "py-6" e = false)
       /\ (forall r e, nth_error (document w') r = Some e ->
             has_class "nav-link" e = true ->
             (has_class highlight e = true <->
              exists text, el_onclick e = Some text /\ includes text pageId = true))
       /\ (pageId <> "team" -> teamBeeGroup_visible w' = false).
Proof.
  intros Hwf Hhome Hnone.
  assert (Hfinish : exists w', switchPage_finish pageId w = Normal tt w'
       /\ (forall h, lookup_id "main-header" (document w) = Some h ->
             exists e, nth_error (document w') h = Some e
               /\ forallb (fun c => has_class c e) header_solid = true
               /\ has_class "py-6" e = false)
       /\ (forall r e, nth_error (document w') r = Some e ->
             has_class "nav-link" e = true ->
             (has_class highlight e = true <->
              exists text, el_onclick e = Some text /\ includes text pageId = true))
       /\ (pageId <> "team" -> teamBeeGroup_visible w' = false)).
  { unfold switchPage_finish. cbv zeta.
    destruct (String.eqb_spec pageId "home") as [|_]; [contradiction|].
    unfold bind at 1. cbn [enter_home ret].
    (* step 3 *)
    destruct (wp_total _ _ _ (swap_sections_active false pageId w))
      as ([] & w3 & Hrun3 & Hst3 & _).
    unfold bind at 1. rewrite Hrun3.
    pose proof (well_formed_stable T_swap _ _ eq_refl Hst3 Hwf) as Hwf3.
    (* step 4 *)
    destruct Hwf3 as (_ & _ & Hh3 & Hn3 & Hl3).
    destruct (lookup_id "main-header" (document w3)) as [h|] eqn:Eh; [|congruence].
    destruct (lookup_id "nav-container" (document w3)) as [n|] eqn:En; [|congruence].
    destruct (style_non_home_exact pageId w3 h n Eh En)
      as (w4 & Hrun4 & Hst4 & _ & e4 & He4 & Hsolid & Hpy).
    unfold bind at 1. rewrite Hrun4.
    (* step 5 *)
    assert (Hl4 : Forall (fun e => has_class "nav-link" e = true -> el_onclick e <> None)
                         (document w4)).
    { clear - Hst4 Hl3. induction Hst4 as [|e e' d d' He H IH]; [constructor|].
      inversion Hl3; subst. constructor; [|now apply IH].
      destruct He as (_ & Ho & _ & Hcl). rewrite Ho, (Hcl "nav-link" eq_refl). assumption. }
    destruct (update_nav_links_exact pageId w4 Hl4) as (w5 & Hrun5 & Hst5 & _ & Hlinks).
    unfold bind at 1. rewrite Hrun5.
    (* step 6 *)
    destruct (team_bees_run pageId w5) as (w6 & Hrun6 & Hdoc6 & _ & _ & Hrest).
    exists w6. split; [exact Hrun6|]. rewrite Hdoc6. split; [|split].
    - intros h' Hh'. rewrite <- (lookup_id_stable T_swap "main-header" _ _ Hst3), Eh in Hh'.
      injection Hh' as <-.
      assert (Hlen : exists e5, nth_error (document w5) h = Some e5
                                /\ stable_except T_links e4 e5).
      { clear - Hst5 He4. revert h He4.
        induction Hst5 as [|a b d d' Hab H IH]; intros [|h] He4; simpl in *;
          try discriminate.
        - injection He4 as ->. eauto.
        - now apply IH. }
      destruct Hlen as (e5 & He5 & (_ & _ & _ & Hcl)). exists e5. split; [exact He5|].
      split; [|now rewrite (Hcl "py-6" eq_refl)].
      cbn [forallb header_solid] in *.
      rewrite (Hcl "bg-black/90" eq_refl), (Hcl "backdrop-blur-md" eq_refl),
        (Hcl "shadow-2xl" eq_refl), (Hcl "border-b" eq_refl),
        (Hcl "border-white/10" eq_refl).
      exact Hsolid.
    - exact Hlinks.
    - intro Hteam. destruct (String.eqb_spec pageId "team") as [|_]; [contradiction|].
      tauto. }
  destruct Hfinish as (w' & Hrun & Hheader & Hlinks & Hbees).
  split.
  - unfold switchPage. cbv zeta. unfold bind at 1. unfold getElementById, gets.
    destruct Hwf as (Hhp & _).
    destruct (lookup_id "home-page" (document w)) as [hp|]; [|congruence].
    unfold bind at 1. unfold classList_contains, bind, deref, ret, read_element, gets.
    destruct (_ && _).
    + eexists. reflexivity.
    + exists w'. exact Hrun.
  - exists w'. split; [exact Hrun|]. split; [|auto].
    apply none_in_nil. intros i Hi.
    apply (switchPage_finish_active pageId w w' Hrun) in Hi.
    destruct (String.eqb_spec pageId "home") as [|_]; [contradiction|].
    destruct Hi as [Hi _]. congruence.
Qed.

Lemma switchPage_unknown_page_witness :
  exists w1, switchPage "missing" sample_world = Normal tt w1.
Proof.
  refine (proj1 (switchPage_unknown_page "missing" sample_world _ _ _)).
  - unfold well_formed. repeat split; try (vm_compute; discriminate).
    repeat constructor; vm_compute; discriminate.
  - discriminate.
  - vm_compute. reflexivity.
Defined.

(** C7 as the spec states it fails: on the sample page, a click on a page id
    that no element carries changes, once the switch is through, which
    sections are active, the header's classes and the highlighted link. *)
Lemma switchPage_unknown_page_not_noop :
  let w' := run sample_world (Click "missing" :: wait 500) in
  active_sections (document w') <> active_sections (document sample_world)
  /\ option_map el_classList (nth_error (document w') 1)
     <> option_map el_classList (nth_error (document sample_world) 1)
  /\ highlighted_links (document w') <> highlighted_links (document sample_world).
Proof. repeat split; vm_compute; discriminate. Qed.

(** ** Code fences *)

Lemma prefix_nil (x : string) : String.prefix "" x = true.
Proof. now destruct x. Qed.



Lemma includes_cons (c : ascii) (s pat : string) :
  includes (String c s) pat = false ->
  String.prefix pat (String c s) = false /\ includes s pat = false.
Proof. cbn [includes]. intro H. now apply orb_false_iff in H. Qed.

Lemma remove_all_clean (pat s : string) : includes s pat = false -> remove_all pat s = s.
Proof.
  unfold remove_all. induction s as [|c s IH]; intro H; [reflexivity|].
  apply includes_cons in H. destruct H as [Hp Hs].
  cbn [remove_all_from]. rewrite Hp. now rewrite IH.
Qed.


(** ** White space *)

Lemma trimStart_step (s : string) :
  trimStart s = match space_width s with
                | O => s
                | n => trimStart (drop n s)
                end.
Proof.
  destruct s as [|c1 [|c2 [|c3 r3]]]; cbn [trimStart space_width]; try reflexivity.
  - destruct (is_space c1); reflexivity.
  - destruct (is_space c1); [reflexivity|]. destruct (is_space2 c1 c2); reflexivity.
  - destruct (is_space c1); [reflexivity|]. destruct (is_space2 c1 c2); [reflexivity|].
    destruct (is_space3 c1 c2 c3); reflexivity.
Qed.

Lemma space_width_le (s : string) : (space_width s <= String.length s)%nat.
Proof.
  destruct s as [|c1 [|c2 [|c3 r3]]]; cbn [space_width String.length];
    repeat match goal with |- context [if ?b then _ else _] => destruct b end; lia.
Qed.

Lemma drop_length (n : nat) (s : string) :
  (n <= String.length s)%nat -> String.length (drop n s) = (String.length s - n)%nat.
Proof.
  revert s. induction n as [|n IH]; intros s H; [destruct s; cbn; lia|].
  destruct s as [|c s]; cbn in *; [lia|]. apply IH. lia.
Qed.

Lemma drop_app (n : nat) (a b : string) :
  (n <= String.length a)%nat -> drop n (a ++ b) = drop n a ++ b.
Proof.
  revert a. induction n as [|n IH]; intros a H; [now destruct a; destruct b|].
  destruct a as [|c a]; cbn in *; [lia|]. apply IH. lia.
Qed.

(** The character at the head of [a] is the one at the head of [a ++ b]. *)
Lemma space_width_app (a b : string) :
  space_width a <> O -> space_width (a ++ b) = space_width a.
Proof.
  destruct a as [|c1 [|c2 [|c3 r3]]]; cbn [space_width append]; try congruence.
  - destruct (is_space c1); [reflexivity | congruence].
  - destruct (is_space c1); [reflexivity|]. destruct (is_space2 c1 c2); [reflexivity | congruence].
Qed.

Lemma string_length_ind (P : string -> Prop) :
  (forall s, (forall t, (String.length t < String.length s)%nat -> P t) -> P s) ->
  forall s, P s.
Proof.
  intros H s. remember (String.length s) as n eqn:E. revert s E.
  induction n as [n IH] using lt_wf_ind. intros s ->. apply H. intros t Ht.
  exact (IH _ Ht t eq_refl).
Qed.

(** What [trimStart] leaves does not begin with white space. *)
Lemma space_width_trimStart (s : string) : space_width (trimStart s) = O.
Proof.
  induction s as [s IH] using string_length_ind. rewrite trimStart_step.
  destruct (space_width s) as [|n] eqn:E; [exact E|].
  apply IH. pose proof (space_width_le s). rewrite drop_length by lia. lia.
Qed.

Lemma trimStart_fixed (s : string) : space_width s = O -> trimStart s = s.
Proof. intro H. now rewrite trimStart_step, H. Qed.

Lemma trimStart_idempotent (s : string) : trimStart (trimStart s) = trimStart s.
Proof. apply trimStart_fixed, space_width_trimStart. Qed.

(** White space in front of [b] goes with [b]'s own. *)
Lemma trimStart_app_space (a b : string) :
  trimStart a = "" -> trimStart (a ++ b) = trimStart b.
Proof.
  induction a as [a IH] using string_length_ind. intro H.
  destruct a as [|c a']; [reflexivity|]. set (a := String c a') in *.
  rewrite trimStart_step in H. destruct (space_width a) as [|n] eqn:E; [discriminate|].
  pose proof (space_width_le a) as Hle.
  rewrite trimStart_step, space_width_app, E by congruence.
  rewrite drop_app by lia. apply IH; [|exact H].
  rewrite drop_length by lia. lia.
Qed.

Lemma trimEnd_cons (c : ascii) (s : string) :
  trimEnd (String c s)
  = match trimStart (String c s) with
    | EmptyString => EmptyString
    | _ => String c (trimEnd s)
    end.
Proof. reflexivity. Qed.

(** What [trimEnd] cuts off is white space. *)
Lemma trimEnd_split (s : string) :
  exists tail, s = trimEnd s ++ tail /\ trimStart tail = "".
Proof.
  induction s as [|c s IH]; [exists ""; auto|]. rewrite trimEnd_cons.
  destruct (trimStart (String c s)) eqn:E; [exists (String c s); auto|].
  destruct IH as (tail & Hs & Ht). exists tail. split; [|exact Ht].
  cbn [append]. congruence.
Qed.

Lemma trimEnd_nil (s : string) : trimEnd s = "" <-> trimStart s = "".
Proof.
  destruct s as [|c s]; [split; reflexivity|]. rewrite trimEnd_cons.
  destruct (trimStart (String c s)); split; congruence.
Qed.

Lemma trimEnd_idempotent (s : string) : trimEnd (trimEnd s) = trimEnd s.
Proof.
  induction s as [|c s IH]; [reflexivity|]. rewrite trimEnd_cons.
  destruct (trimStart (String c s)) eqn:E; [reflexivity|].
  rewrite trimEnd_cons, IH.
  destruct (trimStart (String c (trimEnd s))) eqn:E'; [|reflexivity].
  destruct (trimEnd_split s) as (tail & Hs & Ht).
  pose proof (trimStart_app_space (String c (trimEnd s)) tail E') as H.
  cbn [append] in H. rewrite <- Hs, Ht in H. congruence.
Qed.

Lemma space_width_trimEnd (s : string) : space_width s = O -> space_width (trimEnd s) = O.
Proof.
  intro H. destruct (space_width (trimEnd s)) eqn:E; [reflexivity|].
  destruct (trimEnd_split s) as (tail & Hs & _).
  rewrite Hs, space_width_app in H; congruence.
Qed.

Lemma trim_idempotent (s : string) : trim (trim s) = trim s.
Proof.
  unfold trim. rewrite (trimStart_fixed (trimEnd (trimStart s))).
  - apply trimEnd_idempotent.
  - apply space_width_trimEnd, space_width_trimStart.
Qed.

Lemma prefix_app_self (a b : string) : String.prefix a (a ++ b) = true.
Proof.
  induction a as [|c a IH]; [now destruct b|]. cbn. now destruct (ascii_dec c c).
Qed.

Lemma trimEnd_prefix (s : string) : String.prefix (trimEnd s) s = true.
Proof.
  destruct (trimEnd_split s) as (tail & Hs & _).
  rewrite Hs at 2. apply prefix_app_self.
Qed.

Lemma includes_drop (n : nat) (p s : string) :
  includes (drop n s) p = true -> includes s p = true.
Proof.
  revert s. induction n as [|n IH]; intros s H; [now destruct s|].
  destruct s as [|c s]; [exact H|]. cbn [drop] in H. cbn [includes].
  rewrite (IH s H). apply orb_true_r.
Qed.

Lemma includes_trimStart (p s : string) :
  includes (trimStart s) p = true -> includes s p = true.
Proof.
  induction s as [s IH] using string_length_ind. rewrite trimStart_step.
  destruct (space_width s) as [|n] eqn:E; [auto|]. intro H.
  apply (includes_drop (S n)). apply IH; [|exact H].
  pose proof (space_width_le s). rewrite drop_length by lia. lia.
Qed.





(** [trim()] takes the white space that is not ASCII too. *)
Lemma trim_unicode_space :
  trim nbsp = "" /\ trim (nbsp ++ "k" ++ ideographic_space) = "k"
  /\ trim (nbsp ++ "[1]" ++ bom) = "[1]".
Proof. repeat split; vm_compute; reflexivity. Qed.


(** ** The text-service client *)

Lemma try_catch_ret_total {A : Type} (m : M A) (f : Error -> A) (w : World) :
  exists v w', try_catch m (fun e => ret (f e)) w = Normal v w'.
Proof. unfold try_catch, ret. destruct (m w); eauto. Qed.

Lemma checkApiKey_total (env : Env) (w : World) :
  exists b w', checkApiKey env w = Normal b w'.
Proof.
  unfold checkApiKey, manageApiKey, bind, getApiKey, gets, modify, ret.
  destruct (String.eqb _ ""); [|eauto].
  destruct (confirm_answer env); [|eauto].
  destruct (prompt_answer env) as [newKey|]; [|eauto].
  destruct (String.eqb (trim newKey) ""); eauto.
Qed.

Lemma callGemini_total (env : Env) (prompt : string) (w : World) :
  exists v w', callGemini env prompt w = Normal v w'.
Proof.
  unfold callGemini. unfold bind at 1. unfold getApiKey at 1, gets at 1.
  unfold bind at 1.
  assert (H : exists b w1,
             (if String.eqb match localStorage w with Some k => k | None => "" end ""
              then checkApiKey env else ret true) w = Normal b w1).
  { destruct (String.eqb _ ""); [apply checkApiKey_total | unfold ret; eauto]. }
  destruct H as (b & w1 & ->). destruct b; cbn [negb]; [|unfold ret; eauto].
  unfold bind at 1. unfold getApiKey, gets. apply try_catch_ret_total.
Qed.

(** With a key in place, a fetch that rejects or a response that is not 2xx
    comes back as the connection-error text. *)
Lemma callGemini_failure (env : Env) (prompt : string) (w : World) (key : string) :
  localStorage w = Some key -> key <> "" ->
  match fetch_outcome env (endpoint ++ key) prompt with
  | NetworkError message =>
      exists w', callGemini env prompt w
                 = Normal (Val (JString (connection_error message))) w'
  | Response status body =>
      ok status = false ->
      exists w', callGemini env prompt w
                 = Normal (Val (JString (connection_error
                                    match body with
                                    | inl e => err_message e
                                    | inr _ => "API Error: " ++ decimal status
                                    end))) w'
  end.
Proof.
  intros Hk Hne.
  unfold callGemini, bind, getApiKey, gets, try_catch, fetch, ret, throw.
  rewrite Hk. destruct (String.eqb_spec key "") as [|_]; [contradiction|].
  cbn [negb]. rewrite Hk.
  destruct (fetch_outcome env (endpoint ++ key) prompt) as [message|status body].
  - eauto.
  - intros Hok. rewrite Hok. cbn [negb].
    destruct body as [e|j]; unfold response_json, throw, ret; eauto.
Qed.

(** Without a key, and with the offer to set one declined, no request goes
    out and the answer is the not-configured text. *)
Lemma callGemini_without_key (env : Env) (prompt : string) (w : World) :
  localStorage w = None -> confirm_answer env = false ->
  callGemini env prompt w = Normal (Val (JString no_key_message)) w.
Proof.
  intros Hk Hc. unfold callGemini, checkApiKey, bind, getApiKey, gets, ret.
  rewrite Hk. change (String.eqb "" "") with true. cbv beta iota. rewrite ?Hk.
  change (String.eqb "" "") with true. cbv beta iota. rewrite Hc. reflexivity.
Qed.

Section SpeciesFacts.

Variable JSON_parse : string -> Error + JSON.



End SpeciesFacts.


(** A reply that is not JSON ends in the inline note, not in an error. *)
Lemma generateSpeciesProfile_not_json :
  exists w', generateSpeciesProfile sample_parse (answering "Sorry, no.") sample_world
             = Normal tt w'
    /\ option_map el_innerHTML (nth_error (document w') 14)
       = Some (ParseErrorNote "Unexpected token").
Proof. eexists. split; vm_compute; reflexivity. Qed.

(** White space that is not ASCII is trimmed like any other: a reply with
    a no-break space in front of the JSON text and a byte-order mark behind
    it fills the card. *)
Lemma generateSpeciesProfile_unicode_space :
  strip_fences (nbsp ++ sample_json ++ bom) = sample_json
  /\ exists w', generateSpeciesProfile sample_parse (answering (nbsp ++ sample_json ++ bom))
                  sample_world
                = Normal tt w'
       /\ option_map el_innerHTML (nth_error (document w') 14)
          = Some (SpeciesCard Undefined (Val (JString "X")) Undefined
                    (before_paren (nth 0 categories "")) Undefined Undefined).
Proof. split; [vm_compute; reflexivity|]. eexists. split; vm_compute; reflexivity. Qed.

(** A reply whose part carries no text makes [callGemini] return
    [undefined]; line 153 then throws before the [try], and the loading
    mark stays on. *)
Lemma generateSpeciesProfile_reply_without_text :
  let env := {| confirm_answer := false; prompt_answer := None;
                fetch_outcome := fun _ _ =>
                  Response 200 (inr (JObject [("candidates",
                    JArray [JObject [("content",
                      JObject [("parts", JArray [JObject []])])]])]));
                random_category := 0; random_seed := 0 |} in
  exists e w', generateSpeciesProfile sample_parse env sample_world = Throw e w'
    /\ err_name e = "TypeError"
    /\ option_map (has_class "hidden") (nth_error (document w') 15) = Some false.
Proof. eexists. eexists. split; [|split]; vm_compute; reflexivity. Qed.

(** ** What navigation leaves alone *)

Lemma keeps_ret {A : Type} (R : World -> World -> Prop) (a : A) :
  (forall w, R w w) -> keeps R (ret a).
Proof. intros HR w. apply HR. Qed.

Lemma keeps_throw {A : Type} (R : World -> World -> Prop) (e : Error) :
  (forall w, R w w) -> keeps R (@throw A e).
Proof. intros HR w. apply HR. Qed.

Lemma keeps_gets {A : Type} (R : World -> World -> Prop) (f : World -> A) :
  (forall w, R w w) -> keeps R (gets f).
Proof. intros HR w. apply HR. Qed.

Lemma keeps_modify (R : World -> World -> Prop) (f : World -> World) :
  (forall w, R w (f w)) -> keeps R (modify f).
Proof. intros HR w. apply HR. Qed.

Lemma keeps_bind {A B : Type} (R : World -> World -> Prop) (m : M A) (k : A -> M B) :
  (forall a b c, R a b -> R b c -> R a c) ->
  keeps R m -> (forall a, keeps R (k a)) -> keeps R (bind m k).
Proof.
  intros Htr Hm Hk w. unfold bind. specialize (Hm w).
  destruct (m w) as [a w1|e w1]; cbn in *; [|exact Hm].
  apply (Htr _ _ _ Hm). apply Hk.
Qed.

Lemma keeps_forEach (R : World -> World -> Prop) (rs : list ref) (f : ref -> M unit) :
  (forall w, R w w) -> (forall a b c, R a b -> R b c -> R a c) ->
  (forall r, keeps R (f r)) -> keeps R (forEach rs f).
Proof.
  intros Hre Htr Hf. induction rs as [|r rs IH]; simpl.
  - now apply keeps_ret.
  - apply keeps_bind; auto.
Qed.

Lemma restyled_refl (e : Element) : restyled e e.
Proof. split; [apply stable_except_refl | reflexivity]. Qed.

Lemma restyled_trans (a b c : Element) : restyled a b -> restyled b c -> restyled a c.
Proof.
  intros [H1 H2] [H3 H4]. split; [eapply stable_except_trans; eauto | congruence].
Qed.

Lemma Forall2_restyled_refl (d : Document) : Forall2 restyled d d.
Proof. induction d; constructor; auto using restyled_refl. Qed.

Lemma Forall2_restyled_trans (a b c : Document) :
  Forall2 restyled a b -> Forall2 restyled b c -> Forall2 restyled a c.
Proof.
  intro H. revert c. induction H as [|x y a b Hxy H IH]; intros c Hc;
    inversion Hc; subst; constructor; eauto using restyled_trans.
Qed.

Lemma Forall2_restyled_stable (d d' : Document) :
  Forall2 restyled d d' -> Forall2 (stable_except T_all) d d'.
Proof. induction 1 as [|x y a b [Hxy _] H IH]; constructor; auto. Qed.

Lemma navigates_refl (w : World) : navigates w w.
Proof. unfold navigates. repeat split; auto using Forall2_restyled_refl. Qed.

Lemma navigates_trans (a b c : World) : navigates a b -> navigates b c -> navigates a c.
Proof.
  intros (D1 & V1 & G1 & O1 & P1 & S1 & L1 & R1) (D2 & V2 & G2 & O2 & P2 & S2 & L2 & R2).
  unfold navigates. repeat split; try congruence.
  - eapply Forall2_restyled_trans; eauto.
  - destruct G2 as [G2|G2]; [rewrite G2; exact G1 | auto].
Qed.

Lemma navigates_element (r : ref) (f : Element -> Element) (w : World) :
  tame T_all f -> (forall e, el_innerHTML (f e) = el_innerHTML e) ->
  navigates w (set_document (update r f (document w)) w).
Proof.
  intros Hf Hi. unfold navigates. cbn. repeat split; auto.
  apply Forall2_update; [|apply Forall2_restyled_refl].
  intros e0 e [H1 H2]. split.
  - eapply stable_except_trans; [exact H1 | apply Hf].
  - now rewrite Hi.
Qed.

Lemma keeps_element (r : option ref) (f : Element -> Element) :
  tame T_all f -> (forall e, el_innerHTML (f e) = el_innerHTML e) ->
  keeps navigates (x <- deref r ;; modify_element x f).
Proof.
  intros Hf Hi w. destruct r as [x|]; cbn; [|apply navigates_refl].
  now apply navigates_element.
Qed.

Lemma keeps_classList_add (r : option ref) (tokens : list string) :
  forallb (contains T_all) tokens = true -> keeps navigates (classList_add r tokens).
Proof.
  intro H. apply keeps_element; [|reflexivity].
  apply tame_el_add. now apply tokens_within.
Qed.

Lemma keeps_classList_remove (r : option ref) (tokens : list string) :
  forallb (contains T_all) tokens = true -> keeps navigates (classList_remove r tokens).
Proof.
  intro H. apply keeps_element; [|reflexivity].
  apply tame_el_remove. now apply tokens_within.
Qed.

Lemma keeps_style_opacity_set (r : option ref) (o : string) :
  keeps navigates (style_opacity_set r o).
Proof. apply keeps_element; [apply tame_set_opacity | reflexivity]. Qed.

Lemma keeps_setTimeout (t : task) (delay : nat) : keeps navigates (setTimeout t delay).
Proof. intro w. unfold navigates. cbn. repeat split; auto using Forall2_restyled_refl. Qed.

Lemma keeps_set_target (t : Q) : t = 0.0 \/ t = 1.0 -> keeps navigates (set_target t).
Proof.
  intros Ht w. unfold navigates. cbn. repeat split; auto using Forall2_restyled_refl.
Qed.

Lemma keeps_classList_contains (r : option ref) (c : string) :
  keeps navigates (classList_contains r c).
Proof. intro w. destruct r; cbn; apply navigates_refl. Qed.

(** Proves [keeps navigates m] for a statement built from the primitives. *)
Ltac keeps_nav :=
  repeat first
    [ apply keeps_classList_add; reflexivity
    | apply keeps_classList_remove; reflexivity
    | apply keeps_classList_contains
    | apply keeps_style_opacity_set
    | apply keeps_setTimeout
    | apply keeps_set_target; auto
    | apply keeps_ret; exact navigates_refl
    | apply keeps_throw; exact navigates_refl
    | apply keeps_gets; exact navigates_refl
    | apply keeps_forEach; [exact navigates_refl | exact navigates_trans | intro]
    | match goal with
      | |- keeps _ (match ?x with _ => _ end) => destruct x
      end
    | apply keeps_bind; [exact navigates_trans | | intro] ].

Lemma keeps_enter_home (isHome : bool) : keeps navigates (enter_home isHome).
Proof. unfold enter_home, getElementById. keeps_nav. Qed.

Lemma keeps_swap_sections (isHome : bool) (pageId : string) :
  keeps navigates (swap_sections isHome pageId).
Proof.
  unfold swap_sections, getElementById, querySelectorAll, querySelector_div, read_element.
  keeps_nav.
Qed.

Lemma keeps_style_non_home (isHome : bool) (pageId : string) :
  keeps navigates (style_non_home isHome pageId).
Proof. unfold style_non_home, getElementById. keeps_nav. Qed.

Lemma keeps_update_nav_links (pageId : string) : keeps navigates (update_nav_links pageId).
Proof.
  unfold update_nav_links, querySelectorAll, getAttribute_onclick, read_element. keeps_nav.
Qed.

Lemma keeps_team_bees (pageId : string) : keeps navigates (team_bees pageId).
Proof.
  unfold team_bees, clearTimeout. keeps_nav;
    apply keeps_modify; intro w; unfold navigates; cbn;
    repeat split; auto using Forall2_restyled_refl.
Qed.

Lemma keeps_switchPage_finish (pageId : string) : keeps navigates (switchPage_finish pageId).
Proof.
  unfold switchPage_finish. cbv zeta.
  apply keeps_bind; [exact navigates_trans | apply keeps_enter_home | intros _].
  apply keeps_bind; [exact navigates_trans | apply keeps_swap_sections | intros _].
  apply keeps_bind; [exact navigates_trans | apply keeps_style_non_home | intros _].
  apply keeps_bind; [exact navigates_trans | apply keeps_update_nav_links | intros _].
  apply keeps_team_bees.
Qed.

Lemma keeps_switchPage (pageId : string) : keeps navigates (switchPage pageId).
Proof.
  unfold switchPage. cbv zeta. unfold getElementById.
  apply keeps_bind; [exact navigates_trans | keeps_nav | intro home].
  apply keeps_bind; [exact navigates_trans | keeps_nav | intro currentIsHome].
  destruct (currentIsHome && _); [keeps_nav | apply keeps_switchPage_finish].
Qed.

Lemma keeps_run_task (t : task) : keeps navigates (run_task t).
Proof.
  destruct t as [pageId|canvas pageId|]; cbn [run_task].
  - apply keeps_switchPage_finish.
  - destruct (String.eqb pageId "team"); keeps_nav.
  - unfold getElementById. keeps_nav.
    apply keeps_modify; intro w; unfold navigates; cbn;
      repeat split; auto using Forall2_restyled_refl.
Qed.

Lemma navigates_run_due (fuel : nat) (w : World) : navigates w (run_due fuel w).
Proof.
  revert w. induction fuel as [|fuel IH]; intro w; simpl; [apply navigates_refl|].
  destruct (pop_due (now w) (timers w)) as [[t rest]|]; [|apply navigates_refl].
  eapply navigates_trans; [|apply IH].
  eapply navigates_trans; [|apply keeps_run_task].
  unfold navigates. cbn. repeat split; auto using Forall2_restyled_refl.
Qed.

(** Clicks and timers navigate; a frame leaves the page, the target, the
    stored key and the requests alone. *)
Lemma navigates_step (w : World) (e : event) :
  e <> Frame -> navigates w (step w e).
Proof.
  destruct e as [pageId| |]; intro He; cbn [step]; [| |congruence].
  - apply keeps_switchPage.
  - unfold tick. cbv zeta. eapply navigates_trans; [|apply navigates_run_due].
    unfold navigates. cbn. repeat split; auto using Forall2_restyled_refl.
Qed.

(** ** The steps of [switchPage], exactly *)

Lemma bind_normal {A B : Type} (m : M A) (k : A -> M B) (w w' : World) (b : B) :
  bind m k w = Normal b w' -> exists a w1, m w = Normal a w1 /\ k a w1 = Normal b w'.
Proof. unfold bind. destruct (m w) as [a w1|e w1]; [eauto | discriminate]. Qed.

Lemma switchPage_finish_steps (pageId : string) (w w' : World) :
  switchPage_finish pageId w = Normal tt w' ->
  exists w2 w3 w4 w5,
    enter_home (String.eqb pageId "home") w = Normal tt w2
    /\ swap_sections (String.eqb pageId "home") pageId w2 = Normal tt w3
    /\ style_non_home (String.eqb pageId "home") pageId w3 = Normal tt w4
    /\ update_nav_links pageId w4 = Normal tt w5
    /\ team_bees pageId w5 = Normal tt w'.
Proof.
  unfold switchPage_finish. cbv zeta. intro H.
  apply bind_normal in H. destruct H as ([] & w2 & H2 & H).
  apply bind_normal in H. destruct H as ([] & w3 & H3 & H).
  apply bind_normal in H. destruct H as ([] & w4 & H4 & H).
  apply bind_normal in H. destruct H as ([] & w5 & H5 & H).
  exists w2, w3, w4, w5. auto.
Qed.

Lemma same_but_classes_refl (e : Element) : same_but_classes e e.
Proof. now destruct e. Qed.

Lemma same_but_classes_trans (a b c : Element) :
  same_but_classes a b -> same_but_classes b c -> same_but_classes a c.
Proof.
  unfold same_but_classes. destruct a, b, c. cbn. intros H1 H2.
  injection H1 as -> -> -> -> ->. injection H2 as -> -> -> -> ->. reflexivity.
Qed.

Lemma reclassed_refl (w : World) : reclassed w w.
Proof.
  split; [|apply set_document_same].
  induction (document w); constructor; auto using same_but_classes_refl.
Qed.

Lemma reclassed_trans (a b c : World) : reclassed a b -> reclassed b c -> reclassed a c.
Proof.
  intros [D1 W1] [D2 W2]. split.
  - clear W1 W2. revert D2. generalize (document c).
    induction D1 as [|x y l l' Hxy H IH]; intros d D2; inversion D2; subst; constructor.
    + eapply same_but_classes_trans; eauto.
    + now apply IH.
  - rewrite <- W1. rewrite <- W2 at 2. destruct c. reflexivity.
Qed.

Lemma reclassed_element (r : ref) (cl : list string -> list string) (w : World) :
  reclassed w (set_document
                 (update r (fun e => set_classList (cl (el_classList e)) e) (document w)) w).
Proof.
  split; [|now destruct w]. cbn [document set_document].
  generalize (document w). intro d. revert r.
  induction d as [|e d IH]; intros [|r]; cbn; constructor;
    auto using same_but_classes_refl.
  - now destruct e.
  - clear. induction d; constructor; auto using same_but_classes_refl.
Qed.

Lemma keeps_reclassed_add (r : option ref) (tokens : list string) :
  keeps reclassed (classList_add r tokens).
Proof.
  intro w. destruct r as [x|]; cbn; [|apply reclassed_refl].
  apply (reclassed_element x (add_tokens tokens)).
Qed.

Lemma keeps_reclassed_remove (r : option ref) (tokens : list string) :
  keeps reclassed (classList_remove r tokens).
Proof.
  intro w. destruct r as [x|]; cbn; [|apply reclassed_refl].
  apply (reclassed_element x (remove_tokens tokens)).
Qed.

Ltac keeps_cls :=
  repeat first
    [ apply keeps_reclassed_add
    | apply keeps_reclassed_remove
    | apply keeps_ret; exact reclassed_refl
    | apply keeps_throw; exact reclassed_refl
    | apply keeps_gets; exact reclassed_refl
    | apply keeps_forEach; [exact reclassed_refl | exact reclassed_trans | intro]
    | match goal with
      | |- keeps _ (match ?x with _ => _ end) => destruct x
      end
    | apply keeps_bind; [exact reclassed_trans | | intro] ].

(** Steps 3 and 5 change class lists and nothing else. *)
Lemma swap_sections_reclassed (isHome : bool) (pageId : string) :
  keeps reclassed (swap_sections isHome pageId).
Proof.
  unfold swap_sections, getElementById, querySelectorAll, querySelector_div, read_element.
  keeps_cls.
Qed.

Lemma update_nav_links_reclassed (pageId : string) :
  keeps reclassed (update_nav_links pageId).
Proof.
  unfold update_nav_links, querySelectorAll, getAttribute_onclick, read_element. keeps_cls.
Qed.

Lemma reclassed_fields (w w' : World) :
  reclassed w w' ->
  bookState w' = bookState w /\ timers w' = timers w /\ now w' = now w
  /\ nextTimerId w' = nextTimerId w /\ teamBeeTimer w' = teamBeeTimer w
  /\ teamBeeGroup_visible w' = teamBeeGroup_visible w
  /\ forall r, opacity_at r w' = opacity_at r w.
Proof.
  intros [D W]. repeat split; try (rewrite <- W; reflexivity).
  unfold opacity_at. clear W.
  intro r. revert r. induction D as [|x y l l' Hxy H IH]; intros [|r]; cbn; auto.
  unfold same_but_classes in Hxy. rewrite <- Hxy. reflexivity.
Qed.

Lemma class_at_stable (T : list string) (c : string) (r : ref) (w w' : World) :
  contains T c = false ->
  Forall2 (stable_except T) (document w) (document w') ->
  class_at c r w' = class_at c r w.
Proof.
  intros Hc H. unfold class_at. revert r.
  induction H as [|x y l l' Hxy H IH]; intros [|r]; cbn; auto.
  destruct Hxy as (_ & _ & _ & Hcl). now rewrite (Hcl c Hc).
Qed.

Lemma class_at_same_document (c : string) (r : ref) (w w' : World) :
  document w' = document w -> class_at c r w' = class_at c r w.
Proof. unfold class_at. now intros ->. Qed.

Lemma distinct_ids (d : Document) (s s' : string) (i j : ref) :
  lookup_id s d = Some i -> lookup_id s' d = Some j -> s <> s' -> i <> j.
Proof.
  intros Hi Hj Hs ->. destruct (lookup_id_Some _ _ _ Hi) as (e & He & <-).
  destruct (lookup_id_Some _ _ _ Hj) as (e' & He' & <-). congruence.
Qed.

(** Step 2 when entering home, on a page that has the three elements. *)
Lemma enter_home_exact (w : World) (c h n : ref) :
  lookup_id "canvas-container" (document w) = Some c ->
  lookup_id "main-header" (document w) = Some h ->
  lookup_id "nav-container" (document w) = Some n ->
  enter_home true w
  = Normal tt
      (set_document
         (update n (el_add nav_pill)
            (update h (el_add ["py-6"])
               (update h (el_remove header_solid)
                  (update c (set_opacity "1") (document w)))))
         (set_bookState {| value := value (bookState w); target := 1.0 |} w)).
Proof.
  intros Hc Hh Hn.
  assert (Ho : tame T_style (set_opacity "1")) by apply tame_set_opacity.
  assert (Hr : tame T_style (el_remove header_solid)) by (apply tame_el_remove; tokens).
  assert (Ha : tame T_style (el_add ["py-6"])) by (apply tame_el_add; tokens).
  unfold enter_home, set_target, getElementById, gets, style_opacity_set, classList_add,
    classList_remove, deref, ret, modify_element, modify, bind.
  cbn [document set_document set_bookState]. rewrite Hc.
  cbn [document set_document set_bookState].
  rewrite !(lookup_id_update T_style) by assumption. rewrite Hh.
  cbn [document set_document set_bookState].
  rewrite !(lookup_id_update T_style) by assumption. rewrite Hn.
  reflexivity.
Qed.

(** Step 4 for a page other than home, when it does not throw. *)
Lemma style_non_home_schedule (pageId : string) (w w' : World) :
  style_non_home false pageId w = Normal tt w' ->
  timers w' = (timers w ++ [mkTimer (nextTimerId w) (now w + 800)
                              (CanvasOpacity (lookup_id "canvas-container" (document w))
                                 pageId)])%list
  /\ nextTimerId w' = S (nextTimerId w)
  /\ now w' = now w /\ teamBeeTimer w' = teamBeeTimer w
  /\ teamBeeGroup_visible w' = teamBeeGroup_visible w
  /\ bookState w' = bookState w
  /\ forall r, opacity_at r w' = opacity_at r w.
Proof.
  unfold style_non_home. cbn [negb].
  unfold getElementById, gets, setTimeout, classList_add, classList_remove,
    deref, ret, throw, modify_element, modify, bind.
  cbn [document set_document set_nextTimerId set_timers].
  destruct (lookup_id "main-header" (document w)) as [h|]; [|discriminate].
  cbn [document set_document set_nextTimerId set_timers].
  destruct (lookup_id "nav-container" _) as [n|]; [|discriminate].
  intro H. injection H as <-. cbn. repeat split.
  intro r. unfold opacity_at. cbn. rewrite !nth_error_update.
  destruct (nth_error (document w) r); repeat (destruct (_ =? _)%nat; cbn); reflexivity.
Qed.

Lemma well_formed_restyled (d d' : Document) :
  Forall2 restyled d d' -> well_formed d -> well_formed d'.
Proof.
  intro H. apply (well_formed_stable T_all); [reflexivity|].
  now apply Forall2_restyled_stable.
Qed.

(** Navigation, timers and frames restyle the page and leave the stored
    key and the requests alone. *)
Lemma run_restyles (w : World) (es : list event) :
  Forall2 restyled (document w) (document (run w es))
  /\ localStorage (run w es) = localStorage w
  /\ requests (run w es) = requests w.
Proof.
  revert w. induction es as [|e es IH]; intro w; cbn [run fold_left].
  - repeat split. apply Forall2_restyled_refl.
  - destruct (IH (step w e)) as (D & L & R). fold (run (step w e) es) in *.
    assert (H : Forall2 restyled (document w) (document (step w e))
                /\ localStorage (step w e) = localStorage w
                /\ requests (step w e) = requests w).
    { destruct e as [pageId| |].
      - destruct (navigates_step w (Click pageId)) as (H1 & _ & _ & _ & _ & _ & H2 & H3);
          [discriminate | auto].
      - destruct (navigates_step w Tick) as (H1 & _ & _ & _ & _ & _ & H2 & H3);
          [discriminate | auto].
      - cbn. repeat split. apply Forall2_restyled_refl. }
    destruct H as (D0 & L0 & R0). repeat split; try congruence.
    eapply Forall2_restyled_trans; eauto.
Qed.

(** On a page that has the elements the script dereferences, steps 2 to 6
    run through. *)
Lemma switchPage_finish_normal (pageId : string) (w : World) :
  well_formed (document w) -> exists w', switchPage_finish pageId w = Normal tt w'.
Proof.
  intro Hwf.
  set (I := fun w' : World => Forall2 (stable_except T_all) (document w) (document w')).
  assert (Hwf' : forall w', I w' -> well_formed (document w')).
  { intros w' H. now apply (well_formed_stable T_all (document w)). }
  assert (H : wp (switchPage_finish pageId) (fun _ _ => True) (fun _ => False) w).
  { unfold switchPage_finish. cbv zeta.
    apply (switchPage_prefix_spec I (fun _ => False)).
    - apply doc_stable_writes.
    - apply doc_stable_canvas_timer.
    - intros w' s Hs Hi Hnone. destruct (Hwf' w' Hi) as (_ & H2 & H3 & H4 & _).
      cbn in Hs. destruct Hs as [<-|[<-|[<-|[]]]]; congruence.
    - intros w' r e Hi Hin Hn Ho. destruct (Hwf' w' Hi) as (_ & _ & _ & _ & H5).
      rewrite Forall_forall in H5. apply In_select_class in Hin.
      destruct Hin as (e' & Hn' & Hc). rewrite Hn in Hn'. injection Hn' as <-.
      apply (H5 e (nth_error_In _ _ Hn) Hc Ho).
    - apply Forall2_stable_refl.
    - intros w' _. destruct (team_bees_run pageId w') as (w2 & Hrun & _).
      unfold wp. now rewrite Hrun. }
  destruct (wp_total _ _ _ H) as ([] & w' & Hrun & _). eauto.
Qed.

Lemma switchPage_normal (pageId : string) (w : World) :
  well_formed (document w) -> exists w', switchPage pageId w = Normal tt w'.
Proof.
  intro Hwf. destruct (switchPage_finish_normal pageId w Hwf) as (w' & Hrun).
  unfold switchPage. cbv zeta. unfold bind at 1. unfold getElementById, gets.
  destruct Hwf as (Hhp & _).
  destruct (lookup_id "home-page" (document w)) as [hp|]; [|congruence].
  unfold bind at 1. unfold classList_contains, bind, deref, ret, read_element, gets.
  destruct (_ && _); [eexists; reflexivity | eauto].
Qed.

(** X9.  On a page that has the home section, the canvas host, the header
    and the nav container, and whose navigation links all carry an onclick
    attribute, the promise of [switchPage] is never rejected, whatever was
    clicked before and however much time has passed: the call runs up to
    its return to the event loop without throwing, and the part behind the
    [await], whenever it is resumed and whatever happened in between, ends
    normally too. *)
Theorem switchPage_never_fails (w : World) (es es' : list event) (pageId : string) :
  well_formed (document w) ->
  exists w1, switchPage pageId (run w es) = Normal tt w1
    /\ exists w2, run_task (ResumeSwitchPage pageId) (run w1 es') = Normal tt w2.
Proof.
  intro Hwf.
  assert (Hall : forall l, well_formed (document (run w l))).
  { intro l. apply (well_formed_restyled (document w)); [|exact Hwf]. apply run_restyles. }
  destruct (switchPage_normal pageId (run w es) (Hall es)) as (w1 & Hrun).
  exists w1. split; [exact Hrun|].
  assert (E : run w1 es' = run w (es ++ Click pageId :: es')).
  { transitivity (run (step (run w es) (Click pageId)) es').
    - cbn [step]. now rewrite Hrun.
    - unfold run. now rewrite fold_left_app. }
  rewrite E. apply switchPage_finish_normal. apply Hall.
Qed.

Lemma sample_well_formed : well_formed sample_document.
Proof.
  unfold well_formed. repeat split; try (vm_compute; discriminate).
  repeat constructor; vm_compute; discriminate.
Qed.

Lemma switchPage_never_fails_witness :
  exists w1, switchPage "species" (run sample_world (Click "team" :: wait 600)) = Normal tt w1
    /\ exists w2, run_task (ResumeSwitchPage "species") (run w1 (wait 500)) = Normal tt w2.
Proof. apply switchPage_never_fails. exact sample_well_formed. Defined.

(** X10.  After [switchPage] has run to its end on such a page, a
    navigation link is highlighted exactly when its onclick text contains
    the page id, for every page id. *)
Theorem nav_highlight_follows_page (pageId : string) (w : World) :
  well_formed (document w) ->
  exists w', switchPage_finish pageId w = Normal tt w'
    /\ forall r e, nth_error (document w') r = Some e -> has_class "nav-link" e = true ->
         (has_class highlight e = true <->
          exists text, el_onclick e = Some text /\ includes text pageId = true).
Proof.
  intro Hwf. destruct (switchPage_finish_normal pageId w Hwf) as (w' & Hrun).
  exists w'. split; [exact Hrun|].
  destruct (switchPage_finish_steps _ _ _ Hrun) as (w2 & w3 & w4 & w5 & H2 & H3 & H4 & H5 & H6).
  assert (Hwf4 : well_formed (document w4)).
  { pose proof (keeps_enter_home (String.eqb pageId "home") w) as K2.
    pose proof (keeps_swap_sections (String.eqb pageId "home") pageId w2) as K3.
    pose proof (keeps_style_non_home (String.eqb pageId "home") pageId w3) as K4.
    rewrite H2 in K2. rewrite H3 in K3. rewrite H4 in K4. cbn in K2, K3, K4.
    apply (well_formed_restyled (document w3)); [apply K4|].
    apply (well_formed_restyled (document w2)); [apply K3|].
    apply (well_formed_restyled (document w)); [apply K2 | exact Hwf]. }
  destruct Hwf4 as (_ & _ & _ & _ & Hl4).
  destruct (update_nav_links_exact pageId w4 Hl4) as (w5' & Hrun5 & _ & _ & Hlinks).
  rewrite H5 in Hrun5. injection Hrun5 as <-.
  destruct (team_bees_run pageId w5) as (w6 & Hrun6 & Hdoc6 & _).
  rewrite H6 in Hrun6. injection Hrun6 as <-. rewrite Hdoc6. exact Hlinks.
Qed.

Lemma nav_highlight_follows_page_witness :
  exists w', switchPage_finish "hive" sample_world = Normal tt w'
    /\ forall r e, nth_error (document w') r = Some e -> has_class "nav-link" e = true ->
         (has_class highlight e = true <->
          exists text, el_onclick e = Some text /\ includes text "hive" = true).
Proof. apply nav_highlight_follows_page. exact sample_well_formed. Defined.

Lemma swap_sections_stable (isHome : bool) (pageId : string) (w w' : World) :
  swap_sections isHome pageId w = Normal tt w' ->
  Forall2 (stable_except T_swap) (document w) (document w').
Proof.
  intro H. pose proof (swap_sections_active isHome pageId w) as Hwp.
  unfold wp in Hwp. rewrite H in Hwp. apply Hwp.
Qed.

Lemma update_nav_links_stable (pageId : string) (w w' : World) :
  update_nav_links pageId w = Normal tt w' ->
  Forall2 (stable_except T_links) (document w) (document w').
Proof.
  intro H.
  pose proof (update_nav_links_spec T_links
                (fun w' => Forall2 (stable_except T_links) (document w) (document w'))
                (fun _ => True) pageId w) as Hwp.
  unfold wp in Hwp. rewrite H in Hwp. apply Hwp.
  - auto.
  - apply doc_stable_writes.
  - intros w1 r e _ _ _ _. exact I.
  - apply Forall2_stable_refl.
Qed.

Lemma keeps_normal {A : Type} (R : World -> World -> Prop) (m : M A) (w w' : World) (a : A) :
  keeps R m -> m w = Normal a w' -> R w w'.
Proof. intros K H. specialize (K w). now rewrite H in K. Qed.

Lemma switchPage_home (w : World) (hp : ref) :
  lookup_id "home-page" (document w) = Some hp ->
  switchPage "home" w = switchPage_finish "home" w.
Proof.
  intro H. destruct (switchPage_cases "home" w hp H) as [E|[Hne _]]; [exact E | congruence].
Qed.

(** X11.  Going home, on a page that has the elements the script
    dereferences: [switchPage] does not wait; the book is sent to open; the
    canvas is at full opacity; the header has its padding class and none of
    the solid-header classes; the nav container has its pill classes; the
    home section is the one active section; the bee flag is off and the
    only timer cancelled is the bee timer. *)
Theorem switchPage_home_restores (w : World) (c h n : ref) :
  well_formed (document w) ->
  lookup_id "canvas-container" (document w) = Some c ->
  lookup_id "main-header" (document w) = Some h ->
  lookup_id "nav-container" (document w) = Some n ->
  exists w', switchPage "home" w = Normal tt w'
    /\ bookState w' = {| value := value (bookState w); target := 1.0 |}
    /\ opacity_at c w' = Some "1"
    /\ class_at "py-6" h w' = Some true
    /\ (forall t, In t header_solid -> class_at t h w' = Some false)
    /\ (forall t, In t nav_pill -> class_at t n w' = Some true)
    /\ (forall i, In i (active_sections (document w')) <->
                  lookup_id "home-page" (document w) = Some i
                  /\ In i (select_class "page-section" (document w)))
    /\ teamBeeGroup_visible w' = false
    /\ timers w' = cleared w.
Proof.
  intros Hwf Hc Hh Hn.
  destruct (switchPage_finish_normal "home" w Hwf) as (w' & Hrun).
  exists w'. split.
  { destruct Hwf as (Hhp & _).
    destruct (lookup_id "home-page" (document w)) as [hp|] eqn:E; [|congruence].
    now rewrite (switchPage_home w hp E). }
  pose proof (switchPage_finish_active "home" w w' Hrun) as Hact.
  destruct (switchPage_finish_steps _ _ _ Hrun) as (w2 & w3 & w4 & w5 & H2 & H3 & H4 & H5 & H6).
  cbn [String.eqb Ascii.eqb Bool.eqb] in *.
  rewrite (enter_home_exact w c h n Hc Hh Hn) in H2. injection H2 as H2.
  injection H4 as H4. subst w4.
  destruct (reclassed_fields _ _ (keeps_normal _ _ _ _ _ (swap_sections_reclassed _ _) H3))
    as (B3 & T3 & _ & _ & I3 & _ & O3).
  destruct (reclassed_fields _ _ (keeps_normal _ _ _ _ _ (update_nav_links_reclassed _) H5))
    as (B5 & T5 & _ & _ & I5 & _ & O5).
  pose proof (swap_sections_stable _ _ _ _ H3) as S3.
  pose proof (update_nav_links_stable _ _ _ H5) as S5.
  destruct (team_bees_run "home" w5) as (w6 & Hrun6 & D6 & B6 & _ & T6 & _ & _ & V6).
  rewrite H6 in Hrun6. injection Hrun6 as <-.
  assert (Hcls : forall t r, contains T_swap t = false -> contains T_links t = false ->
                   class_at t r w' = class_at t r w2).
  { intros t r Ht1 Ht2. rewrite (class_at_same_document t r w5 w' D6).
    rewrite (class_at_stable T_links t r w3 w5 Ht2 S5).
    apply (class_at_stable T_swap t r w2 w3 Ht1 S3). }
  destruct (lookup_id_Some _ _ _ Hc) as (ec & Hec & _).
  destruct (lookup_id_Some _ _ _ Hh) as (eh & Heh & _).
  destruct (lookup_id_Some _ _ _ Hn) as (en & Hen & _).
  assert (Hch : c <> h) by (apply (distinct_ids _ _ _ _ _ Hc Hh); discriminate).
  assert (Hcn : c <> n) by (apply (distinct_ids _ _ _ _ _ Hc Hn); discriminate).
  assert (Hhn : h <> n) by (apply (distinct_ids _ _ _ _ _ Hh Hn); discriminate).
  apply Nat.eqb_neq in Hch, Hcn, Hhn.
  repeat split.
  - rewrite B6, B5, B3, <- H2. reflexivity.
  - unfold opacity_at at 1. rewrite D6. fold (opacity_at c w5). rewrite O5, O3, <- H2.
    unfold opacity_at. cbn [document set_document set_bookState].
    rewrite !nth_error_update, Nat.eqb_refl, Hch, Hcn, Hec. reflexivity.
  - rewrite Hcls by reflexivity. rewrite <- H2. unfold class_at.
    cbn [document set_document set_bookState].
    rewrite !nth_error_update, Nat.eqb_refl, Hhn, Heh. cbn [option_map].
    rewrite (Nat.eqb_sym h c), Hch. cbn [option_map].
    rewrite has_class_el_add. cbn. now rewrite orb_true_r.
  - intros t Ht. cbn in Ht.
    assert (E : class_at t h w2 = Some false).
    { rewrite <- H2. unfold class_at. cbn [document set_document set_bookState].
      rewrite !nth_error_update, Nat.eqb_refl, Hhn, Heh. cbn [option_map].
      rewrite (Nat.eqb_sym h c), Hch. cbn [option_map].
      rewrite has_class_el_add, has_class_el_remove.
      destruct Ht as [<-|[<-|[<-|[<-|[<-|[]]]]]]; cbn; now rewrite andb_false_r. }
    destruct Ht as [<-|[<-|[<-|[<-|[<-|[]]]]]]; rewrite Hcls by reflexivity; exact E.
  - intros t Ht. cbn in Ht.
    assert (E : class_at t n w2 = Some true).
    { rewrite <- H2. unfold class_at. cbn [document set_document set_bookState].
      rewrite !nth_error_update, Nat.eqb_refl, Hen. cbn [option_map].
      rewrite (Nat.eqb_sym n h), Hhn, (Nat.eqb_sym n c), Hcn. cbn [option_map].
      rewrite has_class_el_add.
      destruct Ht as [<-|[<-|[<-|[<-|[<-|[]]]]]]; cbn; now rewrite orb_true_r. }
    destruct Ht as [<-|[<-|[<-|[<-|[<-|[]]]]]]; rewrite Hcls by reflexivity; exact E.
  - match goal with H : In _ _ |- _ => apply Hact in H; apply H end.
  - match goal with H : In _ _ |- _ => apply Hact in H; apply H end.
  - intro H. apply Hact. exact H.
  - exact V6.
  - rewrite T6. unfold cleared. rewrite I5, I3, T5, T3, <- H2. reflexivity.
Qed.

Lemma switchPage_home_restores_witness :
  exists w', switchPage "home" sample_world = Normal tt w'
    /\ bookState w' = {| value := value (bookState sample_world); target := 1.0 |}.
Proof.
  destruct (switchPage_home_restores sample_world 0%nat 1%nat 2%nat sample_well_formed
              eq_refl eq_refl eq_refl) as (w' & H1 & H2 & _).
  exists w'. split; assumption.
Defined.

(** ** Waiting *)

Lemma tick_idle (w : World) : idle_for 1 w -> tick w = set_now (S (now w)) w.
Proof.
  intro H. unfold tick. cbv zeta.
  destruct (List.length (timers (set_now (S (now w)) w))) as [|k]; [reflexivity|].
  cbn [run_due]. rewrite pop_due_none; [reflexivity|].
  cbn [now timers set_now]. apply filter_none.
  eapply Forall_impl; [|exact H]. cbn. intros t Ht. apply Nat.leb_gt. lia.
Qed.

(** While no click comes and no timer falls due, only the clock and the
    frame's own variables move. *)
Lemma run_quiet (es : list event) (w : World) :
  forallb (fun e => negb (is_click e)) es = true ->
  idle_for (ticks es) w ->
  document (run w es) = document w
  /\ timers (run w es) = timers w
  /\ now (run w es) = (now w + ticks es)%nat
  /\ nextTimerId (run w es) = nextTimerId w
  /\ teamBeeTimer (run w es) = teamBeeTimer w
  /\ teamBeeGroup_visible (run w es) = teamBeeGroup_visible w
  /\ target (bookState (run w es)) = target (bookState w).
Proof.
  revert w. induction es as [|e es IH]; intros w Hes Hidle.
  - cbn. rewrite Nat.add_0_r. repeat split.
  - cbn [forallb] in Hes. apply andb_true_iff in Hes. destruct Hes as [He Hes].
    cbn [run fold_left]. fold (run (step w e) es). rewrite ticks_cons in *.
    destruct e as [pageId| |]; [discriminate| |]; cbn [elapsed] in *.
    + assert (H1 : idle_for 1 w).
      { eapply Forall_impl; [|exact Hidle]. cbn. intros t Ht. lia. }
      cbn [step]. rewrite (tick_idle w H1).
      destruct (IH (set_now (S (now w)) w) Hes) as (A & B & C & D & E & F & G).
      { unfold idle_for in *. cbn [now timers set_now].
        eapply Forall_impl; [|exact Hidle]. cbn. intros t Ht. lia. }
      rewrite A, B, C, D, E, F, G. cbn. repeat split. lia.
    + cbn [step]. destruct (IH (animate w) Hes) as (A & B & C & D & E & F & G).
      { exact Hidle. }
      rewrite A, B, C, D, E, F, G. cbn. repeat split.
Qed.

Lemma run_app (w : World) (es es' : list event) : run w (es ++ es') = run (run w es) es'.
Proof. unfold run. apply fold_left_app. Qed.

(** Leaving home: line 194 holds, so the book is sent to close and the rest
    of [switchPage] is parked for 500 ms. *)
Lemma switchPage_waits (pageId : string) (w : World) (hp : ref) :
  lookup_id "home-page" (document w) = Some hp ->
  class_at "active" hp w = Some true ->
  pageId <> "home" ->
  switchPage pageId w
  = Normal tt
      (set_nextTimerId (S (nextTimerId w))
         (set_timers (timers w ++ [mkTimer (nextTimerId w) (now w + 500)
                                     (ResumeSwitchPage pageId)])%list
            (set_bookState {| value := value (bookState w); target := 0.0 |} w))).
Proof.
  intros Hhp Hact Hne. unfold class_at in Hact.
  assert (Hg : getElementById "home-page" w = Normal (Some hp) w)
    by (unfold getElementById, gets; now rewrite Hhp).
  unfold switchPage. cbv zeta. unfold bind at 1. rewrite Hg. cbv beta iota.
  unfold bind at 1. unfold classList_contains, read_element, deref, gets, ret.
  unfold bind at 1.
  destruct (nth_error (document w) hp) as [e|]; [|discriminate].
  cbn in Hact. injection Hact as ->.
  destruct (String.eqb_spec pageId "home") as [|_]; [contradiction|].
  reflexivity.
Qed.

(** X12.  Leaving home with no timer pending: the click sends the book to
    close and changes nothing on the page; for the next 499 ms, with any
    frames in between, the page stays as it was; at 500 ms the sections are
    swapped, the one the page id names becoming the active one. *)
Theorem leaving_home_waits (w : World) (pageId : string) (hp : ref) (es : list event) :
  well_formed (document w) ->
  lookup_id "home-page" (document w) = Some hp ->
  class_at "active" hp w = Some true ->
  pageId <> "home" ->
  timers w = [] ->
  forallb (fun e => negb (is_click e)) es = true ->
  target (bookState (step w (Click pageId))) = 0.0
  /\ ((ticks es < 500)%nat ->
      document (run w (Click pageId :: es)) = document w)
  /\ ((ticks es = 499)%nat ->
      forall i, In i (active_sections (document (run w (Click pageId :: es ++ [Tick])))) <->
                lookup_id pageId (document w) = Some i
                /\ In i (select_class "page-section" (document w))).
Proof.
  intros Hwf Hhp Hact Hne Ht Hes.
  set (w1 := step w (Click pageId)).
  assert (E1 : w1 = set_nextTimerId (S (nextTimerId w))
                      (set_timers [mkTimer (nextTimerId w) (now w + 500)
                                     (ResumeSwitchPage pageId)]
                         (set_bookState {| value := value (bookState w); target := 0.0 |} w))).
  { unfold w1. cbn [step]. rewrite (switchPage_waits pageId w hp Hhp Hact Hne).
    cbn [settle]. now rewrite Ht. }
  assert (Hidle : (ticks es < 500)%nat -> idle_for (ticks es) w1).
  { intro Hlt. rewrite E1. unfold idle_for. cbn. repeat constructor. cbn. lia. }
  split; [now rewrite E1|]. split.
  - intro Hlt. change (run w (Click pageId :: es)) with (run w1 es).
    destruct (run_quiet es w1 Hes (Hidle Hlt)) as (D & _). rewrite D, E1. reflexivity.
  - intro H499.
    change (run w (Click pageId :: es ++ [Tick])) with (run w1 (es ++ [Tick])).
    rewrite run_app. cbn [run fold_left step].
    destruct (run_quiet es w1 Hes (Hidle ltac:(lia))) as (D & T & N & _).
    set (w2 := run w1 es) in *.
    assert (Htick : tick w2
                    = settle (switchPage_finish pageId
                                (set_timers [] (set_now (S (now w2)) w2)))).
    { assert (Htim : timers w1 = [mkTimer (nextTimerId w) (now w + 500)
                                    (ResumeSwitchPage pageId)])
        by (rewrite E1; reflexivity).
      assert (Hnow : now w1 = now w) by (rewrite E1; reflexivity).
      unfold tick. cbv zeta. cbn [timers set_now]. rewrite T, Htim.
      cbn [List.length run_due now timers set_now]. rewrite T, Htim.
      cbn [pop_due due]. rewrite N, Hnow.
      replace (now w + 500 <=? S (now w + ticks es))%nat with true
        by (symmetry; apply Nat.leb_le; lia).
      cbn [callback run_task]. rewrite <- Hnow, <- N. reflexivity. }
    rewrite Htick.
    assert (Hdoc : document (set_timers [] (set_now (S (now w2)) w2)) = document w).
    { cbn. rewrite D, E1. reflexivity. }
    destruct (switchPage_finish_normal pageId (set_timers [] (set_now (S (now w2)) w2)))
      as (w3 & Hrun); [now rewrite Hdoc|].
    rewrite Hrun. cbn [settle]. intro i.
    rewrite (switchPage_finish_active pageId _ w3 Hrun), Hdoc.
    destruct (String.eqb_spec pageId "home") as [|_]; [contradiction|]. reflexivity.
Qed.

Lemma leaving_home_waits_witness :
  document (run sample_world (Click "hive" :: wait 499)) = document sample_world.
Proof.
  refine (proj1 (proj2 (leaving_home_waits sample_world "hive" 7%nat (wait 499)
                          sample_well_formed eq_refl eq_refl _ eq_refl _)) _).
  - discriminate.
  - vm_compute. reflexivity.
  - apply Nat.ltb_lt. vm_compute. reflexivity.
Defined.

(** ** The recorded bee timer id *)

Lemma bee_id_used_same (w w' : World) :
  teamBeeTimer w' = teamBeeTimer w -> (nextTimerId w <= nextTimerId w')%nat ->
  bee_id_used w -> bee_id_used w'.
Proof.
  unfold bee_id_used. intros -> Hn. destruct (teamBeeTimer w); [lia | auto].
Qed.

Lemma bee_id_used_finish (pageId : string) (w : World) :
  bee_id_used w ->
  wp (switchPage_finish pageId) (fun _ => bee_id_used) bee_id_used w.
Proof.
  intro H. unfold switchPage_finish. cbv zeta.
  apply (switchPage_prefix_spec bee_id_used bee_id_used); auto.
  - split; intros w1 **; (apply (bee_id_used_same w1); [reflexivity | cbn; lia | assumption]).
  - intros w1 c p H1. apply (bee_id_used_same w1); [reflexivity | cbn; lia | exact H1].
  - intros w1 s _ H1 _. exact H1.
  - intros w1 r e H1 _ _ _. exact H1.
  - intros w1 H1. destruct (team_bees_run pageId w1) as (w2 & Hrun & _ & _ & _ & Hrest).
    unfold wp. rewrite Hrun. destruct (String.eqb pageId "team").
    + destruct Hrest as (_ & Hb & Hn & _). unfold bee_id_used. rewrite Hb, Hn. lia.
    + destruct Hrest as (_ & Hb & Hn & _). apply (bee_id_used_same w1); [exact Hb | lia | exact H1].
Qed.

Lemma bee_id_used_run_task (t : task) (w : World) :
  bee_id_used w -> bee_id_used (settle (run_task t w)).
Proof.
  intro H.
  destruct t as [pageId|canvas pageId|]; cbn [run_task].
  - apply wp_settle. now apply bee_id_used_finish.
  - destruct (String.eqb pageId "team"); destruct canvas; cbn;
      (apply (bee_id_used_same w); [reflexivity | cbn; lia | exact H]).
  - unfold getElementById, classList_contains, read_element, style_opacity_set,
      bind, gets, deref, ret, throw, modify_element, modify.
    destruct (lookup_id "team" (document w)) as [tm|]; cbn -[lookup_id]; [|exact H].
    destruct (match nth_error (document w) tm with
              | Some e => has_class "active" e
              | None => false
              end); cbn -[lookup_id]; [|exact H].
    destruct (lookup_id "canvas-container" (document w)); cbn;
      (apply (bee_id_used_same w); [reflexivity | cbn; lia | exact H]).
Qed.

Lemma bee_id_used_run_due (fuel : nat) (w : World) :
  bee_id_used w -> bee_id_used (run_due fuel w).
Proof.
  revert w. induction fuel as [|fuel IH]; intros w H; simpl; [exact H|].
  destruct (pop_due (now w) (timers w)) as [[t rest]|]; [|exact H].
  apply IH. apply bee_id_used_run_task. apply (bee_id_used_same w); [reflexivity | cbn; lia | exact H].
Qed.

Lemma bee_id_used_step (w : World) (e : event) : bee_id_used w -> bee_id_used (step w e).
Proof.
  intro H. destruct e as [pageId| |]; cbn [step].
  - unfold switchPage. cbv zeta.
    unfold getElementById, classList_contains, read_element, set_target, setTimeout,
      bind at 1 2, gets, deref, ret, throw, modify.
    destruct (lookup_id "home-page" (document w)) as [hp|]; cbn -[switchPage_finish];
      [|exact H].
    destruct (_ && _).
    + cbn. apply (bee_id_used_same w); [reflexivity | cbn; lia | exact H].
    + apply wp_settle. now apply bee_id_used_finish.
  - unfold tick. cbv zeta. apply bee_id_used_run_due.
    apply (bee_id_used_same w); [reflexivity | cbn; lia | exact H].
  - apply (bee_id_used_same w); [reflexivity | cbn; lia | exact H].
Qed.

Lemma bee_id_used_run (es : list event) (w : World) :
  bee_id_used w -> bee_id_used (run w es).
Proof.
  revert w. induction es as [|e es IH]; intros w H; cbn [run fold_left]; [exact H|].
  apply IH. now apply bee_id_used_step.
Qed.

(** X13.  At any moment at most one timer is pending that would show the
    team bees. *)
Theorem at_most_one_bee_timer (d : Document) (key : option string) (es : list event) :
  (List.length (bee_timers (run (initial_world d key) es)) <= 1)%nat.
Proof.
  pose proof (coherent_run es _ (coherent_initial d key)) as (_ & Hnd & _ & Hb).
  set (w := run (initial_world d key) es) in *. unfold bee_timers.
  assert (H : forall l, NoDup (map timer_id l) ->
                Forall (fun t => is_bee_timer t = true -> teamBeeTimer w = Some (timer_id t)) l ->
                (List.length (filter is_bee_timer l) <= 1)%nat).
  { clear. induction l as [|a l IH]; intros Hnd Hb; cbn; [lia|].
    inversion Hnd as [|x l' Hnin Hnd']; subst. inversion Hb as [|y l'' Ha Hb']; subst.
    destruct (is_bee_timer a) eqn:Ea; [|auto].
    cbn. enough (filter is_bee_timer l = []) as -> by (cbn; lia).
    apply filter_none. apply Forall_forall. intros t Hin.
    destruct (is_bee_timer t) eqn:Et; [|reflexivity]. exfalso. apply Hnin.
    rewrite Forall_forall in Hb'. specialize (Hb' t Hin Et). specialize (Ha eq_refl).
    rewrite Ha in Hb'. injection Hb' as Hid. rewrite Hid. now apply in_map. }
  now apply H.
Qed.

(** ** What a switch arms, and when it fires *)

Lemma style_non_home_stable (isHome : bool) (pageId : string) (w w' : World) :
  style_non_home isHome pageId w = Normal tt w' ->
  Forall2 (stable_except T_style) (document w) (document w').
Proof.
  intro H.
  pose proof (style_non_home_spec T_style
                (fun w' => Forall2 (stable_except T_style) (document w) (document w'))
                (fun _ => True) isHome pageId w) as Hwp.
  unfold wp in Hwp. rewrite H in Hwp. apply Hwp.
  - auto.
  - apply doc_stable_writes.
  - apply doc_stable_canvas_timer.
  - intros w1 s _ _ _. exact I.
  - apply Forall2_stable_refl.
Qed.

Lemma Forall2_nth_error_r (R : Element -> Element -> Prop) (d d' : Document) (i : nat)
      (e : Element) :
  Forall2 R d d' -> nth_error d i = Some e ->
  exists e', nth_error d' i = Some e' /\ R e e'.
Proof.
  intro H. revert i. induction H as [|x y l l' Hxy H IH]; intros [|i] Hn; cbn in *;
    try discriminate.
  - injection Hn as <-. eauto.
  - now apply IH.
Qed.

(** Step 3 marks the element the page id names, whatever it is. *)
Lemma swap_sections_target (isHome : bool) (pageId : string) (w w' : World) (t : ref) :
  swap_sections isHome pageId w = Normal tt w' ->
  lookup_id (if isHome then "home-page" else pageId) (document w) = Some t ->
  class_at "active" t w' = Some true.
Proof.
  intros H Ht. unfold swap_sections in H.
  apply bind_normal in H. destruct H as (sections & w1 & H1 & H).
  unfold querySelectorAll, gets in H1. injection H1 as <- <-.
  apply bind_normal in H. destruct H as ([] & w2 & H2 & H).
  rewrite deactivate_loop in H2. injection H2 as <-.
  apply bind_normal in H. destruct H as (target & w3 & H3 & H).
  unfold getElementById, gets in H3. injection H3 as <- <-.
  cbn [document set_document] in H.
  set (d1 := map (fun e => if has_class "page-section" e then deactivate e else e)
                 (document w)) in *.
  assert (Hst : Forall2 (stable_except T_swap) (document w) d1).
  { apply Forall2_map_r. intro e. destruct (has_class "page-section" e);
      [apply deactivate_tame | apply stable_except_refl]. }
  rewrite (lookup_id_stable T_swap _ _ _ Hst), Ht in H.
  destruct (lookup_id_Some _ _ _ Ht) as (e0 & He0 & _).
  destruct (Forall2_nth_error_r _ _ _ _ _ Hst He0) as (e1 & He1 & _).
  apply bind_normal in H. destruct H as ([] & w4 & H4 & H).
  unfold classList_add, bind, deref, ret, modify_element, modify in H4.
  injection H4 as <-.
  assert (Hact : class_at "active" t
                   (set_document (update t (el_add ["active"]) d1) (set_document d1 w))
                 = Some true).
  { unfold class_at. cbn [document set_document].
    rewrite nth_error_update, Nat.eqb_refl, He1. cbn [option_map].
    rewrite has_class_el_add. cbn. now rewrite orb_true_r. }
  destruct (negb isHome); [|injection H as <-; exact Hact].
  apply bind_normal in H. destruct H as (div & w5 & H5 & H).
  unfold querySelector_div, read_element, gets in H5. injection H5 as <- <-.
  destruct (match nth_error _ t with Some e => el_firstDiv e | None => None end) as [dv|];
    [|injection H as <-; exact Hact].
  unfold classList_add, bind, deref, ret, modify_element, modify in H.
  injection H as <-. unfold class_at in *. cbn [document set_document] in *.
  rewrite nth_error_update. destruct (t =? dv)%nat; [|exact Hact].
  destruct (nth_error (update t (el_add ["active"]) d1) t) as [e|]; [|discriminate].
  cbn [option_map] in *. injection Hact as Hact. now rewrite has_class_el_add, Hact.
Qed.

(** A switch to a page other than home, from a state with no timer pending:
    it arms the canvas timer, and the bee timer when the page is the team
    page; it leaves every opacity as it was. *)
Lemma switchPage_finish_arms (pageId : string) (w w1 : World) :
  bee_id_used w -> timers w = [] -> pageId <> "home" ->
  switchPage_finish pageId w = Normal tt w1 ->
  let C := mkTimer (nextTimerId w) (now w + 800)
             (CanvasOpacity (lookup_id "canvas-container" (document w)) pageId) in
  now w1 = now w
  /\ timers w1 = (if String.eqb pageId "team"
                  then [C; mkTimer (S (nextTimerId w)) (now w + 2000) ShowTeamBees]
                  else [C])
  /\ (forall r, opacity_at r w1 = opacity_at r w)
  /\ (forall s, lookup_id s (document w1) = lookup_id s (document w))
  /\ (forall t, lookup_id pageId (document w) = Some t -> class_at "active" t w1 = Some true)
  /\ teamBeeGroup_visible w1
     = (if String.eqb pageId "team" then teamBeeGroup_visible w else false).
Proof.
  intros Hid Ht Hne Hrun C.
  destruct (switchPage_finish_steps _ _ _ Hrun) as (w2 & w3 & w4 & w5 & H2 & H3 & H4 & H5 & H6).
  destruct (String.eqb_spec pageId "home") as [|_]; [contradiction|].
  injection H2 as <-.
  destruct (reclassed_fields _ _ (keeps_normal _ _ _ _ _ (swap_sections_reclassed _ _) H3))
    as (_ & T3 & N3 & X3 & I3 & V3 & O3).
  destruct (style_non_home_schedule _ _ _ H4) as (T4 & X4 & N4 & I4 & V4 & _ & O4).
  destruct (reclassed_fields _ _ (keeps_normal _ _ _ _ _ (update_nav_links_reclassed _) H5))
    as (_ & T5 & N5 & X5 & I5 & V5 & O5).
  pose proof (swap_sections_stable _ _ _ _ H3) as S3.
  pose proof (style_non_home_stable _ _ _ _ H4) as S4.
  pose proof (update_nav_links_stable _ _ _ H5) as S5.
  destruct (team_bees_run pageId w5) as (w6 & Hrun6 & D6 & _ & N6 & Hrest).
  rewrite H6 in Hrun6. injection Hrun6 as <-.
  assert (Htim : timers w5 = [C]).
  { rewrite T5, T4, T3, Ht, X3, N3. unfold C.
    now rewrite (lookup_id_stable T_swap _ _ _ S3). }
  assert (Hcl : cleared w5 = [C]).
  { unfold cleared. rewrite I5, I4, I3, Htim. unfold bee_id_used in Hid.
    destruct (teamBeeTimer w) as [[|k]|]; try reflexivity.
    cbn. destruct (Nat.eqb_spec (nextTimerId w) (S k)); [lia | reflexivity]. }
  split; [congruence|]. split; [|split; [|split; [|split]]].
  - destruct (String.eqb pageId "team").
    + destruct Hrest as (-> & _). rewrite Hcl, X5, X4, X3, N5, N4, N3. reflexivity.
    + destruct Hrest as (-> & _). exact Hcl.
  - intro r. unfold opacity_at at 1. rewrite D6. fold (opacity_at r w5).
    now rewrite O5, O4, O3.
  - intro s. rewrite D6, (lookup_id_stable T_links _ _ _ S5),
      (lookup_id_stable T_style _ _ _ S4). apply (lookup_id_stable T_swap _ _ _ S3).
  - intros t Htg. rewrite (class_at_same_document "active" t w5 w1 D6).
    rewrite (class_at_stable T_links "active" t w4 w5 eq_refl S5).
    rewrite (class_at_stable T_style "active" t w3 w4 eq_refl S4).
    apply (swap_sections_target false pageId w w3 t H3 Htg).
  - destruct (String.eqb pageId "team").
    + destruct Hrest as (_ & _ & _ & ->). congruence.
    + now destruct Hrest as (_ & _ & _ & ->).
Qed.

(** A tick at which the oldest timer is the only one that falls due, its
    callback leaving the timers and the clock alone. *)
Lemma tick_fires_first (w : World) (x : Timer) (rest : list Timer) :
  timers w = x :: rest -> (due x <= S (now w))%nat ->
  Forall (fun t => (S (now w) < due t)%nat) rest ->
  let w' := settle (run_task (callback x) (set_timers rest (set_now (S (now w)) w))) in
  timers w' = rest -> now w' = S (now w) ->
  tick w = w'.
Proof.
  intros Ht Hdue Hrest w' Ht' Hn'. unfold tick. cbv zeta. cbn [timers set_now]. rewrite Ht.
  cbn [List.length run_due now timers set_now]. rewrite Ht. cbn [pop_due].
  apply Nat.leb_le in Hdue. rewrite Hdue. fold w'.
  destruct (List.length rest) as [|k]; [reflexivity|]. cbn [run_due].
  rewrite pop_due_none; [reflexivity|]. rewrite Ht', Hn'. apply filter_none.
  eapply Forall_impl; [|exact Hrest]. cbn. intros t H. apply Nat.leb_gt. lia.
Qed.

(** X14.  After a switch to a page other than home, from a state the page
    can reach in which no timer is pending: the canvas keeps its opacity for
    the next 799 ms, with any frames in between, and at 800 ms it is dimmed
    to 0.3, or set to 1 on the team page. *)
Theorem canvas_dims_after_800ms (d : Document) (key : option string) (es0 es : list event)
        (pageId : string) (w w1 : World) (c : ref) :
  w = run (initial_world d key) es0 ->
  timers w = [] ->
  pageId <> "home" ->
  switchPage_finish pageId w = Normal tt w1 ->
  lookup_id "canvas-container" (document w) = Some c ->
  forallb (fun e => negb (is_click e)) es = true ->
  ((ticks es < 800)%nat -> opacity_at c (run w1 es) = opacity_at c w)
  /\ ((ticks es = 799)%nat ->
      opacity_at c (run w1 (es ++ [Tick]))
      = Some (if String.eqb pageId "team" then "1" else "0.3")).
Proof.
  intros Hw Ht Hne Hrun Hc Hes.
  assert (Hid : bee_id_used w) by (rewrite Hw; apply bee_id_used_run; exact I).
  destruct (switchPage_finish_arms pageId w w1 Hid Ht Hne Hrun) as (N1 & T1 & O1 & L1 & _).
  rewrite Hc in T1.
  assert (Hidle : (ticks es < 800)%nat -> idle_for (ticks es) w1).
  { intro Hlt. unfold idle_for. rewrite T1, N1.
    destruct (String.eqb pageId "team"); repeat constructor; cbn; lia. }
  split.
  - intro Hlt. destruct (run_quiet es w1 Hes (Hidle Hlt)) as (D & _).
    unfold opacity_at at 1. rewrite D. apply O1.
  - intro H799. rewrite run_app. cbn [run fold_left step].
    destruct (run_quiet es w1 Hes (Hidle ltac:(lia))) as (D & T & N & _).
    set (w2 := run w1 es) in *.
    destruct (lookup_id_Some _ _ _ Hc) as (ec & Hec & _).
    assert (Hec1 : exists e1, nth_error (document w1) c = Some e1).
    { specialize (O1 c). unfold opacity_at in O1. rewrite Hec in O1.
      destruct (nth_error (document w1) c); [eauto | discriminate]. }
    destruct Hec1 as (e1 & He1).
    set (o := if String.eqb pageId "team" then "1" else "0.3").
    assert (Htask : forall rest,
               settle (run_task (CanvasOpacity (Some c) pageId)
                         (set_timers rest (set_now (S (now w2)) w2)))
               = set_document (update c (set_opacity o) (document w2))
                   (set_timers rest (set_now (S (now w2)) w2))).
    { intro rest. unfold o. cbn [run_task]. destruct (String.eqb pageId "team"); reflexivity. }
    assert (Hfire : exists rest,
               timers w2 = mkTimer (nextTimerId w) (now w + 800)
                             (CanvasOpacity (Some c) pageId) :: rest
               /\ Forall (fun t => (S (now w2) < due t)%nat) rest).
    { rewrite T, T1, N, N1. destruct (String.eqb pageId "team"); eexists;
        (split; [reflexivity|]); repeat constructor; cbn; lia. }
    destruct Hfire as (rest & Hts & Hrest).
    rewrite (tick_fires_first w2 _ rest Hts); cbn [callback due];
      rewrite ?Htask; try reflexivity; try assumption.
    + unfold opacity_at. cbn [document set_document].
      rewrite nth_error_update, Nat.eqb_refl, D, He1. reflexivity.
    + rewrite N, N1. lia.
Qed.

Lemma canvas_dims_after_800ms_witness :
  opacity_at 0%nat (run (settle (switchPage_finish "hive" sample_world)) (wait 799 ++ [Tick]))
  = Some "0.3".
Proof.
  refine (proj2 (canvas_dims_after_800ms sample_document (Some "key") [] (wait 799) "hive"
                   sample_world (settle (switchPage_finish "hive" sample_world)) 0%nat
                   eq_refl eq_refl _ _ eq_refl _) _).
  - discriminate.
  - vm_compute. reflexivity.
  - vm_compute. reflexivity.
  - vm_compute. reflexivity.
Defined.

(** ** The bees appear *)

Lemma canvas_callback (c : option ref) (w : World) :
  settle (run_task (CanvasOpacity c "team") w)
  = match c with
    | Some c0 => set_document (update c0 (set_opacity "1") (document w)) w
    | None => w
    end.
Proof. now destruct c. Qed.

Lemma bees_callback (t : ref) (w : World) :
  lookup_id "team" (document w) = Some t -> class_at "active" t w = Some true ->
  settle (run_task ShowTeamBees w)
  = match lookup_id "canvas-container" (document w) with
    | Some c0 => set_document (update c0 (set_opacity "1") (document w))
                   (set_teamBeeGroup_visible true w)
    | None => set_teamBeeGroup_visible true w
    end.
Proof.
  intros Ht Hact. unfold class_at in Hact. cbn [run_task].
  unfold getElementById, classList_contains, read_element, style_opacity_set,
    bind, gets, deref, ret, throw, modify_element, modify.
  rewrite Ht. destruct (nth_error (document w) t) as [e|]; [|discriminate].
  cbn in Hact. injection Hact as ->.
  cbn [document set_teamBeeGroup_visible].
  destruct (lookup_id "canvas-container" (document w)); reflexivity.
Qed.

Lemma lit_facts (s : string) (c0 t : ref) (w : World) :
  let w' := set_document (update c0 (set_opacity "1") (document w)) w in
  lookup_id s (document w') = lookup_id s (document w)
  /\ class_at "active" t w' = class_at "active" t w
  /\ (lookup_id "canvas-container" (document w) = Some c0 -> opacity_at c0 w' = Some "1").
Proof.
  cbn [document set_document]. split; [|split].
  - apply (lookup_id_update T_all). apply tame_set_opacity.
  - unfold class_at. cbn [document set_document]. rewrite nth_error_update.
    destruct (t =? c0)%nat; [|reflexivity].
    destruct (nth_error (document w) t); [|reflexivity]. cbn [option_map].
    now rewrite has_class_set_opacity.
  - intro Hc. destruct (lookup_id_Some _ _ _ Hc) as (e & He & _).
    unfold opacity_at. cbn [document set_document].
    now rewrite nth_error_update, Nat.eqb_refl, He.
Qed.

Lemma bees_on_their_way_step (t : ref) (c : option ref) (C B : Timer) (w : World) (e : event) :
  callback C = CanvasOpacity c "team" -> callback B = ShowTeamBees ->
  (due C < due B)%nat -> is_click e = false ->
  bees_on_their_way t c C B w ->
  bees_on_their_way t c C B (step w e) /\ now (step w e) = (now w + elapsed e)%nat.
Proof.
  intros HC HB Hlt He (Ht & Hact & Hc & Hphase).
  destruct e as [pageId| |]; [discriminate| |]; cbn [step elapsed].
  2:{ split; [|cbn; lia]. unfold bees_on_their_way, class_at, canvas_lit, opacity_at in *.
      cbn [document timers now teamBeeGroup_visible animate]. auto. }
  assert (Hwait : forall w0 : World, document w0 = document w ->
            class_at "active" t w0 = Some true /\ lookup_id "team" (document w0) = Some t
            /\ lookup_id "canvas-container" (document w0) = c
            /\ forall r, opacity_at r w0 = opacity_at r w).
  { intros w0 D. unfold class_at, opacity_at in *. rewrite D. auto. }
  destruct Hphase as [(T1 & N1)|[(T1 & N1 & L1)|(T1 & V1 & L1)]].
  - destruct (Nat.lt_ge_cases (S (now w)) (due C)) as [Hnot|Hdue].
    + rewrite tick_idle by (unfold idle_for; rewrite T1; repeat constructor; lia).
      split; [|cbn; lia].
      destruct (Hwait (set_now (S (now w)) w) eq_refl) as (A1 & A2 & A3 & _).
      refine (conj A2 (conj A1 (conj A3 _))). left. split; [exact T1 | exact Hnot].
    + set (w0 := set_timers [B] (set_now (S (now w)) w)).
      destruct (Hwait w0 eq_refl) as (A1 & A2 & A3 & _).
      rewrite (tick_fires_first w C [B] T1); rewrite ?HC, ?canvas_callback;
        try (destruct c; reflexivity); [| lia | repeat constructor; lia].
      fold w0. destruct c as [c0|].
      * destruct (lit_facts "team" c0 t w0) as (B1 & B2 & _).
        destruct (lit_facts "canvas-container" c0 t w0) as (B3 & _ & B4).
        split; [|cbn; lia]. unfold bees_on_their_way.
        rewrite B1, B2, B3. refine (conj A2 (conj A1 (conj A3 _))). right. left.
        split; [reflexivity|]. split; [cbn; lia|].
        intros c1 E. injection E as <-. now apply B4.
      * split; [|cbn; lia]. refine (conj A2 (conj A1 (conj A3 _))). right. left.
        split; [reflexivity|]. split; [cbn; lia | discriminate].
  - destruct (Nat.lt_ge_cases (S (now w)) (due B)) as [Hnot|Hdue].
    + rewrite tick_idle by (unfold idle_for; rewrite T1; repeat constructor; lia).
      split; [|cbn; lia].
      destruct (Hwait (set_now (S (now w)) w) eq_refl) as (A1 & A2 & A3 & A4).
      refine (conj A2 (conj A1 (conj A3 _))). right. left.
      split; [exact T1|]. split; [exact Hnot|].
      intros c0 E. rewrite A4. now apply L1.
    + set (w0 := set_timers [] (set_now (S (now w)) w)).
      destruct (Hwait w0 eq_refl) as (A1 & A2 & A3 & A4).
      assert (Hcb : settle (run_task (callback B) w0)
                    = match c with
                      | Some c0 => set_document (update c0 (set_opacity "1") (document w0))
                                     (set_teamBeeGroup_visible true w0)
                      | None => set_teamBeeGroup_visible true w0
                      end)
        by (now rewrite HB, (bees_callback t w0 A2 A1), A3).
      rewrite (tick_fires_first w B [] T1); fold w0; rewrite ?Hcb;
        try (destruct c; reflexivity); [| lia | constructor].
      destruct c as [c0|].
      * set (w0' := set_teamBeeGroup_visible true w0).
        destruct (lit_facts "team" c0 t w0') as (B1 & B2 & _).
        destruct (lit_facts "canvas-container" c0 t w0') as (B3 & _ & B4).
        split; [|cbn; lia]. unfold bees_on_their_way.
        change (document w0) with (document w0'). rewrite B1, B2, B3.
        refine (conj A2 (conj A1 (conj A3 _))). right. right.
        split; [reflexivity|]. split; [reflexivity|].
        intros c1 E. injection E as <-. now apply B4.
      * split; [|cbn; lia]. refine (conj A2 (conj A1 (conj A3 _))). right. right.
        split; [reflexivity|]. split; [reflexivity | discriminate].
  - rewrite tick_idle by (unfold idle_for; rewrite T1; constructor).
    split; [|cbn; lia].
    destruct (Hwait (set_now (S (now w)) w) eq_refl) as (A1 & A2 & A3 & A4).
    refine (conj A2 (conj A1 (conj A3 _))). right. right.
    split; [exact T1|]. split; [exact V1|].
    intros c0 E. rewrite A4. now apply L1.
Qed.

Lemma bees_on_their_way_run (t : ref) (c : option ref) (C B : Timer) (es : list event)
      (w : World) :
  callback C = CanvasOpacity c "team" -> callback B = ShowTeamBees ->
  (due C < due B)%nat -> forallb (fun e => negb (is_click e)) es = true ->
  bees_on_their_way t c C B w ->
  bees_on_their_way t c C B (run w es) /\ now (run w es) = (now w + ticks es)%nat.
Proof.
  intros HC HB Hlt. revert w. induction es as [|e es IH]; intros w Hes Hinv.
  - cbn. split; [exact Hinv | lia].
  - cbn [forallb] in Hes. apply andb_true_iff in Hes. destruct Hes as [He Hes].
    apply negb_true_iff in He.
    destruct (bees_on_their_way_step t c C B w e HC HB Hlt He Hinv) as (H1 & N1).
    cbn [run fold_left]. fold (run (step w e) es).
    destruct (IH (step w e) Hes H1) as (H2 & N2). split; [exact H2|].
    rewrite N2, N1, ticks_cons. lia.
Qed.

(** X15.  After a switch to the team page, from a state the page can reach
    in which no timer is pending: once 2000 ms have passed without a click,
    whatever frames were drawn, the team bees are shown and the canvas is at
    full opacity. *)
Theorem team_bees_appear (d : Document) (key : option string) (es0 es : list event)
        (w w1 : World) (t : ref) :
  w = run (initial_world d key) es0 ->
  timers w = [] ->
  switchPage_finish "team" w = Normal tt w1 ->
  lookup_id "team" (document w) = Some t ->
  forallb (fun e => negb (is_click e)) es = true ->
  (2000 <= ticks es)%nat ->
  teamBeeGroup_visible (run w1 es) = true
  /\ forall c, lookup_id "canvas-container" (document w) = Some c ->
               opacity_at c (run w1 es) = Some "1".
Proof.
  intros Hw Ht Hrun Hteam Hes Hticks.
  assert (Hid : bee_id_used w) by (rewrite Hw; apply bee_id_used_run; exact I).
  destruct (switchPage_finish_arms "team" w w1 Hid Ht ltac:(discriminate) Hrun)
    as (N1 & T1 & _ & L1 & A1 & _).
  cbn [String.eqb Ascii.eqb Bool.eqb] in T1.
  set (c := lookup_id "canvas-container" (document w)) in *.
  set (C := mkTimer (nextTimerId w) (now w + 800) (CanvasOpacity c "team")) in *.
  set (B := mkTimer (S (nextTimerId w)) (now w + 2000) ShowTeamBees) in *.
  assert (Hinv : bees_on_their_way t c C B w1).
  { unfold bees_on_their_way. rewrite !L1. repeat split; auto.
    left. split; [exact T1 | cbn; lia]. }
  destruct (bees_on_their_way_run t c C B es w1 eq_refl eq_refl ltac:(cbn; lia) Hes Hinv)
    as ((_ & _ & _ & Hphase) & Hnow).
  destruct Hphase as [(_ & N)|[(_ & N & _)|(_ & V & L)]]; cbn [due C B] in *; try lia.
  split; [exact V | exact L].
Qed.

Lemma team_bees_appear_witness :
  teamBeeGroup_visible (run (settle (switchPage_finish "team" sample_world))
                          (wait 1000 ++ Frame :: wait 1000)) = true.
Proof.
  refine (proj1 (team_bees_appear sample_document (Some "key") []
                   (wait 1000 ++ Frame :: wait 1000) sample_world
                   (settle (switchPage_finish "team" sample_world)) 12%nat
                   eq_refl eq_refl _ eq_refl _ _)).
  - vm_compute. reflexivity.
  - vm_compute. reflexivity.
  - apply Nat.leb_le. vm_compute. reflexivity.
Defined.

(** X3.  Whatever is clicked, however long one waits and however many
    frames are drawn: every element keeps its id, its onclick attribute, its
    first div, its content and every class other than the tokens the script
    toggles; the stored key is not touched and no request is sent. *)
Theorem navigation_keeps_structure (w : World) (es : list event) :
  Forall2 restyled (document w) (document (run w es))
  /\ localStorage (run w es) = localStorage w
  /\ requests (run w es) = requests w.
Proof. exact (run_restyles w es). Qed.

Lemma advance_in_range (bs : BookState) : book_in_range bs -> book_in_range (advance bs).
Proof.
  intros [[H0 H1] Ht]. unfold book_in_range, advance, lerpSpeed. cbn [value target].
  split; [|exact Ht].
  destruct (Qltb (target bs) (value bs)); destruct Ht as [Ht|Ht]; rewrite Ht; split; lra.
Qed.

(** X4.  The openness of the book never leaves [0,1] and its target is
    always 0 or 1, whatever is clicked and whenever. *)
Theorem openness_stays_in_range (w : World) (es : list event) :
  book_in_range (bookState w) -> book_in_range (bookState (run w es)).
Proof.
  revert w. induction es as [|e es IH]; intros w H; cbn [run fold_left]; [exact H|].
  apply IH. destruct e as [pageId| |].
  - destruct (navigates_step w (Click pageId)) as (_ & V & G & _); [discriminate|].
    destruct H as [Hv Ht]. unfold book_in_range. rewrite V. split; [exact Hv|].
    destruct G as [G|[G|G]]; rewrite G; [exact Ht | left | right]; reflexivity.
  - destruct (navigates_step w Tick) as (_ & V & G & _); [discriminate|].
    destruct H as [Hv Ht]. unfold book_in_range. rewrite V. split; [exact Hv|].
    destruct G as [G|[G|G]]; rewrite G; [exact Ht | left | right]; reflexivity.
  - cbn. now apply advance_in_range.
Qed.

Lemma openness_stays_in_range_witness :
  book_in_range (bookState (run sample_world [Click "hive"; Frame; Tick; Frame])).
Proof.
  apply openness_stays_in_range. unfold book_in_range. cbn. split; [lra | right; reflexivity].
Defined.

(** X5.  The parallax weight and the opacity of the team bees stay within
    [0,1], whatever happens. *)
Theorem parallax_and_fade_in_range (w : World) (es : list event) :
  0 <= currentParallaxWeight w <= 1 -> 0 <= teamBeeOpacity w <= 1 ->
  0 <= currentParallaxWeight (run w es) <= 1 /\ 0 <= teamBeeOpacity (run w es) <= 1.
Proof.
  revert w. induction es as [|e es IH]; intros w Hp Ho; cbn [run fold_left]; [auto|].
  assert (H : 0 <= currentParallaxWeight (step w e) <= 1
              /\ 0 <= teamBeeOpacity (step w e) <= 1).
  { destruct e as [pageId| |].
    - destruct (navigates_step w (Click pageId)) as (_ & _ & _ & O & P & _); [discriminate|].
      now rewrite O, P.
    - destruct (navigates_step w Tick) as (_ & _ & _ & O & P & _); [discriminate|].
      now rewrite O, P.
    - cbn. split.
      + match goal with
        | |- context [if ?b then 0.0 else 1.0] => destruct b
        end; split; lra.
      + destruct (teamBeeGroup_visible w); [|split; lra].
        destruct (Qltb_spec (teamBeeOpacity w) 1.0) as [Hlt|Hge]; [|exact Ho].
        unfold Qgtb.
        destruct (Qltb_spec 1.0 (teamBeeOpacity w + 0.01)); split; lra. }
  destruct H. now apply IH.
Qed.

Lemma parallax_and_fade_in_range_witness :
  0 <= currentParallaxWeight (run sample_world [Click "team"; Frame]) <= 1
  /\ 0 <= teamBeeOpacity (run sample_world [Click "team"; Frame]) <= 1.
Proof. apply parallax_and_fade_in_range; cbn; split; lra. Defined.

(** X6.  While the bee flag is off a frame puts the bees' opacity at 0;
    while it is on, [n] frames raise it by 0.01 each, up to 1. *)
Theorem bee_fade_in (w : World) :
  (teamBeeGroup_visible w = false -> teamBeeOpacity (step w Frame) == 0)
  /\ (teamBeeGroup_visible w = true -> teamBeeOpacity w <= 1 ->
      forall n, teamBeeOpacity (run w (repeat Frame n))
                == Qmin 1 (teamBeeOpacity w + inject_Z (Z.of_nat n) * 0.01)).
Proof.
  split.
  - intro H. cbn. rewrite H. reflexivity.
  - intros Hv Ho n. revert w Hv Ho. induction n as [|n IH]; intros w Hv Ho.
    + cbn [repeat run fold_left]. change (inject_Z (Z.of_nat 0)) with 0.
      rewrite Q.min_r; lra.
    + cbn [repeat run fold_left].
      assert (Hv' : teamBeeGroup_visible (step w Frame) = true) by exact Hv.
      assert (Hstep : teamBeeOpacity (step w Frame) == Qmin 1 (teamBeeOpacity w + 0.01)).
      { cbn. rewrite Hv.
        destruct (Qltb_spec (teamBeeOpacity w) 1.0) as [Hlt|Hge].
        - unfold Qgtb. destruct (Qltb_spec 1.0 (teamBeeOpacity w + 0.01)).
          + rewrite Q.min_l; lra.
          + rewrite Q.min_r; lra.
        - rewrite Q.min_l; lra. }
      assert (Ho' : teamBeeOpacity (step w Frame) <= 1).
      { rewrite Hstep. apply Q.le_min_l. }
      fold (run (step w Frame) (repeat Frame n)). rewrite (IH _ Hv' Ho').
      rewrite Nat2Z.inj_succ. unfold Z.succ. rewrite inject_Z_plus.
      change (inject_Z 1) with 1.
      destruct (Qlt_le_dec 1 (teamBeeOpacity w + 0.01)) as [H1|H1].
      * rewrite (Q.min_l 1 (teamBeeOpacity w + 0.01)) in Hstep by lra.
        rewrite Hstep.
        assert (0 <= inject_Z (Z.of_nat n))
          by (change 0 with (inject_Z 0); rewrite <- Zle_Qle; lia).
        rewrite !Q.min_l; try lra; nra.
      * rewrite (Q.min_r 1 (teamBeeOpacity w + 0.01)) in Hstep by lra.
        rewrite Hstep.
        setoid_replace (teamBeeOpacity w + (inject_Z (Z.of_nat n) + 1) * 0.01)
          with (teamBeeOpacity w + 0.01 + inject_Z (Z.of_nat n) * 0.01) by ring.
        reflexivity.
Qed.

Lemma bee_fade_in_witness :
  teamBeeOpacity (step sample_world Frame) == 0.
Proof. apply (proj1 (bee_fade_in sample_world)). reflexivity. Defined.

(** X7.  After a frame the pop-up content is shown when the openness is
    0.6041 or more and hidden when it is 0.6039 or less: the switch lies at
    0.604, where the rounding of line 749 decides
    ([binary64_popup_at_0604]). *)
Theorem popup_visible_threshold (w : World) :
  (0.6041 <= value (bookState (animate w)) -> popupGroup_visible (scene (animate w)) = true)
  /\ (value (bookState (animate w)) <= 0.6039 ->
      popupGroup_visible (scene (animate w)) = false).
Proof.
  cbn [animate scene popupGroup_visible bookState].
  set (v := value (advance (bookState w))). unfold Qgtb at 1 2. split; intro H.
  - apply Qltb_lt. derive_cases v; const_div; lra.
  - apply not_true_is_false. rewrite Qltb_lt. derive_cases v; const_div; lra.
Qed.

(** X8.  The derived parameters follow the openness monotonically: as the
    book opens the content and the book never shrink and the hinge angle
    never grows. *)
Theorem derive_monotone (u v : Q) :
  u <= v ->
  contentScale (derive u) <= contentScale (derive v)
  /\ bookRotation (derive v) <= bookRotation (derive u)
  /\ currentBookScale (derive u) <= currentBookScale (derive v).
Proof.
  intro H. unfold derive, Qgtb.
  destruct (Qltb_spec 0.6 u); [|destruct (Qltb_spec 0.2 u)];
    (destruct (Qltb_spec 0.6 v); [|destruct (Qltb_spec 0.2 v)]);
    cbn [contentScale bookRotation currentBookScale]; const_div; repeat split; lra.
Qed.

Lemma derive_monotone_witness :
  contentScale (derive 0.3) <= contentScale (derive 0.7)
  /\ bookRotation (derive 0.7) <= bookRotation (derive 0.3)
  /\ currentBookScale (derive 0.3) <= currentBookScale (derive 0.7).
Proof. apply derive_monotone. lra. Defined.

(** ** The stored key *)

(** X16.  [manageApiKey]: when the prompt is cancelled nothing changes;
    otherwise the item is removed when the answer is blank and set to the
    trimmed answer when it is not, so that the key read back afterwards is
    the trimmed answer; trimming it again changes nothing, and nothing but
    the stored key is touched.  White space is all of what [trim()] takes,
    the no-break space, the ideographic space and the byte-order mark
    among it ([trim_unicode_space]). *)
Theorem manageApiKey_stores_trimmed (env : Env) (w : World) :
  match prompt_answer env with
  | None => manageApiKey env w = Normal tt w
  | Some answer =>
      exists w', manageApiKey env w = Normal tt w'
        /\ localStorage w' = (if String.eqb (trim answer) "" then None else Some (trim answer))
        /\ getApiKey w' = Normal (trim answer) w'
        /\ trim (trim answer) = trim answer
        /\ set_localStorage (localStorage w) w' = w
  end.
Proof.
  unfold manageApiKey, bind, getApiKey, gets, modify, ret.
  destruct (prompt_answer env) as [answer|]; [|reflexivity].
  destruct (String.eqb_spec (trim answer) "") as [E|E]; eexists; (split; [reflexivity|]);
    cbn; rewrite ?E; repeat split; auto using trim_idempotent; now destruct w.
Qed.

(** An answer of one no-break space clears the key; around a key, the
    no-break space and the ideographic space go. *)
Lemma manageApiKey_unicode_space :
  let asked answer := {| confirm_answer := true; prompt_answer := Some answer;
                         fetch_outcome := fun _ _ => NetworkError "";
                         random_category := 0; random_seed := 0 |} in
  localStorage (settle (manageApiKey (asked nbsp) sample_world)) = None
  /\ localStorage (settle (manageApiKey (asked (nbsp ++ "k" ++ ideographic_space))
                             sample_world)) = Some "k".
Proof. split; vm_compute; reflexivity. Qed.

Lemma checkApiKey_outcome (env : Env) (w : World) :
  exists b w' k, checkApiKey env w = Normal b w'
    /\ getApiKey w' = Normal k w'
    /\ (b = true <-> k <> "")
    /\ set_localStorage (localStorage w) w' = w.
Proof.
  unfold checkApiKey, manageApiKey, bind, getApiKey, gets, modify, ret.
  assert (Hw : set_localStorage (localStorage w) w = w) by now destruct w.
  destruct (String.eqb_spec match localStorage w with Some k => k | None => "" end "")
    as [E|E].
  - destruct (confirm_answer env).
    + destruct (prompt_answer env) as [answer|].
      * destruct (String.eqb_spec (trim answer) "") as [E'|E'];
          do 3 eexists; (split; [reflexivity|]); (split; [reflexivity|]); cbn.
        -- split; [|now destruct w]. split; [discriminate | congruence].
        -- split; [|now destruct w].
           destruct (String.eqb_spec (trim answer) ""); [contradiction|]. now split.
      * do 3 eexists. split; [reflexivity|]. split; [reflexivity|]. rewrite E.
        split; [|exact Hw]. cbn. split; [discriminate | congruence].
    + do 3 eexists. split; [reflexivity|]. split; [reflexivity|]. rewrite E.
      split; [|exact Hw]. split; [discriminate | congruence].
  - do 3 eexists. split; [reflexivity|]. split; [reflexivity|].
    split; [|exact Hw]. now split.
Qed.

(** X17.  [checkApiKey] answers true exactly when a key can be read back
    afterwards; it touches nothing but the stored key. *)
Theorem checkApiKey_reports_key (env : Env) (w : World) :
  exists b w' k, checkApiKey env w = Normal b w'
    /\ getApiKey w' = Normal k w'
    /\ (b = true <-> k <> "")
    /\ set_localStorage (localStorage w) w' = w.
Proof. exact (checkApiKey_outcome env w). Qed.

(** ** What the text-service client sends *)

Lemma keeps_get_prop (R : World -> World -> Prop) (v : JSValue) (key : string) :
  (forall w, R w w) -> keeps R (get_prop v key).
Proof. intros HR w. unfold get_prop. destruct (read_prop v key); apply HR. Qed.

Lemma keeps_response_json (R : World -> World -> Prop) (body : Error + JSON) :
  (forall w, R w w) -> keeps R (response_json body).
Proof. intros HR w. destruct body; apply HR. Qed.

Lemma keeps_try_catch {A : Type} (R : World -> World -> Prop) (m : M A) (h : Error -> M A) :
  (forall a b c, R a b -> R b c -> R a c) ->
  keeps R m -> (forall e, keeps R (h e)) -> keeps R (try_catch m h).
Proof.
  intros Htr Hm Hh w. unfold try_catch. specialize (Hm w).
  destruct (m w) as [a w1|e w1]; cbn in *; [exact Hm|].
  apply (Htr _ _ _ Hm). apply Hh.
Qed.

Lemma eq_trans3 (a b c : World) : a = b -> b = c -> a = c.
Proof. congruence. Qed.

(** The body of the [try] of [callGemini] sends one request and changes
    nothing else, however it ends. *)
Lemma callGemini_try_sends (env : Env) (url prompt : string) (w : World) :
  exists v,
    try_catch
      (response <- fetch env url prompt ;;
       let (status, body) := response in
       (if negb (ok status) then
          errData <- response_json body ;;
          throw (mkError "Error" ("API Error: " ++ decimal status))
        else ret tt) ;;;
       data <- response_json body ;;
       candidates <- get_prop data "candidates" ;;
       candidate <- get_prop candidates "0" ;;
       content <- get_prop candidate "content" ;;
       parts <- get_prop content "parts" ;;
       part <- get_prop parts "0" ;;
       get_prop part "text")
      (fun error => ret (Val (JString (connection_error (err_message error))))) w
    = Normal v (set_requests (requests w ++ [mkRequest url prompt])%list w).
Proof.
  unfold try_catch, bind at 1, fetch.
  destruct (fetch_outcome env url prompt) as [message|status body]; [unfold ret; eauto|].
  set (w1 := set_requests _ w).
  match goal with
  | |- exists v, match ?m w1 with _ => _ end = _ =>
      assert (K : keeps eq m)
  end.
  { repeat first
      [ apply keeps_get_prop; reflexivity | apply keeps_response_json; reflexivity
      | apply keeps_ret; reflexivity | apply keeps_throw; reflexivity
      | match goal with |- keeps _ (if ?b then _ else _) => destruct b end
      | apply keeps_bind; [exact eq_trans3 | | intro] ]. }
  specialize (K w1). cbv beta in K.
  match goal with
  | |- exists v, match ?m w1 with _ => _ end = _ => destruct (m w1) as [v w2|e w2]
  end; cbn in K; subst w2; unfold ret; eauto.
Qed.

Lemma callGemini_outcome (env : Env) (prompt : string) (w : World) :
  exists v w' k, callGemini env prompt w = Normal v w'
    /\ getApiKey w' = Normal k w'
    /\ document w' = document w
    /\ (if String.eqb k ""
        then requests w' = requests w /\ v = Val (JString no_key_message)
        else requests w' = (requests w ++ [mkRequest (endpoint ++ k) prompt])%list).
Proof.
  unfold callGemini. unfold bind at 1. unfold getApiKey at 1, gets at 1.
  unfold bind at 1.
  destruct (String.eqb_spec match localStorage w with Some k => k | None => "" end "")
    as [E|E].
  - destruct (checkApiKey_outcome env w) as (b & w1 & k & Hrun & Hk & Hb & Hw).
    rewrite Hrun.
    assert (Hdoc : document w1 = document w) by (rewrite <- Hw; reflexivity).
    assert (Hreq : requests w1 = requests w) by (rewrite <- Hw; reflexivity).
    destruct b; cbn [negb].
    + unfold bind at 1. rewrite Hk.
      destruct (callGemini_try_sends env (endpoint ++ k) prompt w1) as (v & Hv).
      rewrite Hv. exists v. eexists. exists k. split; [reflexivity|].
      unfold getApiKey, gets in *. cbn [localStorage set_requests document requests].
      injection Hk as Hk. rewrite Hk.
      destruct (String.eqb_spec k "") as [Ek|_]; [now apply Hb in Ek|].
      repeat split; congruence.
    + unfold ret. exists (Val (JString no_key_message)), w1, k.
      split; [reflexivity|]. split; [exact Hk|]. split; [exact Hdoc|].
      destruct (String.eqb_spec k "") as [_|Ek]; [auto|].
      apply Hb in Ek. discriminate.
  - unfold ret at 1. cbn [negb]. unfold bind at 1. unfold getApiKey at 1, gets at 1.
    set (k := match localStorage w with Some k => k | None => "" end) in *.
    destruct (callGemini_try_sends env (endpoint ++ k) prompt w) as (v & Hv).
    rewrite Hv. exists v. eexists. exists k. split; [reflexivity|].
    unfold getApiKey, gets. cbn [localStorage set_requests document requests]. fold k.
    destruct (String.eqb_spec k "") as [|_]; [contradiction|]. repeat split.
Qed.

(** The [try] of [callGemini] when the fetch rejects or the status is not
    2xx: the [catch] hands back the connection-error text. *)
Lemma callGemini_try_failure (env : Env) (url prompt : string) (w : World) :
  match fetch_outcome env url prompt with
  | NetworkError message =>
      exists w',
        try_catch
          (response <- fetch env url prompt ;;
           let (status, body) := response in
           (if negb (ok status) then
              errData <- response_json body ;;
              throw (mkError "Error" ("API Error: " ++ decimal status))
            else ret tt) ;;;
           data <- response_json body ;;
           candidates <- get_prop data "candidates" ;;
           candidate <- get_prop candidates "0" ;;
           content <- get_prop candidate "content" ;;
           parts <- get_prop content "parts" ;;
           part <- get_prop parts "0" ;;
           get_prop part "text")
          (fun error => ret (Val (JString (connection_error (err_message error))))) w
        = Normal (Val (JString (connection_error message))) w'
  | Response status body =>
      ok status = false ->
      exists w',
        try_catch
          (response <- fetch env url prompt ;;
           let (status, body) := response in
           (if negb (ok status) then
              errData <- response_json body ;;
              throw (mkError "Error" ("API Error: " ++ decimal status))
            else ret tt) ;;;
           data <- response_json body ;;
           candidates <- get_prop data "candidates" ;;
           candidate <- get_prop candidates "0" ;;
           content <- get_prop candidate "content" ;;
           parts <- get_prop content "parts" ;;
           part <- get_prop parts "0" ;;
           get_prop part "text")
          (fun error => ret (Val (JString (connection_error (err_message error))))) w
        = Normal (Val (JString (connection_error
                                  match body with
                                  | inl e => err_message e
                                  | inr _ => "API Error: " ++ decimal status
                                  end))) w'
  end.
Proof.
  unfold bind, try_catch, fetch, ret, throw.
  destruct (fetch_outcome env url prompt) as [message|status body]; [eauto|].
  intros Hok. rewrite Hok. cbn [negb].
  destruct body as [e|j]; unfold response_json, throw, ret; eauto.
Qed.

(** C9.  [callGemini] never throws, whatever the prompt, the stored key, the
    answers to [confirm] and [prompt] and the outcome of the fetch.  With
    [k] the key that can be read back afterwards - the one that was stored,
    or the one entered through [checkApiKey] during the call - a fetch that
    rejects or a response that is not 2xx makes it return the text of
    line 72, with the error's message in it. *)
Theorem callGemini_never_throws (env : Env) (prompt : string) (w : World) :
  exists v w' k, callGemini env prompt w = Normal v w'
    /\ getApiKey w' = Normal k w'
    /\ (forall key, localStorage w = Some key -> key <> "" -> k = key)
    /\ (k <> "" ->
        match fetch_outcome env (endpoint ++ k) prompt with
        | NetworkError message =>
            v = Val (JString ("連線發生錯誤：" ++ message ++ "。" ++ nl
                              ++ "請檢查您的 API Key 是否正確。"))
        | Response status body =>
            ok status = false ->
            v = Val (JString ("連線發生錯誤："
                              ++ match body with
                                 | inl e => err_message e
                                 | inr _ => "API Error: " ++ decimal status
                                 end
                              ++ "。" ++ nl ++ "請檢查您的 API Key 是否正確。"))
        end).
Proof.
  assert (Hfail : forall k w1 v w2,
             try_catch
               (response <- fetch env (endpoint ++ k) prompt ;;
                let (status, body) := response in
                (if negb (ok status) then
                   errData <- response_json body ;;
                   throw (mkError "Error" ("API Error: " ++ decimal status))
                 else ret tt) ;;;
                data <- response_json body ;;
                candidates <- get_prop data "candidates" ;;
                candidate <- get_prop candidates "0" ;;
                content <- get_prop candidate "content" ;;
                parts <- get_prop content "parts" ;;
                part <- get_prop parts "0" ;;
                get_prop part "text")
               (fun error => ret (Val (JString (connection_error (err_message error))))) w1
             = Normal v w2 ->
             match fetch_outcome env (endpoint ++ k) prompt with
             | NetworkError message => v = Val (JString (connection_error message))
             | Response status body =>
                 ok status = false ->
                 v = Val (JString (connection_error
                                     match body with
                                     | inl e => err_message e
                                     | inr _ => "API Error: " ++ decimal status
                                     end))
             end).
  { intros k w1 v w2 Hv. pose proof (callGemini_try_failure env (endpoint ++ k) prompt w1) as H.
    destruct (fetch_outcome env (endpoint ++ k) prompt) as [message|status body].
    - destruct H as (w3 & H). congruence.
    - intro Hok. destruct (H Hok) as (w3 & H3). congruence. }
  unfold callGemini. unfold bind at 1. unfold getApiKey at 1, gets at 1.
  unfold bind at 1.
  destruct (String.eqb_spec match localStorage w with Some k => k | None => "" end "")
    as [E|E].
  - destruct (checkApiKey_outcome env w) as (b & w1 & k & Hrun & Hk & Hb & Hw).
    rewrite Hrun. destruct b; cbn [negb].
    + unfold bind at 1. rewrite Hk.
      destruct (callGemini_try_sends env (endpoint ++ k) prompt w1) as (v & Hv).
      rewrite Hv. exists v. eexists. exists k. split; [reflexivity|].
      split; [|split].
      * unfold getApiKey, gets in *. cbn [localStorage set_requests].
        injection Hk as Hk. now rewrite Hk.
      * intros key Hkey Hne. rewrite Hkey in E. contradiction.
      * intros _. exact (Hfail k w1 v _ Hv).
    + unfold ret. exists (Val (JString no_key_message)), w1, k.
      split; [reflexivity|]. split; [exact Hk|]. split.
      * intros key Hkey Hne. rewrite Hkey in E. contradiction.
      * intro Hne. apply Hb in Hne. discriminate.
  - unfold ret at 1. cbn [negb]. unfold bind at 1. unfold getApiKey at 1, gets at 1.
    set (k := match localStorage w with Some k => k | None => "" end) in *.
    destruct (callGemini_try_sends env (endpoint ++ k) prompt w) as (v & Hv).
    rewrite Hv. exists v. eexists. exists k. split; [reflexivity|].
    split; [|split].
    + unfold getApiKey, gets. cbn [localStorage set_requests]. reflexivity.
    + intros key Hkey _. unfold k. now rewrite Hkey.
    + intros _. exact (Hfail k w v _ Hv).
Qed.

(** No key is stored; the offer to set one is taken and [ key ] typed in;
    the fetch is rejected.  The promise is fulfilled with the text of
    line 72 and the key is in place. *)
Lemma callGemini_never_throws_witness :
  let env := {| confirm_answer := true;
                prompt_answer := Some " key ";
                fetch_outcome := fun _ _ => NetworkError "Failed to fetch";
                random_category := 0;
                random_seed := 0 |} in
  exists w',
    callGemini env "bees" (initial_world sample_document None)
    = Normal (Val (JString ("連線發生錯誤：Failed to fetch。" ++ nl
                            ++ "請檢查您的 API Key 是否正確。"))) w'
    /\ getApiKey w' = Normal "key" w'.
Proof.
  intro env.
  destruct (callGemini_never_throws env "bees" (initial_world sample_document None))
    as (v & w' & k & Hrun & Hk & _ & Hfail).
  assert (Ek : k = "key").
  { pose proof Hrun as H. vm_compute in H. injection H as _ Hw. subst w'.
    vm_compute in Hk. injection Hk as Hk. now subst k. }
  subst k. specialize (Hfail ltac:(discriminate)). cbn [fetch_outcome env] in Hfail.
  exists w'. split; [|exact Hk]. rewrite Hrun, Hfail. reflexivity.
Defined.

(** X18.  [callGemini] sends at most one request.  When no key is to be
    had it sends none and answers with the no-key text; otherwise the one
    request goes to the endpoint with the stored, non-empty key and carries
    the prompt.  The page is not touched. *)
Theorem callGemini_requests (env : Env) (prompt : string) (w : World) :
  exists v w' k, callGemini env prompt w = Normal v w'
    /\ getApiKey w' = Normal k w'
    /\ document w' = document w
    /\ (if String.eqb k ""
        then requests w' = requests w /\ v = Val (JString no_key_message)
        else requests w' = (requests w ++ [mkRequest (endpoint ++ k) prompt])%list).
Proof. exact (callGemini_outcome env prompt w). Qed.

Lemma callGemini_with_key (env : Env) (prompt key : string) (w : World) :
  localStorage w = Some key -> key <> "" ->
  exists v, callGemini env prompt w
            = Normal v (set_requests (requests w ++ [mkRequest (endpoint ++ key) prompt])%list w).
Proof.
  intros Hk Hne. unfold callGemini. unfold bind at 1. unfold getApiKey at 1, gets at 1.
  unfold bind at 1. rewrite Hk.
  destruct (String.eqb_spec key "") as [|_]; [contradiction|].
  unfold ret at 1. cbn [negb]. unfold bind at 1. unfold getApiKey at 1, gets at 1. rewrite Hk.
  apply callGemini_try_sends.
Qed.

Lemma only_document_trans (a b c : World) :
  set_document (document a) b = a -> set_document (document b) c = b ->
  set_document (document a) c = a.
Proof. intros H1 H2. rewrite <- H1. rewrite <- H2 at 2. now destruct c. Qed.

Lemma keeps_only_document_element (r : option ref) (f : Element -> Element) :
  keeps (fun a b => set_document (document a) b = a) (x <- deref r ;; modify_element x f).
Proof. intro w. destruct r; cbn; now destruct w. Qed.

(** Showing the reply changes the document and nothing else. *)
Lemma show_species_only_document (JSON_parse : string -> Error + JSON)
      (contentEl loadingEl : option ref) (randomCategory : string) (reply : JSValue) :
  keeps (fun a b => set_document (document a) b = a)
        (show_species JSON_parse contentEl loadingEl randomCategory reply).
Proof.
  assert (Hre : forall w, set_document (document w) w = w) by (intro w; now destruct w).
  unfold show_species.
  apply keeps_bind; [exact only_document_trans | | intro jsonStr].
  { destruct reply as [|[]]; try (apply keeps_throw; exact Hre). apply keeps_ret; exact Hre. }
  apply keeps_bind; [exact only_document_trans | | intros _].
  2:{ apply keeps_only_document_element. }
  apply keeps_try_catch; [exact only_document_trans | | intro e; apply keeps_only_document_element].
  repeat first
    [ apply keeps_get_prop; exact Hre
    | apply keeps_only_document_element
    | apply keeps_ret; exact Hre | apply keeps_throw; exact Hre
    | match goal with |- keeps _ (match ?b with _ => _ end) => destruct b end
    | apply keeps_bind; [exact only_document_trans | | intro] ].
Qed.

(** X19.  [generateSpeciesProfile]: whenever no key can be read back after
    the call, nothing was shown and nothing was sent. *)
Theorem generateSpeciesProfile_without_key (JSON_parse : string -> Error + JSON)
        (env : Env) (w : World) :
  let w' := settle (generateSpeciesProfile JSON_parse env w) in
  getApiKey w' = Normal "" w' ->
  document w' = document w /\ requests w' = requests w.
Proof.
  assert (Hrest : forall (w1 : World) key loadingEl contentEl,
            localStorage w1 = Some key -> key <> "" ->
            let m := (classList_remove loadingEl ["hidden"] ;;;
                      let randomCategory :=
                        nth (random_category env mod List.length categories) categories "" in
                      let randomSeed := random_seed env in
                      let systemPrompt := species_prompt randomCategory randomSeed in
                      reply <- callGemini env systemPrompt ;;
                      show_species JSON_parse contentEl loadingEl randomCategory reply) in
            localStorage (settle (m w1)) = Some key).
  { intros w1 key loadingEl contentEl Hk Hne. cbv zeta. unfold bind at 1.
    pose proof (keeps_only_document_element loadingEl (el_remove ["hidden"]) w1) as K1.
    unfold classList_remove.
    destruct ((x <- deref loadingEl;; modify_element x (el_remove ["hidden"])) w1)
      as [[] w2|e w2]; cbn [settle] in *.
    2:{ rewrite <- K1 in Hk. exact Hk. }
    assert (Hk2 : localStorage w2 = Some key) by (rewrite <- K1 in Hk; exact Hk).
    unfold bind at 1.
    destruct (callGemini_with_key env
                (species_prompt
                   (nth (random_category env mod List.length categories) categories "")
                   (random_seed env)) key w2 Hk2 Hne) as (v & ->).
    match goal with
    | |- localStorage (settle (show_species ?p ?c ?l ?r ?v ?w0)) = _ =>
        pose proof (show_species_only_document p c l r v w0) as K3;
        set (w3 := settle (show_species p c l r v w0)) in *
    end.
    cbv beta in K3.
    assert (E : localStorage w3 = localStorage (set_document (document
                  (set_requests
                     (requests w2 ++
                      [mkRequest (endpoint ++ key)
                         (species_prompt
                            (nth (random_category env mod List.length categories) categories "")
                            (random_seed env))])%list w2)) w3)) by reflexivity.
    rewrite E, K3. exact Hk2. }
  assert (Hunf : generateSpeciesProfile JSON_parse env w
                 = (hasKey <- (if String.eqb match localStorage w with
                                             | Some k => k
                                             | None => ""
                                             end ""
                               then checkApiKey env else ret true) ;;
                    if negb hasKey then ret tt
                    else
                      classList_remove (lookup_id "species-loading" (document w)) ["hidden"] ;;;
                      let randomCategory :=
                        nth (random_category env mod List.length categories) categories "" in
                      let randomSeed := random_seed env in
                      let systemPrompt := species_prompt randomCategory randomSeed in
                      reply <- callGemini env systemPrompt ;;
                      show_species JSON_parse (lookup_id "species-content" (document w))
                        (lookup_id "species-loading" (document w)) randomCategory reply) w)
    by reflexivity.
  cbv zeta. rewrite Hunf. clear Hunf.
  set (rest := classList_remove (lookup_id "species-loading" (document w)) ["hidden"] ;;; _)
    in *.
  assert (Hrest' : forall (w1 : World) key, localStorage w1 = Some key -> key <> "" ->
            localStorage (settle (rest w1)) = Some key).
  { intros w1 key Hk Hne. exact (Hrest w1 key _ _ Hk Hne). }
  clear Hrest. unfold bind.
  destruct (String.eqb_spec match localStorage w with Some k => k | None => "" end "")
    as [E|E].
  - destruct (checkApiKey_outcome env w) as (b & w1 & k & Hrun & Hk & Hb & Hw).
    rewrite Hrun.
    destruct b; cbn [negb].
    + assert (Hne : k <> "") by now apply Hb.
      unfold getApiKey, gets in Hk. injection Hk as Hk.
      destruct (localStorage w1) as [k1|] eqn:E1; [|congruence]. subst k1.
      intro Hno. unfold getApiKey, gets in Hno. rewrite (Hrest' w1 k E1 Hne) in Hno.
      congruence.
    + unfold ret. cbn [settle]. intros _. rewrite <- Hw. split; reflexivity.
  - unfold ret at 1. cbn [negb].
    destruct (localStorage w) as [key|] eqn:Ek; [|contradiction].
    intro Hno. unfold getApiKey, gets in Hno. rewrite (Hrest' w key Ek E) in Hno.
    congruence.
Qed.

Lemma generateSpeciesProfile_without_key_witness :
  let w := initial_world sample_document None in
  let w' := settle (generateSpeciesProfile sample_parse (answering "x") w) in
  document w' = document w /\ requests w' = requests w.
Proof.
  intros w w'. apply (generateSpeciesProfile_without_key sample_parse (answering "x") w).
  reflexivity.
Defined.



(** ** No fence marker survives the clean-up *)

Lemma prefix_cons (a b : ascii) (p s : string) :
  String.prefix (String a p) (String b s) = Ascii.eqb a b && String.prefix p s.
Proof.
  cbn [String.prefix]. destruct (ascii_dec a b) as [->|Hne].
  - now rewrite Ascii.eqb_refl.
  - destruct (Ascii.eqb_spec a b); [contradiction | reflexivity].
Qed.

Lemma prefix_trans (p x r : string) :
  String.prefix p x = true -> String.prefix x r = true -> String.prefix p r = true.
Proof.
  revert p x. induction r as [|c r IH]; intros p x Hp Hx.
  - destruct x; [|discriminate]. destruct p; [reflexivity | discriminate].
  - destruct p as [|a p]; [reflexivity|]. destruct x as [|b x]; [discriminate|].
    rewrite prefix_cons in *. apply andb_true_iff in Hp, Hx.
    destruct Hp as [Hab Hp], Hx as [Hbc Hx].
    apply Ascii.eqb_eq in Hab, Hbc. subst. rewrite Ascii.eqb_refl. cbn. eauto.
Qed.

Lemma includes_of_prefix (p x r : string) :
  String.prefix x r = true -> includes x p = true -> includes r p = true.
Proof.
  revert x. induction r as [|c r IH]; intros x Hx Hi.
  - destruct x; [exact Hi | discriminate].
  - destruct x as [|b x].
    + cbn [includes] in Hi. rewrite orb_false_r in Hi.
      destruct p; [reflexivity | discriminate].
    + rewrite prefix_cons in Hx. apply andb_true_iff in Hx. destruct Hx as [Hbc Hx].
      apply Ascii.eqb_eq in Hbc. subst b. cbn [includes] in *.
      apply orb_true_iff in Hi. apply orb_true_iff. destruct Hi as [Hi|Hi].
      * left. apply (prefix_trans p (String c x)); [exact Hi|].
        rewrite prefix_cons, Ascii.eqb_refl. exact Hx.
      * right. eauto.
Qed.

Lemma includes_trim (p s : string) : includes (trim s) p = true -> includes s p = true.
Proof.
  unfold trim. intro H. apply includes_trimStart.
  apply (includes_of_prefix p (trimEnd (trimStart s))); [apply trimEnd_prefix | exact H].
Qed.

(** Where the pattern starts, [replace] drops it and goes on after it. *)
Lemma remove_fence_at (s : string) :
  remove_all "```" ("```" ++ s) = remove_all "```" s.
Proof.
  unfold remove_all. cbn [append remove_all_from].
  rewrite !prefix_cons, prefix_nil. reflexivity.
Qed.

Lemma fence_prefix (s : string) :
  String.prefix "```" s = true -> exists r, s = "```" ++ r.
Proof.
  destruct s as [|c1 [|c2 [|c3 r]]]; try discriminate;
    rewrite !prefix_cons; intro H;
    repeat (apply andb_true_iff in H; destruct H as [?E H]);
    try discriminate.
  apply Ascii.eqb_eq in E, E0, E1. subst. now exists r.
Qed.

Lemma remove_fence_head (s : string) (n : nat) :
  String.prefix (String "`" (string_of_list_ascii (repeat "`"%char n)))
    (remove_all "```" s) = true ->
  (n < 2)%nat ->
  String.prefix (String "`" (string_of_list_ascii (repeat "`"%char n))) s = true.
Proof.
  revert s. induction n as [|n IH]; intros s H Hn.
  - destruct s as [|c s]; [discriminate|].
    destruct (String.prefix "```" (String c s)) eqn:Ep.
    + destruct (fence_prefix _ Ep) as (r & ->). reflexivity.
    + unfold remove_all in H. cbn [remove_all_from] in H. rewrite Ep in H.
      cbn [repeat string_of_list_ascii] in *. rewrite prefix_cons in *.
      apply andb_true_iff in H. destruct H as [H _]. now rewrite H, prefix_nil.
  - destruct s as [|c s]; [discriminate|].
    destruct (String.prefix "```" (String c s)) eqn:Ep.
    + destruct (fence_prefix _ Ep) as (r & ->).
      destruct n as [|[|n]]; [reflexivity | lia | lia].
    + unfold remove_all in H. cbn [remove_all_from] in H. rewrite Ep in H.
      cbn [repeat string_of_list_ascii] in *. rewrite prefix_cons in *.
      apply andb_true_iff in H. destruct H as [Hc H]. rewrite Hc. cbn [andb].
      apply IH; [exact H | lia].
Qed.

Lemma remove_fences_clean_upto (n : nat) (s : string) :
  (String.length s <= n)%nat -> includes (remove_all "```" s) "```" = false.
Proof.
  revert s. induction n as [|n IH]; intros s Hlen.
  - destruct s; [reflexivity | cbn in Hlen; lia].
  - destruct s as [|c s]; [reflexivity|].
    destruct (String.prefix "```" (String c s)) eqn:Ep.
    + destruct (fence_prefix _ Ep) as (r & E). rewrite E, remove_fence_at.
      apply IH. rewrite E in Hlen. cbn in Hlen. lia.
    + unfold remove_all. cbn [remove_all_from]. rewrite Ep. fold (remove_all "```" s).
      cbn [includes]. rewrite (IH s) by (cbn in Hlen; lia). rewrite orb_false_r.
      destruct (String.prefix "```" (String c (remove_all "```" s))) eqn:Eq; [|reflexivity].
      exfalso. change "```" with (String "`" (String "`" (String "`" ""))) in Eq, Ep.
      rewrite prefix_cons in Eq, Ep. apply andb_true_iff in Eq. destruct Eq as [Hc Hbb].
      rewrite Hc in Ep. cbn [andb] in Ep.
      pose proof (remove_fence_head s 1 Hbb ltac:(lia)) as H. cbn in H, Ep. congruence.
Qed.

Lemma includes_longer (s p q : string) :
  includes s (p ++ q) = true -> includes s p = true.
Proof.
  assert (Hp : forall x, String.prefix (p ++ q) x = true -> String.prefix p x = true).
  { induction p as [|a p IHp]; intros x H; [apply prefix_nil|].
    destruct x as [|b x]; [discriminate|]. cbn [append] in H. rewrite prefix_cons in *.
    apply andb_true_iff in H. destruct H as [-> H]. cbn. auto. }
  induction s as [|c s IH]; cbn [includes]; intro H.
  - rewrite orb_false_r in *. now rewrite Hp.
  - apply orb_true_iff in H. apply orb_true_iff. destruct H; auto.
Qed.

(** X21.  Whatever the reply, no fence marker is left in the text that
    goes to [JSON.parse]; cleaning a cleaned text again changes nothing. *)
Theorem strip_fences_leaves_no_fence (s : string) :
  includes (strip_fences s) "```" = false
  /\ strip_fences (strip_fences s) = strip_fences s.
Proof.
  assert (H : includes (strip_fences s) "```" = false).
  { unfold strip_fences.
    destruct (includes (trim (remove_all "```" (remove_all "```json" s))) "```") eqn:E;
      [|reflexivity].
    apply includes_trim in E.
    now rewrite (remove_fences_clean_upto _ _ (Nat.le_refl _)) in E. }
  split; [exact H|].
  assert (H' : includes (strip_fences s) "```json" = false).
  { destruct (includes (strip_fences s) "```json") eqn:E; [|reflexivity].
    apply (includes_longer _ "```" "json") in E. congruence. }
  unfold strip_fences at 1. rewrite (remove_all_clean _ _ H'), (remove_all_clean _ _ H).
  unfold strip_fences. apply trim_idempotent.
Qed.

(** ** The gyroscope offsets *)

Lemma clamp_bounds (v lo hi : Q) : lo <= hi -> lo <= clamp v lo hi <= hi.
Proof.
  intro H. unfold clamp. split.
  - apply Q.le_max_l.
  - apply Q.max_lub; [exact H | apply Q.le_min_l].
Qed.

Lemma clamp_inside (v lo hi : Q) : lo <= v <= hi -> clamp v lo hi == v.
Proof.
  intros [H1 H2]. unfold clamp. rewrite Q.min_r by exact H2. now apply Q.max_r.
Qed.

Lemma handleOrientation_bounded (e : OrientationEvent) (s : Gyro) :
  -3 <= gyroX s <= 3 /\ -3 <= gyroY s <= 3 ->
  -3 <= gyroX (handleOrientation e s) <= 3 /\ -3 <= gyroY (handleOrientation e s) <= 3.
Proof.
  intro H. unfold handleOrientation.
  destruct (gamma e) as [eg|], (beta e) as [eb|], (initialGamma s) as [g0|]; cbn;
    try exact H; split; apply clamp_bounds; lra.
Qed.

(** X22.  Whatever readings arrive, from the start on, the gyroscope
    offsets stay within [-3, 3]. *)
Theorem gyro_offsets_bounded (events : list OrientationEvent) :
  -3 <= gyroX (orientations gyro_init events) <= 3
  /\ -3 <= gyroY (orientations gyro_init events) <= 3.
Proof.
  unfold orientations.
  assert (H : -3 <= gyroX gyro_init <= 3 /\ -3 <= gyroY gyro_init <= 3)
    by (cbn; split; split; lra).
  revert H. generalize gyro_init. induction events as [|e events IH]; intros s H; [exact H|].
  cbn [fold_left]. apply IH. now apply handleOrientation_bounded.
Qed.

Lemma orientations_calibrated (events : list OrientationEvent) (s : Gyro) (g0 : Q) :
  initialGamma s = Some g0 ->
  initialGamma (orientations s events) = Some g0
  /\ initialBeta (orientations s events) = initialBeta s.
Proof.
  revert s. induction events as [|e events IH]; intros s H; [auto|].
  unfold orientations in *. cbn [fold_left].
  assert (H1 : initialGamma (handleOrientation e s) = Some g0
               /\ initialBeta (handleOrientation e s) = initialBeta s).
  { unfold handleOrientation. rewrite H.
    destruct (gamma e), (beta e); cbn; auto. }
  destruct H1 as [H1 H2]. destruct (IH _ H1) as [H3 H4]. split; congruence.
Qed.

(** X23.  The first reading that has a gamma calibrates the handler once
    and for all: later readings are measured from it.  The beta of that
    first reading is the baseline for beta, also when it is [null] - then
    beta is never calibrated and later readings count from 0. *)
Theorem gyro_calibrated_once (s : Gyro) (g0 g b : Q) (b0 : option Q)
        (events : list OrientationEvent) :
  initialGamma s = None ->
  let s1 := handleOrientation (mkOrientation (Some g0) b0) s in
  let s2 := handleOrientation (mkOrientation (Some g) (Some b)) (orientations s1 events) in
  initialGamma s2 = Some g0 /\ initialBeta s2 = b0
  /\ gyroX s2 == clamp ((g - g0) * 0.05) (-3) 3
  /\ gyroY s2 == clamp ((b - to_number b0) * 0.05) (-3) 3
  /\ (b0 <> None -> gyroX s1 == 0 /\ gyroY s1 == 0).
Proof.
  intros H s1 s2.
  assert (H1 : initialGamma s1 = Some g0 /\ initialBeta s1 = b0).
  { unfold s1, handleOrientation. rewrite H. cbn. destruct b0; cbn; auto. }
  destruct H1 as [H1 H2].
  destruct (orientations_calibrated events s1 g0 H1) as [H3 H4].
  assert (E : s2 = mkGyro (clamp ((g - g0) * 0.05) (-3) 3)
                     (clamp ((b - to_number b0) * 0.05) (-3) 3) (Some g0) b0).
  { unfold s2. set (X := orientations s1 events) in *. unfold handleOrientation.
    cbn [gamma beta]. rewrite H3. cbn iota. rewrite H3, H4, H2. reflexivity. }
  rewrite E. cbn [initialGamma initialBeta gyroX gyroY].
  split; [reflexivity|]. split; [reflexivity|]. split; [reflexivity|].
  split; [reflexivity|]. intro Hb.
  unfold s1, handleOrientation. rewrite H. destruct b0 as [b1|]; [|congruence].
  cbn [gamma beta initialGamma initialBeta gyroX gyroY to_number].
  split; rewrite clamp_inside; lra.
Qed.

Lemma gyro_calibrated_once_witness :
  let s1 := handleOrientation (mkOrientation (Some 10) None) gyro_init in
  let s2 := handleOrientation (mkOrientation (Some 30) (Some 40)) s1 in
  gyroX s2 == 1 /\ gyroY s2 == 2.
Proof.
  intros s1 s2.
  destruct (gyro_calibrated_once gyro_init 10 30 40 None [] eq_refl)
    as (_ & _ & HX & HY & _).
  fold s1 in HX, HY. cbn [orientations fold_left] in HX, HY. fold s2 in HX, HY.
  rewrite HX, HY. split; rewrite clamp_inside; cbn; lra.
Defined.

(** ** The team card *)

Module TeamCardFacts.
Import TeamCard.
Local Open Scope card_scope.

Lemma lookup_update_same (id : string) (f : Node -> Node) (d : Dom) :
  lookup id (update id f d) = option_map f (lookup id d).
Proof.
  induction d as [|[k n] d IH]; [reflexivity|]. cbn.
  destruct (String.eqb k id) eqn:E; cbn; rewrite E; auto.
Qed.

Lemma lookup_update_other (id id' : string) (f : Node -> Node) (d : Dom) :
  id <> id' -> lookup id' (update id f d) = lookup id' d.
Proof.
  intro Hne. induction d as [|[k n] d IH]; [reflexivity|]. cbn.
  destruct (String.eqb_spec k id) as [->|E]; cbn.
  - destruct (String.eqb_spec id id'); [contradiction | reflexivity].
  - destruct (String.eqb k id'); auto.
Qed.

Lemma getElementById_present (id : string) (s : Card) :
  lookup id (dom s) <> None -> getElementById id s = Normal (Some id) s.
Proof.
  intro H. unfold getElementById, gets. destruct (lookup id (dom s)); [reflexivity | congruence].
Qed.

Lemma getElementById_state (id : string) (s : Card) :
  exists r, getElementById id s = Normal r s
            /\ (r = Some id /\ lookup id (dom s) <> None \/ r = None /\ lookup id (dom s) = None).
Proof.
  unfold getElementById, gets. destruct (lookup id (dom s)); eexists; split; eauto.
  left. split; [reflexivity | discriminate].
Qed.

(** Normalises look-ups in a document built by updates at other ids. *)
Ltac lookups :=
  repeat first
    [ rewrite lookup_update_same
    | rewrite lookup_update_other by discriminate ].

(** What [updateTeamCard] does for an index the list has, on a page with
    the portrait and the three text elements. *)
Lemma updateTeamCard_effect (index : Z) (m : Member) (s : Card) :
  member_at index = Some m ->
  lookup "member-img" (dom s) <> None ->
  lookup "member-name" (dom s) <> None ->
  lookup "member-role" (dom s) <> None ->
  lookup "member-desc" (dom s) <> None ->
  exists s', updateTeamCard index s = Normal tt s'
    /\ shown m s'
    /\ (lookup "member-icon" (dom s) <> None ->
        has "hidden" "member-icon" s' = truthy (image m))
    /\ (truthy (image m) = true ->
        option_map src (lookup "member-img" (dom s')) = image m)
    /\ (forall id, (lookup id (dom s') = None <-> lookup id (dom s) = None))
    /\ lookup "team-card" (dom s') = lookup "team-card" (dom s)
    /\ set_dom (dom s) s' = s.
Proof.
  intros Hm Hi Hn Hr Hd.
  destruct (lookup "member-img" (dom s)) as [ni|] eqn:Ei; [clear Hi|congruence].
  destruct (lookup "member-name" (dom s)) as [nn|] eqn:En; [clear Hn|congruence].
  destruct (lookup "member-role" (dom s)) as [nr|] eqn:Er; [clear Hr|congruence].
  destruct (lookup "member-desc" (dom s)) as [nd|] eqn:Ed; [clear Hd|congruence].
  assert (Hnone : forall id id0 f d, lookup id (update id0 f d) = None <-> lookup id d = None).
  { intros id id0 f d. destruct (String.eqb_spec id0 id) as [->|E].
    - rewrite lookup_update_same. destruct (lookup id d); cbn; split; congruence.
    - now rewrite lookup_update_other. }
  unfold updateTeamCard. rewrite Hm.
  unfold bind, getElementById, gets, write, modify, ret.
  repeat (progress (cbn [dom set_dom]; lookups; rewrite ?Ei, ?En, ?Er, ?Ed)).
  assert (Hadd : forall cl, contains (add_token cl "hidden") "hidden" = true).
  { intro cl. rewrite contains_add_token. cbn. apply orb_true_r. }
  assert (Hrem : forall cl, contains (remove_tokens ["hidden"] cl) "hidden" = false).
  { intro cl. rewrite contains_remove_tokens. cbn. apply andb_false_r. }
  destruct (truthy (image m)) eqn:Et; cbn [negb];
    destruct (lookup "member-icon" (dom s)) as [nc|] eqn:Ec;
    repeat (progress (cbn [dom set_dom]; lookups; rewrite ?Ei, ?En, ?Er, ?Ed, ?Ec));
    eexists; (split; [reflexivity|]);
    (refine (conj _ (conj _ (conj _ (conj _ (conj _ _)))));
    [ unfold shown, has; cbn [dom set_dom]; lookups; rewrite ?Ei, ?En, ?Er, ?Ed, ?Ec;
       cbn [option_map textContent set_textContent src set_src classList add_class
              remove_class]; rewrite ?Et, ?Hadd, ?Hrem; repeat split
     | intro Hicon;
       first [ congruence
             | unfold has; cbn [dom set_dom]; lookups;
               rewrite ?Ec; cbn [option_map textContent set_textContent src set_src
                                   classList add_class remove_class];
               rewrite ?Hadd, ?Hrem; reflexivity ]
     | intro Ht;
       first [ discriminate
             | cbn [dom set_dom]; lookups; rewrite ?Ei;
               cbn [option_map textContent set_textContent src set_src classList
                      add_class remove_class];
               unfold truthy in Et; destruct (image m); first [reflexivity | discriminate] ]
     | intro id; cbn [dom set_dom]; rewrite !Hnone; reflexivity
     | cbn [dom set_dom]; lookups; reflexivity
     | now destruct s ]).
Qed.

(** X24.  [updateTeamCard] for an index the list has, on a page with the
    portrait and the three text elements: it does not throw; the texts are
    the member's; the portrait is hidden exactly when the member has no
    image, and the icon, where the page has one, exactly when the member
    has an image; nothing but the page is touched. *)
Theorem updateTeamCard_shows_member (index : Z) (m : Member) (s : Card) :
  member_at index = Some m ->
  lookup "member-img" (dom s) <> None ->
  lookup "member-name" (dom s) <> None ->
  lookup "member-role" (dom s) <> None ->
  lookup "member-desc" (dom s) <> None ->
  exists s', updateTeamCard index s = Normal tt s'
    /\ option_map textContent (lookup "member-name" (dom s')) = Some (name m)
    /\ option_map textContent (lookup "member-role" (dom s')) = Some (role m)
    /\ option_map textContent (lookup "member-desc" (dom s')) = Some (desc m)
    /\ has "hidden" "member-img" s' = negb (truthy (image m))
    /\ (lookup "member-icon" (dom s) <> None ->
        has "hidden" "member-icon" s' = truthy (image m))
    /\ (truthy (image m) = true ->
        option_map src (lookup "member-img" (dom s')) = image m)
    /\ set_dom (dom s) s' = s.
Proof.
  intros Hm Hi Hn Hr Hd.
  destruct (updateTeamCard_effect index m s Hm Hi Hn Hr Hd)
    as (s' & Hrun & (H1 & H2 & H3 & H4) & H5 & H6 & _ & _ & H7).
  exists s'. auto 10.
Qed.

Lemma updateTeamCard_shows_member_witness :
  exists s', updateTeamCard 5 (initial sample_dom) = Normal tt s'
    /\ option_map textContent (lookup "member-name" (dom s')) = Some "Gemini"
    /\ has "hidden" "member-img" s' = true
    /\ has "hidden" "member-icon" s' = false.
Proof.
  destruct (updateTeamCard_shows_member 5 (mkMember "Gemini" "AI Co-Pilot"
              "提供創意發想、文案撰寫與程式碼優化建議。是團隊中不知疲倦的智慧核心，隨時準備提供協助。"
              None (Some "✨")) (initial sample_dom) eq_refl)
    as (s' & H & H1 & _ & _ & H4 & H5 & _); try discriminate.
  exists s'. repeat split; auto. apply H5. discriminate.
Defined.

(** X25.  [updateTeamCard] for an index outside the list throws a
    TypeError before anything is written. *)
Theorem updateTeamCard_out_of_range (index : Z) (s : Card) :
  (index < 0 \/ length_of_teamMembers <= index)%Z ->
  exists e, updateTeamCard index s = Throw e s /\ err_name e = "TypeError".
Proof.
  intro H. assert (Hm : member_at index = None).
  { unfold member_at. destruct (Z.ltb_spec index 0); [reflexivity|].
    apply nth_error_None. unfold length_of_teamMembers in H. lia. }
  unfold updateTeamCard. rewrite Hm. unfold bind, getElementById, gets, throw.
  eexists. split; reflexivity.
Qed.

Lemma updateTeamCard_out_of_range_witness :
  exists e, updateTeamCard 6 (initial sample_dom) = Throw e (initial sample_dom)
            /\ err_name e = "TypeError".
Proof. apply updateTeamCard_out_of_range. right. vm_compute. discriminate. Defined.


Lemma preserves_ret {A : Type} (I : Card -> Prop) (a : A) : preserves I (ret a).
Proof. intros s H. exact H. Qed.

Lemma preserves_throw {A : Type} (I : Card -> Prop) (e : Error) : preserves I (@throw A e).
Proof. intros s H. exact H. Qed.

Lemma preserves_gets {A : Type} (I : Card -> Prop) (f : Card -> A) : preserves I (gets f).
Proof. intros s H. exact H. Qed.

Lemma preserves_modify (I : Card -> Prop) (f : Card -> Card) :
  (forall s, I s -> I (f s)) -> preserves I (modify f).
Proof. intros Hf s H. now apply Hf. Qed.

Lemma preserves_bind {A B : Type} (I : Card -> Prop) (m : T A) (k : A -> T B) :
  preserves I m -> (forall a, preserves I (k a)) -> preserves I (bind m k).
Proof.
  intros Hm Hk s H. unfold bind. specialize (Hm s H).
  destruct (m s) as [a s1|e s1]; cbn in *; [now apply Hk | exact Hm].
Qed.

(** A look-up after a write at another id, or one that keeps what is read. *)
Lemma lookup_none_update (id id0 : string) (f : Node -> Node) (d : Dom) :
  lookup id (update id0 f d) = None <-> lookup id d = None.
Proof.
  destruct (String.eqb_spec id0 id) as [->|E].
  - rewrite lookup_update_same. destruct (lookup id d); cbn; split; congruence.
  - now rewrite lookup_update_other.
Qed.

Lemma page_ok_update (id : string) (f : Node -> Node) (d : Dom) :
  page_ok d -> page_ok (update id f d).
Proof.
  unfold page_ok. rewrite !lookup_none_update. auto.
Qed.

(** Writing classes on the card keeps what the card shows. *)
Lemma card_ok_write_card (f : Node -> Node) (s : Card) :
  card_ok s -> card_ok (set_dom (update "team-card" f (dom s)) s).
Proof.
  intros (Hp & Hc & Hi & m & Hm & H1 & H2 & H3 & H4).
  split; [now apply page_ok_update|]. split; [exact Hc|]. split; [exact Hi|].
  exists m. split; [exact Hm|]. unfold shown, has in *. cbn [dom set_dom].
  now rewrite !lookup_update_other by discriminate.
Qed.

Lemma card_ok_frame (s s' : Card) :
  dom s' = dom s -> teamCardEl s' = None \/ teamCardEl s' = Some "team-card" ->
  currentTeamIndex s' = currentTeamIndex s -> card_ok s -> card_ok s'.
Proof.
  intros D C I (Hp & Hc & Hi & m & Hm & Hs). unfold card_ok, shown, has in *.
  rewrite D, I. eauto 10.
Qed.

(** [triggerFlip] on a page that has the card: it does not throw; it caches
    the card, puts the out-class on it and arms the 250 ms callback. *)
Lemma triggerFlip_effect (direction : string) (s : Card) :
  lookup "team-card" (dom s) <> None ->
  teamCardEl s = None \/ teamCardEl s = Some "team-card" ->
  let outClass := if String.eqb direction "left" then "flip-out-left" else "flip-out-right" in
  triggerFlip direction s
  = Normal tt
      (set_timers (timers s ++ [mkTimer (now s + 250) (SwapContent direction outClass)])%list
         (set_dom (update "team-card" (add_class outClass) (dom s))
            (set_teamCardEl (Some "team-card") s))).
Proof.
  intros Hp Hc. cbv zeta.
  unfold triggerFlip, getElementById, setTimeout, bind, gets, modify, ret. cbv beta.
  destruct Hc as [Hc|Hc]; rewrite Hc; cbv beta iota.
  - destruct (lookup "team-card" (dom s)) eqn:El; [reflexivity | congruence].
  - assert (Hs : set_teamCardEl (Some "team-card") s = s)
      by (rewrite <- Hc; now destruct s).
    rewrite Hs, Hc. reflexivity.
Qed.

Lemma card_ok_triggerFlip (direction : string) (s : Card) :
  card_ok s -> card_ok (settle (triggerFlip direction s)).
Proof.
  intro H. pose proof H as (Hp & Hc & _). destruct Hp as (Hp & _).
  rewrite (triggerFlip_effect direction s Hp Hc). cbn [settle].
  apply (card_ok_frame (set_dom (update "team-card"
                                   (add_class (if String.eqb direction "left"
                                               then "flip-out-left" else "flip-out-right"))
                                   (dom s)) s)); try reflexivity.
  - now right.
  - now apply card_ok_write_card.
Qed.

Lemma in_range_next (i : Z) :
  (0 <= i < length_of_teamMembers)%Z ->
  (0 <= js_rem (i + 1) length_of_teamMembers < length_of_teamMembers)%Z
  /\ (0 <= js_rem (i - 1 + length_of_teamMembers) length_of_teamMembers
      < length_of_teamMembers)%Z.
Proof.
  unfold js_rem, length_of_teamMembers. cbn [List.length teamMembers Z.of_nat Pos.of_succ_nat
    Pos.succ]. intro H.
  split; (split; [apply Z.rem_nonneg; lia | apply Z.rem_bound_pos; lia]).
Qed.

Lemma member_in_range (i : Z) :
  (0 <= i < length_of_teamMembers)%Z -> exists m, member_at i = Some m.
Proof.
  intro H. unfold member_at. destruct (Z.ltb_spec i 0); [lia|].
  destruct (nth_error teamMembers (Z.to_nat i)) eqn:E; [eauto|].
  apply nth_error_None in E. unfold length_of_teamMembers in H. lia.
Qed.

(** The 250 ms callback on a card that is in order: the index moves by one
    place, the card shows the member it now points to. *)
Lemma card_ok_swap (direction outClass : string) (s : Card) :
  card_ok s -> card_ok (settle (run_task (SwapContent direction outClass) s)).
Proof.
  intros (Hp & Hc & Hi & _).
  set (j := if String.eqb direction "left"
            then js_rem (currentTeamIndex s + 1) length_of_teamMembers
            else js_rem (currentTeamIndex s - 1 + length_of_teamMembers)
                   length_of_teamMembers).
  assert (Hj : (0 <= j < length_of_teamMembers)%Z).
  { unfold j. destruct (in_range_next _ Hi). destruct (String.eqb direction "left"); auto. }
  destruct (member_in_range j Hj) as (m & Hm).
  set (s1 := set_currentTeamIndex j s).
  pose proof Hp as (P0 & P1 & P2 & P3 & P4).
  destruct (updateTeamCard_effect j m s1 Hm P1 P2 P3 P4)
    as (s2 & Hrun & Hshown & _ & _ & Hnone & Hcard & Hs2).
  assert (Hok2 : card_ok s2).
  { assert (E2 : s2 = set_dom (dom s2) s1) by (rewrite <- Hs2; now destruct s2).
    split; [|split; [|split]].
    - unfold page_ok in *. rewrite !Hnone. exact Hp.
    - rewrite E2. exact Hc.
    - rewrite E2. exact Hj.
    - exists m. split; [rewrite E2; exact Hm | exact Hshown]. }
  cbn [run_task]. unfold bind at 1. unfold gets at 1. unfold bind at 1. unfold modify at 1.
  fold j. fold s1. unfold bind at 1. unfold gets at 1.
  change (currentTeamIndex s1) with j. unfold bind at 1. rewrite Hrun.
  destruct Hok2 as (Hp2 & Hc2 & Hrest2).
  unfold bind, gets, write, modify, setTimeout.
  destruct Hc2 as [Hc2|Hc2]; rewrite Hc2; cbn.
  - unfold card_ok. rewrite Hc2. auto.
  - rewrite Hc2. cbn.
    apply (card_ok_frame
             (set_dom (update "team-card"
                         (add_class (if String.eqb direction "left"
                                     then "flip-in-right" else "flip-in-left"))
                         (dom (set_dom (update "team-card" (remove_class outClass) (dom s2))
                                 s2)))
                (set_dom (update "team-card" (remove_class outClass) (dom s2)) s2)));
      try reflexivity; [now right|].
    apply card_ok_write_card. apply card_ok_write_card. unfold card_ok. rewrite Hc2. auto.
Qed.

Lemma card_ok_run_task (t : task) (s : Card) : card_ok s -> card_ok (settle (run_task t s)).
Proof.
  destruct t as [direction outClass|inClass]; [apply card_ok_swap|].
  intros (Hp & Hc & Hrest). cbn [run_task]. unfold bind, gets, write, modify.
  destruct Hc as [Hc|Hc]; rewrite Hc; cbn.
  - unfold card_ok. rewrite Hc. auto.
  - apply card_ok_write_card. unfold card_ok. rewrite Hc. auto.
Qed.

Lemma card_ok_run_due (fuel : nat) (s : Card) : card_ok s -> card_ok (run_due fuel s).
Proof.
  revert s. induction fuel as [|fuel IH]; intros s H; cbn [run_due]; [exact H|].
  destruct (pop_due (now s) (timers s)) as [[t rest]|]; [|exact H].
  apply IH. apply card_ok_run_task. apply (card_ok_frame s); auto. now destruct H as (_ & ? & _).
Qed.

Lemma card_ok_startTeamDrag (e : PointerEvent) (s : Card) :
  card_ok s -> card_ok (settle (startTeamDrag e s)).
Proof.
  intro H. pose proof H as ((Hp & _) & Hc & _).
  unfold startTeamDrag, getElementById, addEventListener, first_clientX, bind, gets, modify,
    ret, throw.
  cbn [dom set_isDraggingTeam set_startX].
  destruct (lookup "team-card" (dom s)) as [n|] eqn:El; [|congruence].
  destruct (includes (type e) "mouse").
  - cbn. rewrite El. cbn.
    repeat match goal with
           | |- context [if ?b then _ else _] => destruct b
           end; cbn; (apply (card_ok_frame s); [reflexivity | now right | reflexivity | exact H]).
  - destruct (touches e) as [[|x xs]|]; cbn; rewrite ?El; cbn;
      repeat match goal with
             | |- context [if ?b then _ else _] => destruct b
             end; cbn;
      (apply (card_ok_frame s); [reflexivity | auto | reflexivity | exact H]).
Qed.

Lemma onTeamDragEnd_effect (e : PointerEvent) (s : Card) :
  isDraggingTeam s = true ->
  let s1 := set_listeners
              (filter (fun l => negb (same_listener ("touchend", "onTeamDragEnd") l))
                 (filter (fun l => negb (same_listener ("touchmove", "onTeamDragMove") l))
                    (filter (fun l => negb (same_listener ("mouseup", "onTeamDragEnd") l))
                       (filter (fun l => negb (same_listener ("mousemove", "onTeamDragMove") l))
                          (listeners s)))))
              (set_isDraggingTeam false s) in
  onTeamDragEnd e s
  = (endX <- (if includes (type e) "mouse" then ret (clientX e)
              else match changedTouches e with
                   | Some xs => first_clientX (Some xs)
                   | None => ret (startX s)
                   end) ;;
     let diff := minus endX (startX s) in
     if abs_gt diff 50 then
       if gt diff 0 then triggerFlip "right" else triggerFlip "left"
     else ret tt) s1.
Proof.
  intro Hd. cbv zeta. unfold onTeamDragEnd. unfold bind at 1. unfold gets at 1. rewrite Hd.
  cbn [negb]. reflexivity.
Qed.

Lemma card_ok_onTeamDragEnd (e : PointerEvent) (s : Card) :
  card_ok s -> card_ok (settle (onTeamDragEnd e s)).
Proof.
  intro H. destruct (isDraggingTeam s) eqn:Hd.
  2:{ unfold onTeamDragEnd, bind, gets. rewrite Hd. exact H. }
  rewrite (onTeamDragEnd_effect e s Hd).
  set (s1 := set_listeners _ _).
  assert (H1 : card_ok s1).
  { apply (card_ok_frame s); try reflexivity; [|exact H]. now destruct H as (_ & ? & _). }
  unfold bind at 1.
  match goal with
  | |- context [match ?m s1 with _ => _ end] =>
      assert (Hm : (exists x, m s1 = Normal x s1) \/ (exists err, m s1 = Throw err s1))
  end.
  { unfold first_clientX, ret, throw.
    destruct (includes (type e) "mouse"); [eauto|].
    destruct (changedTouches e) as [[|x xs]|]; eauto. }
  destruct Hm as [(x & ->)|(err & ->)]; [|exact H1].
  destruct (abs_gt _ 50); [|exact H1].
  destruct (gt _ 0); now apply card_ok_triggerFlip.
Qed.

Lemma card_ok_step (s : Card) (e : event) : card_ok s -> card_ok (step s e).
Proof.
  intro H. destruct e as [teamSection key|e|e|e|direction|]; cbn [step].
  - unfold onKeyDown. destruct teamSection as [classes|]; [|exact H].
    destruct (negb _); [exact H|].
    destruct (String.eqb key "ArrowRight"); [now apply card_ok_triggerFlip|].
    destruct (String.eqb key "ArrowLeft"); [now apply card_ok_triggerFlip | exact H].
  - now apply card_ok_startTeamDrag.
  - exact H.
  - now apply card_ok_onTeamDragEnd.
  - now apply card_ok_triggerFlip.
  - unfold tick. cbv zeta. apply card_ok_run_due.
    apply (card_ok_frame s); try reflexivity; [|exact H]. now destruct H as (_ & ? & _).
Qed.

Lemma card_ok_run (es : list event) (s : Card) : card_ok s -> card_ok (run s es).
Proof.
  revert s. induction es as [|e es IH]; intros s H; cbn [run fold_left]; [exact H|].
  apply IH. now apply card_ok_step.
Qed.

Lemma card_ok_init (d : Dom) : page_ok d -> card_ok (settle (initTeam (initial d))).
Proof.
  intro Hp. pose proof Hp as (P0 & P1 & P2 & P3 & P4).
  destruct (member_in_range 0 ltac:(vm_compute; split; congruence)) as (m & Hm).
  destruct (updateTeamCard_effect 0 m (initial d) Hm P1 P2 P3 P4)
    as (s2 & Hrun & Hshown & _ & _ & Hnone & _ & Hs2).
  unfold initTeam. rewrite Hrun. cbn [settle].
  assert (E2 : s2 = set_dom (dom s2) (initial d)) by (rewrite <- Hs2; now destruct s2).
  split; [|split; [|split]].
  - unfold page_ok in *. rewrite !Hnone. exact Hp.
  - rewrite E2. now left.
  - rewrite E2. vm_compute. split; congruence.
  - exists m. split; [rewrite E2; exact Hm | exact Hshown].
Qed.

Lemma initTeam_effect (d : Dom) :
  page_ok d ->
  exists s2, initTeam (initial d) = Normal tt s2
    /\ lookup "team-card" (dom s2) = lookup "team-card" d
    /\ set_dom d s2 = initial d.
Proof.
  intro Hp. pose proof Hp as (P0 & P1 & P2 & P3 & P4).
  destruct (member_in_range 0 ltac:(vm_compute; split; congruence)) as (m & Hm).
  destruct (updateTeamCard_effect 0 m (initial d) Hm P1 P2 P3 P4)
    as (s2 & Hrun & _ & _ & _ & _ & Hc & Hs2).
  exists s2. auto.
Qed.

(** X26.  On a page that has the card's elements, once [initTeam] has run:
    whatever keys are pressed, however the card is dragged and whatever
    time passes, the index stays within the list and the card shows the
    member the index points to. *)
Theorem card_shows_current_member (d : Dom) (es : list event) :
  page_ok d ->
  let s := run (settle (initTeam (initial d))) es in
  (0 <= currentTeamIndex s < 6)%Z
  /\ exists m, member_at (currentTeamIndex s) = Some m
       /\ option_map textContent (lookup "member-name" (dom s)) = Some (name m)
       /\ option_map textContent (lookup "member-role" (dom s)) = Some (role m)
       /\ option_map textContent (lookup "member-desc" (dom s)) = Some (desc m)
       /\ has "hidden" "member-img" s = negb (truthy (image m)).
Proof.
  intros Hp s. pose proof (card_ok_init d Hp) as H0.
  destruct (card_ok_run es _ H0) as (_ & _ & Hi & m & Hm & Hs). fold s in Hi, Hm, Hs.
  split; [exact Hi|]. exists m. split; [exact Hm | exact Hs].
Qed.

Lemma sample_page_ok : page_ok sample_dom.
Proof. unfold page_ok. repeat split; vm_compute; discriminate. Qed.

Lemma card_shows_current_member_witness :
  (0 <= currentTeamIndex
          (run (settle (initTeam (initial sample_dom)))
             (Flip "left" :: wait 250 ++ KeyDown (Some ["active"]) "ArrowLeft" :: wait 300))
   < 6)%Z.
Proof.
  exact (proj1 (card_shows_current_member sample_dom
                  (Flip "left" :: wait 250 ++ KeyDown (Some ["active"]) "ArrowLeft" :: wait 300)
                  sample_page_ok)).
Defined.


Lemma has_card_written (c : string) (f : Node -> Node) (d : Dom) (s : Card) :
  has c "team-card" (set_dom (update "team-card" f d) s)
  = match lookup "team-card" d with
    | Some n => contains (classList (f n)) c
    | None => false
    end.
Proof.
  unfold has. cbn [dom set_dom]. rewrite lookup_update_same.
  now destruct (lookup "team-card" d).
Qed.

Lemma timing_ok_frame (s s' : Card) (t : Timer) :
  now s' = now s -> timing_ok s t -> timing_ok s' t.
Proof. unfold timing_ok. now intros ->. Qed.

Lemma over_by_bound (s : Card) (t : Timer) : timing_ok s t -> (over_by t <= now s + 750)%nat.
Proof. unfold timing_ok, over_by. destruct (callback t); lia. Qed.

(** A state that differs in what the flips do not look at. *)
Lemma flip_ok_frame (s s' : Card) :
  dom s' = dom s -> currentTeamIndex s' = currentTeamIndex s ->
  timers s' = timers s -> now s' = now s ->
  (teamCardEl s' = teamCardEl s \/ teamCardEl s' = Some "team-card") ->
  flip_ok s -> flip_ok s'.
Proof.
  intros D I Tm N C (Hok & Href & Hacc & Htim).
  split; [|split; [|split]].
  - apply (card_ok_frame s); auto. destruct C as [C|C]; [|auto].
    rewrite C. now destruct Hok as (_ & ? & _).
  - rewrite Tm. destruct C as [C|C]; [rewrite C; exact Href | now left].
  - unfold flips_accounted, has in *. rewrite D, Tm. exact Hacc.
  - rewrite Tm. eapply Forall_impl; [|exact Htim]. intros t. now apply timing_ok_frame.
Qed.

Lemma flip_ok_triggerFlip (direction : string) (s : Card) :
  flip_ok s -> settled s ->
  flip_ok (settle (triggerFlip direction s))
  /\ settled (settle (triggerFlip direction s))
  /\ now (settle (triggerFlip direction s)) = now s.
Proof.
  intros (Hok & Href & Hacc & Htim) Hset.
  pose proof (card_ok_triggerFlip direction s Hok) as Hok'.
  pose proof Hok as ((Hp & _) & Hc & _).
  rewrite (triggerFlip_effect direction s Hp Hc) in *. cbn [settle] in *.
  set (out := if String.eqb direction "left" then "flip-out-left" else "flip-out-right") in *.
  split; [|split; [|reflexivity]].
  - split; [exact Hok'|]. split; [now left|]. split.
    + intros c Hc' Hhas. cbn [timers set_timers].
      change (has c "team-card" (set_dom (update "team-card" (add_class out) (dom s))
                                   (set_teamCardEl (Some "team-card") s)) = true) in Hhas.
      rewrite has_card_written in Hhas.
      destruct (lookup "team-card" (dom s)) as [n|] eqn:El; [|discriminate].
      cbn [classList add_class] in Hhas. rewrite contains_add_token in Hhas.
      apply orb_true_iff in Hhas. destruct Hhas as [Hhas|Hhas].
      * destruct (Hacc c Hc') as (t & Hin & Hrem).
        { unfold has. now rewrite El. }
        exists t. split; [apply in_or_app; now left | exact Hrem].
      * apply String.eqb_eq in Hhas. subst c. eexists. split.
        { apply in_or_app. right. left. reflexivity. }
        cbn. now left.
    + cbn [timers set_timers]. apply Forall_app. split.
      * eapply Forall_impl; [|exact Htim]. intros t. now apply timing_ok_frame.
      * repeat constructor; cbn; lia.
  - unfold settled in *. cbn [timers set_timers now set_dom set_teamCardEl].
    apply Forall_app. split; [exact Hset|]. repeat constructor. cbn. lia.
Qed.

Lemma card_pop_due_split (t : nat) (ts : list Timer) (x : Timer) (rest : list Timer) :
  pop_due t ts = Some (x, rest) ->
  (due x <= t)%nat /\ exists l1 l2, ts = (l1 ++ x :: l2)%list /\ rest = (l1 ++ l2)%list.
Proof.
  revert x rest. induction ts as [|a ts IH]; intros x rest H; [discriminate|].
  cbn [pop_due] in H. destruct (Nat.leb_spec (due a) t) as [Hd|Hd].
  - injection H as <- <-. split; [exact Hd|]. exists [], ts. auto.
  - destruct (pop_due t ts) as [[y rest']|]; [|discriminate]. injection H as <- <-.
    destruct (IH y rest' eq_refl) as (Hy & l1 & l2 & -> & ->).
    split; [exact Hy|]. exists (a :: l1), l2. auto.
Qed.

Lemma card_pop_due_none (t : nat) (ts : list Timer) :
  pop_due t ts = None <-> Forall (fun x => (t < due x)%nat) ts.
Proof.
  induction ts as [|a ts IH]; cbn [pop_due]; [split; auto|].
  destruct (Nat.leb_spec (due a) t) as [Hd|Hd].
  - split; [discriminate|]. intro H. inversion H; subst. lia.
  - destruct (pop_due t ts) as [[y rest']|].
    + split; [discriminate|]. intro H. inversion H; subst.
      now apply IH in H3.
    + split; [|reflexivity]. intros _. constructor; [exact Hd | now apply IH].
Qed.

Lemma card_due_count_pop (s : Card) (x : Timer) (l1 l2 : list Timer) :
  timers s = (l1 ++ x :: l2)%list -> (due x <= now s)%nat ->
  S (due_count (set_timers (l1 ++ l2) s)) = due_count s.
Proof.
  intros Ht Hd. unfold due_count. cbn [timers set_timers now]. rewrite Ht.
  rewrite !filter_app, !length_app. cbn [filter].
  apply Nat.leb_le in Hd. rewrite Hd. cbn. lia.
Qed.

(** A callback that is due runs: the card stays in order, what it arms is
    over by the time the callback and its follow-up were to be over, and
    nothing it arms is due at once. *)
Lemma flip_ok_fire (T : nat) (s : Card) (x : Timer) (l1 l2 : list Timer) :
  flip_ok s -> timers s = (l1 ++ x :: l2)%list -> (due x <= now s)%nat ->
  Forall (fun t => (over_by t <= T)%nat) (timers s) ->
  let s0 := set_timers (l1 ++ l2) s in
  let s' := settle (run_task (callback x) s0) in
  flip_ok s' /\ Forall (fun t => (over_by t <= T)%nat) (timers s')
  /\ now s' = now s /\ (due_count s' <= due_count s0)%nat.
Proof.
  intros (Hok & Href & Hacc & Htim) Ht Hdue Hover s0 s'.
  destruct Href as [Href|Href]; [|rewrite Href in Ht; now destruct l1].
  assert (Hok0 : card_ok s0).
  { apply (card_ok_frame s); auto. }
  assert (Hok' : card_ok s') by now apply card_ok_run_task.
  assert (Hx : timing_ok s x /\ (over_by x <= T)%nat).
  { rewrite Ht in Htim, Hover. apply Forall_app in Htim, Hover.
    destruct Htim as [_ Htim], Hover as [_ Hover].
    inversion Htim; subst. inversion Hover; subst. auto. }
  destruct Hx as [[Hx1 Hx2] Hx3].
  assert (Hrest : Forall (timing_ok s) (l1 ++ l2) /\ Forall (fun t => (over_by t <= T)%nat) (l1 ++ l2)).
  { rewrite Ht in Htim, Hover. apply Forall_app in Htim, Hover.
    destruct Htim as [A1 A2], Hover as [B1 B2]. inversion A2; subst. inversion B2; subst.
    split; apply Forall_app; auto. }
  destruct Hrest as [Hrt Hro].
  assert (Hother : forall c, In c flip_classes -> has c "team-card" s = true ->
             ~ removes (callback x) c ->
             exists t, In t (l1 ++ l2)%list /\ removes (callback t) c).
  { intros c Hc Hhas Hnot. destruct (Hacc c Hc Hhas) as (t & Hin & Hrem).
    exists t. split; [|exact Hrem]. rewrite Ht in Hin. apply in_app_or in Hin.
    apply in_or_app. destruct Hin as [Hin|[<-|Hin]]; auto. contradiction. }
  unfold over_by in Hx3.
  destruct (callback x) as [direction outClass|inClass] eqn:Ecb; rewrite ?Ecb in Hx2, Hx3.
  - (* the 250 ms callback *)
    set (j := if String.eqb direction "left"
              then js_rem (currentTeamIndex s0 + 1) length_of_teamMembers
              else js_rem (currentTeamIndex s0 - 1 + length_of_teamMembers)
                     length_of_teamMembers).
    destruct Hok0 as (Hp0 & Hc0 & Hi0 & _).
    assert (Hj : (0 <= j < length_of_teamMembers)%Z).
    { unfold j. destruct (in_range_next _ Hi0). destruct (String.eqb direction "left"); auto. }
    destruct (member_in_range j Hj) as (m & Hm).
    set (s1 := set_currentTeamIndex j s0).
    pose proof Hp0 as (P0 & P1 & P2 & P3 & P4).
    destruct (updateTeamCard_effect j m s1 Hm P1 P2 P3 P4)
      as (s2 & Hrun & _ & _ & _ & _ & Hcard & Hs2).
    assert (E2 : s2 = set_dom (dom s2) s1) by (rewrite <- Hs2; now destruct s2).
    set (inClass := if String.eqb direction "left" then "flip-in-right" else "flip-in-left").
    assert (E' : s' = set_timers (timers s2 ++ [mkTimer (now s2 + 500) (RemoveInClass inClass)])
                        (set_dom (update "team-card" (add_class inClass)
                                    (update "team-card" (remove_class outClass) (dom s2)))
                           s2)).
    { unfold s'. cbn [run_task]. unfold bind at 1. unfold gets at 1. unfold bind at 1.
      unfold modify at 1. fold j. fold s1. unfold bind at 1. unfold gets at 1.
      change (currentTeamIndex s1) with j. unfold bind at 1. rewrite Hrun.
      unfold bind, gets, write, modify, setTimeout.
      assert (Hc2 : teamCardEl s2 = Some "team-card") by (rewrite E2; exact Href).
      rewrite Hc2. cbn [settle teamCardEl set_dom]. rewrite Hc2. reflexivity. }
    assert (Hn2 : now s2 = now s) by (rewrite E2; reflexivity).
    assert (Ht2 : timers s2 = (l1 ++ l2)%list) by (rewrite E2; reflexivity).
    split; [|split; [|split]].
    + split; [exact Hok'|]. rewrite E'. split; [left; rewrite E2; exact Href|]. split.
      * intros c Hc Hhas. cbn [timers set_timers set_dom].
        change (has c "team-card"
                  (set_dom (update "team-card" (add_class inClass)
                              (update "team-card" (remove_class outClass) (dom s2))) s2) = true)
          in Hhas.
        rewrite has_card_written, lookup_update_same, Hcard in Hhas.
        change (dom s1) with (dom s) in Hhas.
        destruct (lookup "team-card" (dom s)) as [n|] eqn:El; [|discriminate].
        cbn [option_map classList add_class remove_class] in Hhas.
        rewrite contains_add_token, contains_remove_tokens, contains_singleton in Hhas.
        apply orb_true_iff in Hhas. destruct Hhas as [Hhas|Hhas].
        -- apply andb_true_iff in Hhas. destruct Hhas as [Hcl Hne].
           apply negb_true_iff in Hne. apply String.eqb_neq in Hne.
           destruct (String.eqb_spec c inClass) as [->|Hni].
           ++ eexists. split; [apply in_or_app; right; left; reflexivity | reflexivity].
           ++ destruct (Hother c Hc) as (t & Hin & Hrem).
              { unfold has. now rewrite El. }
              { cbn. unfold inClass_of. fold inClass. tauto. }
              exists t. split; [rewrite Ht2; apply in_or_app; now left | exact Hrem].
        -- apply String.eqb_eq in Hhas. subst c.
           eexists. split; [apply in_or_app; right; left; reflexivity | reflexivity].
      * cbn [timers set_timers]. rewrite Ht2. apply Forall_app. split.
        -- eapply Forall_impl; [|exact Hrt]. intros t. apply timing_ok_frame.
           cbn. exact Hn2.
        -- repeat constructor; cbn; rewrite Hn2; lia.
    + rewrite E'. cbn [timers set_timers]. rewrite Ht2. apply Forall_app. split; [exact Hro|].
      repeat constructor. unfold over_by in *. cbn. rewrite Hn2. lia.
    + rewrite E'. cbn. exact Hn2.
    + rewrite E'. unfold due_count. cbn [timers set_timers now set_dom]. rewrite Ht2, Hn2.
      rewrite filter_app, length_app. cbn [filter due].
      destruct (Nat.leb_spec (now s + 500) (now s)); [lia|]. cbn. unfold s0. cbn. lia.
  - (* the 500 ms callback *)
    assert (E' : s' = set_dom (update "team-card" (remove_class inClass) (dom s0)) s0).
    { unfold s'. cbn [run_task]. unfold bind, gets, write, modify.
      change (teamCardEl s0) with (teamCardEl s). rewrite Href. reflexivity. }
    split; [|split; [|split]].
    + split; [exact Hok'|]. rewrite E'. split; [left; exact Href|]. split.
      * intros c Hc Hhas. cbn [timers set_timers set_dom].
        rewrite has_card_written in Hhas. change (dom s0) with (dom s) in Hhas.
        destruct (lookup "team-card" (dom s)) as [n|] eqn:El; [|discriminate].
        cbn [classList remove_class] in Hhas.
        rewrite contains_remove_tokens, contains_singleton in Hhas.
        apply andb_true_iff in Hhas. destruct Hhas as [Hcl Hne].
        apply negb_true_iff in Hne. apply String.eqb_neq in Hne.
        apply (Hother c Hc); [unfold has; now rewrite El | exact Hne].
      * cbn [timers set_timers set_dom]. eapply Forall_impl; [|exact Hrt].
        intros t. now apply timing_ok_frame.
    + rewrite E'. exact Hro.
    + rewrite E'. reflexivity.
    + rewrite E'. apply Nat.le_refl.
Qed.

Lemma steady_frame (s s' : Card) :
  dom s' = dom s -> currentTeamIndex s' = currentTeamIndex s ->
  timers s' = timers s -> now s' = now s ->
  (teamCardEl s' = teamCardEl s \/ teamCardEl s' = Some "team-card") ->
  steady s -> steady s'.
Proof.
  intros D I Tm N C [H1 H2]. split; [now apply (flip_ok_frame s)|].
  unfold settled in *. now rewrite Tm, N.
Qed.

Lemma steady_triggerFlip (direction : string) (s : Card) :
  steady s -> steady (settle (triggerFlip direction s)).
Proof. intros [H1 H2]. destruct (flip_ok_triggerFlip direction s H1 H2) as (? & ? & _). now split. Qed.

Lemma steady_startTeamDrag (e : PointerEvent) (s : Card) :
  steady s -> steady (settle (startTeamDrag e s)).
Proof.
  intro H. pose proof H as [(((Hp & _) & Hc & _) & _) _].
  unfold startTeamDrag, getElementById, addEventListener, first_clientX, bind, gets, modify,
    ret, throw.
  cbn [dom set_isDraggingTeam set_startX].
  destruct (lookup "team-card" (dom s)) as [n|] eqn:El; [|congruence].
  destruct (includes (type e) "mouse").
  - cbn. rewrite El. cbn.
    repeat match goal with
           | |- context [if ?b then _ else _] => destruct b
           end; cbn;
      (apply (steady_frame s); [reflexivity | reflexivity | reflexivity | reflexivity
                               | now right | exact H]).
  - destruct (touches e) as [[|x xs]|]; cbn; rewrite ?El; cbn;
      repeat match goal with
             | |- context [if ?b then _ else _] => destruct b
             end; cbn;
      (apply (steady_frame s); [reflexivity | reflexivity | reflexivity | reflexivity
                               | first [now left | now right] | exact H]).
Qed.

Lemma steady_onTeamDragEnd (e : PointerEvent) (s : Card) :
  steady s -> steady (settle (onTeamDragEnd e s)).
Proof.
  intro H. destruct (isDraggingTeam s) eqn:Hd.
  2:{ unfold onTeamDragEnd, bind, gets. rewrite Hd. exact H. }
  rewrite (onTeamDragEnd_effect e s Hd).
  set (s1 := set_listeners _ _).
  assert (H1 : steady s1).
  { apply (steady_frame s); try reflexivity; [now left | exact H]. }
  unfold bind at 1.
  match goal with
  | |- context [match ?m s1 with _ => _ end] =>
      assert (Hm : (exists x, m s1 = Normal x s1) \/ (exists err, m s1 = Throw err s1))
  end.
  { unfold first_clientX, ret, throw.
    destruct (includes (type e) "mouse"); [eauto|].
    destruct (changedTouches e) as [[|x xs]|]; eauto. }
  destruct Hm as [(x & ->)|(err & ->)]; [|exact H1].
  destruct (abs_gt _ 50); [|exact H1].
  destruct (gt _ 0); now apply steady_triggerFlip.
Qed.

Lemma flip_ok_run_due (T fuel : nat) (s : Card) :
  flip_ok s -> Forall (fun t => (over_by t <= T)%nat) (timers s) ->
  flip_ok (run_due fuel s)
  /\ Forall (fun t => (over_by t <= T)%nat) (timers (run_due fuel s))
  /\ now (run_due fuel s) = now s
  /\ ((due_count s <= fuel)%nat -> settled (run_due fuel s)).
Proof.
  revert s. induction fuel as [|fuel IH]; intros s H Ho; cbn [run_due].
  - split; [exact H|]. split; [exact Ho|]. split; [reflexivity|].
    intro Hz. unfold settled, due_count in *.
    apply Forall_forall. intros t Hin.
    destruct (Nat.leb_spec (due t) (now s)) as [Hd|Hd]; [|exact Hd].
    assert (Hf : In t (filter (fun t => (due t <=? now s)%nat) (timers s))).
    { apply filter_In. split; [exact Hin | now apply Nat.leb_le]. }
    destruct (filter _ (timers s)); [contradiction | cbn in Hz; lia].
  - destruct (pop_due (now s) (timers s)) as [[x rest]|] eqn:Ep.
    + destruct (card_pop_due_split _ _ _ _ Ep) as (Hd & l1 & l2 & Ht & ->).
      destruct (flip_ok_fire T s x l1 l2 H Ht Hd Ho) as (F1 & F2 & F3 & F4).
      destruct (IH _ F1 F2) as (I1 & I2 & I3 & I4).
      split; [exact I1|]. split; [exact I2|]. split; [now rewrite I3|].
      intro Hc. apply I4. pose proof (card_due_count_pop s x l1 l2 Ht Hd). lia.
    + split; [exact H|]. split; [exact Ho|]. split; [reflexivity|].
      intros _. now apply card_pop_due_none.
Qed.

Lemma card_due_count_le_length (s : Card) : (due_count s <= List.length (timers s))%nat.
Proof.
  unfold due_count. generalize (timers s). intro l.
  induction l as [|a l IH]; cbn; [lia|]. destruct (_ <=? _)%nat; cbn; lia.
Qed.

Lemma steady_tick (T : nat) (s : Card) :
  steady s -> Forall (fun t => (over_by t <= T)%nat) (timers s) ->
  steady (tick s)
  /\ Forall (fun t => (over_by t <= T)%nat) (timers (tick s))
  /\ now (tick s) = S (now s).
Proof.
  intros [(Hok & Href & Hacc & Htim) Hset] Ho. unfold tick. cbv zeta.
  set (s1 := set_now (S (now s)) s).
  assert (H1 : flip_ok s1).
  { split; [|split; [|split]].
    - apply (card_ok_frame s); try reflexivity; [|exact Hok]. now destruct Hok as (_ & ? & _).
    - exact Href.
    - exact Hacc.
    - change (timers s1) with (timers s). unfold settled in Hset.
      apply Forall_forall. intros t Hin.
      pose proof (proj1 (Forall_forall _ _) Htim t Hin) as [A B].
      pose proof (proj1 (Forall_forall _ _) Hset t Hin) as C.
      unfold timing_ok, s1. cbn [now set_now]. cbv beta in C. split; [lia|].
      destruct (callback t); lia. }
  destruct (flip_ok_run_due T (List.length (timers s1)) s1 H1 Ho) as (R1 & R2 & R3 & R4).
  split; [|split; [exact R2 | exact R3]].
  split; [exact R1|]. apply R4. apply card_due_count_le_length.
Qed.

Lemma steady_over (s : Card) :
  steady s -> Forall (fun t => (over_by t <= now s + 750)%nat) (timers s).
Proof.
  intros [(_ & _ & _ & Htim) _]. eapply Forall_impl; [|exact Htim].
  intros t. apply over_by_bound.
Qed.

Lemma steady_step (s : Card) (e : event) : steady s -> steady (step s e).
Proof.
  intro H. destruct e as [teamSection key|e|e|e|direction|]; cbn [step].
  - unfold onKeyDown. destruct teamSection as [classes|]; [|exact H].
    destruct (negb _); [exact H|].
    destruct (String.eqb key "ArrowRight"); [now apply steady_triggerFlip|].
    destruct (String.eqb key "ArrowLeft"); [now apply steady_triggerFlip | exact H].
  - now apply steady_startTeamDrag.
  - exact H.
  - now apply steady_onTeamDragEnd.
  - now apply steady_triggerFlip.
  - apply (steady_tick (now s + 750) s H). now apply steady_over.
Qed.

Lemma steady_run (es : list event) (s : Card) : steady s -> steady (run s es).
Proof.
  revert s. induction es as [|e es IH]; intros s H; cbn [run fold_left]; [exact H|].
  apply IH. now apply steady_step.
Qed.

Lemma steady_wait (T n : nat) (s : Card) :
  steady s -> Forall (fun t => (over_by t <= T)%nat) (timers s) ->
  steady (run s (wait n))
  /\ Forall (fun t => (over_by t <= T)%nat) (timers (run s (wait n)))
  /\ now (run s (wait n)) = (now s + n)%nat.
Proof.
  revert s. induction n as [|n IH]; intros s H Ho.
  - cbn. split; [exact H|]. split; [exact Ho | lia].
  - change (run s (wait (S n))) with (run (tick s) (wait n)).
    destruct (steady_tick T s H Ho) as (A1 & A2 & A3).
    destruct (IH _ A1 A2) as (B1 & B2 & B3).
    split; [exact B1|]. split; [exact B2 | lia].
Qed.

Lemma steady_init (d : Dom) :
  page_ok d -> (forall c, In c flip_classes ->
                  option_map (fun n => contains (classList n) c) (lookup "team-card" d)
                  <> Some true) ->
  steady (settle (initTeam (initial d))).
Proof.
  intros Hp Hno. pose proof (card_ok_init d Hp) as H0.
  destruct (initTeam_effect d Hp) as (s2 & Hrun & Hcard & Hs2).
  rewrite Hrun in *. cbn [settle] in *.
  assert (E2 : s2 = set_dom (dom s2) (initial d)) by (rewrite <- Hs2; now destruct s2).
  assert (Ht : timers s2 = []) by (rewrite E2; reflexivity).
  split; [|unfold settled; rewrite Ht; constructor].
  split; [exact H0|]. split; [now right|]. split; [|rewrite Ht; constructor].
  intros c Hc Hhas. exfalso. apply (Hno c Hc). unfold has in Hhas. rewrite Hcard in Hhas.
  destruct (lookup "team-card" d); [cbn; now rewrite Hhas | discriminate].
Qed.

Lemma card_run_app (s : Card) (es1 es2 : list event) :
  run s (es1 ++ es2) = run (run s es1) es2.
Proof. unfold run. apply fold_left_app. Qed.

(** X27.  A flip is over 750 ms after it began: whatever keys, drags and
    flips the card received, once 750 ms or more have passed without another
    one no timer of the card is pending and the card carries none of the
    four flip classes. *)
Theorem flip_settles_within_750ms (d : Dom) (es : list event) (n : nat) (c : string) :
  page_ok d ->
  (forall c, In c flip_classes ->
     option_map (fun n => contains (classList n) c) (lookup "team-card" d) <> Some true) ->
  In c flip_classes -> (750 <= n)%nat ->
  let s := run (settle (initTeam (initial d))) (es ++ wait n) in
  timers s = [] /\ has c "team-card" s = false.
Proof.
  intros Hp Hno Hc Hn s.
  pose proof (steady_run es _ (steady_init d Hp Hno)) as H1.
  destruct (steady_wait _ n _ H1 (steady_over _ H1)) as ([Hf Hs] & Ho & Hnow).
  unfold s. rewrite card_run_app.
  remember (run (settle (initTeam (initial d))) es) as s0 eqn:E0. clear E0.
  remember (run s0 (wait n)) as r eqn:Er. clear Er.
  assert (Ht : timers r = []).
  { destruct (timers r) as [|t ts] eqn:Et; [reflexivity|]. exfalso.
    unfold settled in Hs. rewrite Et in Hs. inversion Hs; subst. inversion Ho; subst.
    unfold over_by in *. destruct (callback t); lia. }
  split; [exact Ht|].
  destruct (has c "team-card" r) eqn:Hh; [|reflexivity].
  destruct Hf as (_ & _ & Hacc & _). destruct (Hacc c Hc Hh) as (t & Hin & _).
  rewrite Ht in Hin. contradiction.
Qed.

Lemma sample_no_flip (c : string) :
  In c flip_classes ->
  option_map (fun n => contains (classList n) c) (lookup "team-card" sample_dom) <> Some true.
Proof. intros _. cbn. congruence. Qed.

Lemma flip_settles_within_750ms_witness :
  timers (run (settle (initTeam (initial sample_dom))) ([Flip "left"] ++ wait 750)) = []
  /\ has "flip-in-right" "team-card"
       (run (settle (initTeam (initial sample_dom))) ([Flip "left"] ++ wait 750)) = false.
Proof.
  apply (flip_settles_within_750ms sample_dom [Flip "left"] 750 "flip-in-right").
  - exact sample_page_ok.
  - exact sample_no_flip.
  - cbn. tauto.
  - lia.
Defined.

Lemma set_now_same (s : Card) : set_now (now s) s = s.
Proof. now destruct s. Qed.

(** A millisecond in which nothing is due only moves the clock. *)
Lemma card_tick_quiet (s : Card) :
  Forall (fun t => (S (now s) < due t)%nat) (timers s) -> tick s = set_now (S (now s)) s.
Proof.
  intro H. unfold tick. cbv zeta.
  destruct (List.length (timers (set_now (S (now s)) s))); cbn [run_due]; [reflexivity|].
  cbn [now timers set_now].
  now rewrite (proj2 (card_pop_due_none (S (now s)) (timers s)) H).
Qed.

Lemma card_run_quiet (n : nat) (s : Card) :
  Forall (fun t => (now s + n < due t)%nat) (timers s) ->
  run s (wait n) = set_now (now s + n) s.
Proof.
  revert s. induction n as [|n IH]; intros s H.
  - cbn. rewrite Nat.add_0_r. symmetry. apply set_now_same.
  - change (run s (wait (S n))) with (run (tick s) (wait n)).
    rewrite card_tick_quiet.
    + rewrite IH.
      * cbn [now set_now]. replace (S (now s) + n)%nat with (now s + S n)%nat by lia.
        now destruct s.
      * cbn [now set_now timers]. eapply Forall_impl; [|exact H]. cbv beta. intros; lia.
    + eapply Forall_impl; [|exact H]. cbv beta. intros; lia.
Qed.

(** The one pending timer fires in the millisecond it is due. *)
Lemma card_fire_after (s : Card) (x : Timer) (k : nat) :
  timers s = [x] -> due x = (now s + S k)%nat ->
  run s (wait (S k))
  = settle (run_task (callback x) (set_timers [] (set_now (now s + S k) s))).
Proof.
  intros Ht Hd. unfold wait. rewrite <- Nat.add_1_r, repeat_app. fold (wait k).
  rewrite card_run_app, (card_run_quiet k s).
  2:{ rewrite Ht. repeat constructor. lia. }
  cbn [repeat run fold_left step]. unfold tick. cbv zeta.
  cbn [now set_now timers]. rewrite Ht. cbn [List.length run_due now set_now timers pop_due].
  rewrite Ht. cbn [pop_due].
  replace (due x <=? S (now s + k))%nat with true by (symmetry; apply Nat.leb_le; lia).
  replace (S (now s + k)) with (now s + (k + 1))%nat by lia.
  now destruct s.
Qed.

(** What the 250 ms callback does to a card in order. *)
Lemma swap_effect (direction outClass : string) (s : Card) :
  card_ok s -> teamCardEl s = Some "team-card" ->
  let j := if String.eqb direction "left"
           then js_rem (currentTeamIndex s + 1) length_of_teamMembers
           else js_rem (currentTeamIndex s - 1 + length_of_teamMembers)
                  length_of_teamMembers in
  let inClass := inClass_of direction in
  exists s2,
    settle (run_task (SwapContent direction outClass) s)
    = set_timers (timers s ++ [mkTimer (now s + 500) (RemoveInClass inClass)])
        (set_dom (update "team-card" (add_class inClass)
                    (update "team-card" (remove_class outClass) (dom s2)))
           s2)
    /\ s2 = set_dom (dom s2) (set_currentTeamIndex j s)
    /\ lookup "team-card" (dom s2) = lookup "team-card" (dom s).
Proof.
  intros (Hp0 & Hc0 & Hi0 & _) Href j inClass.
  assert (Hj : (0 <= j < length_of_teamMembers)%Z).
  { unfold j. destruct (in_range_next _ Hi0). destruct (String.eqb direction "left"); auto. }
  destruct (member_in_range j Hj) as (m & Hm).
  set (s1 := set_currentTeamIndex j s).
  pose proof Hp0 as (P0 & P1 & P2 & P3 & P4).
  destruct (updateTeamCard_effect j m s1 Hm P1 P2 P3 P4)
    as (s2 & Hrun & _ & _ & _ & _ & Hcard & Hs2).
  assert (E2 : s2 = set_dom (dom s2) s1) by (rewrite <- Hs2; now destruct s2).
  assert (Hc2 : teamCardEl s2 = Some "team-card") by (rewrite E2; exact Href).
  assert (Hn2 : now s2 = now s) by (rewrite E2; reflexivity).
  assert (Ht2 : timers s2 = timers s) by (rewrite E2; reflexivity).
  exists s2. split; [|split; [exact E2 | exact Hcard]].
  rewrite <- Hn2, <- Ht2.
  cbn [run_task]. unfold bind at 1. unfold gets at 1. unfold bind at 1.
  unfold modify at 1. fold j. fold s1. unfold bind at 1. unfold gets at 1.
  change (currentTeamIndex s1) with j. unfold bind at 1. rewrite Hrun.
  unfold bind, gets, write, modify, setTimeout.
  rewrite Hc2. cbn [settle teamCardEl set_dom]. rewrite Hc2. reflexivity.
Qed.

Lemma js_rem_next (i : Z) :
  (0 <= i < 6)%Z ->
  js_rem (i + 1) 6 = ((i + 1) mod 6)%Z /\ js_rem (i - 1 + 6) 6 = ((i - 1) mod 6)%Z.
Proof.
  intro H. unfold js_rem. split.
  - apply Z.rem_mod_nonneg; lia.
  - rewrite Z.rem_mod_nonneg by lia.
    replace (i - 1 + 6)%Z with (i - 1 + 1 * 6)%Z by lia. apply Z.mod_add. lia.
Qed.

(** X28.  A flip changes the member a quarter of a second later, and by one
    place: with no other flip under way and nothing else happening, the card
    keeps its member for 249 ms after [triggerFlip(direction)], and at
    250 ms it shows the next member for ['left'], the previous one for any
    other direction, going round the six. *)
Theorem flip_shows_neighbour (d : Dom) (es : list event) (direction : string) (s : Card) :
  page_ok d ->
  (forall c, In c flip_classes ->
     option_map (fun n => contains (classList n) c) (lookup "team-card" d) <> Some true) ->
  s = run (settle (initTeam (initial d))) es ->
  timers s = [] ->
  let i := currentTeamIndex s in
  let j := if String.eqb direction "left" then ((i + 1) mod 6)%Z else ((i - 1) mod 6)%Z in
  (forall k, (k < 250)%nat -> currentTeamIndex (run s (Flip direction :: wait k)) = i)
  /\ currentTeamIndex (run s (Flip direction :: wait 250)) = j
  /\ exists m, member_at j = Some m /\ shown m (run s (Flip direction :: wait 250)).
Proof.
  intros Hp Hno Hs Ht i j.
  assert (Hst : steady s) by (rewrite Hs; apply steady_run, steady_init; assumption).
  pose proof Hst as [(Hok & _) _]. pose proof Hok as ((Hpc & _) & Hc & Hi & _).
  set (outClass := if String.eqb direction "left" then "flip-out-left" else "flip-out-right").
  set (x := mkTimer (now s + 250) (SwapContent direction outClass)).
  set (s1 := set_timers [x]
               (set_dom (update "team-card" (add_class outClass) (dom s))
                  (set_teamCardEl (Some "team-card") s))).
  assert (E1 : forall es', run s (Flip direction :: es') = run s1 es').
  { intro es'. cbn [run fold_left step]. rewrite (triggerFlip_effect direction s Hpc Hc).
    cbn [settle]. rewrite Ht. reflexivity. }
  assert (Hst1 : steady s1).
  { pose proof (steady_triggerFlip direction s Hst) as H1.
    rewrite (triggerFlip_effect direction s Hpc Hc) in H1. cbn [settle] in H1.
    rewrite Ht in H1. exact H1. }
  split; [|].
  - intros k Hk. rewrite E1, card_run_quiet; [reflexivity|].
    cbn [timers s1 set_timers]. repeat constructor. cbn. lia.
  - rewrite E1. rewrite (card_fire_after s1 x 249 eq_refl) by (cbn; lia).
    set (s0 := set_timers [] (set_now (now s1 + 250) s1)).
    assert (Hok0 : card_ok s0).
    { destruct Hst1 as [(Hok1 & _) _]. apply (card_ok_frame s1); try reflexivity; [|exact Hok1].
      now right. }
    destruct (swap_effect direction outClass s0 Hok0 eq_refl) as (s2 & E & E2 & _).
    pose proof (card_ok_swap direction outClass s0 Hok0) as Hok'.
    change (callback x) with (SwapContent direction outClass).
    assert (Hidx : currentTeamIndex (settle (run_task (SwapContent direction outClass) s0)) = j).
    { rewrite E. cbn [currentTeamIndex set_timers set_dom]. rewrite E2.
      cbn [currentTeamIndex set_dom set_currentTeamIndex].
      change (currentTeamIndex s0) with i. change length_of_teamMembers with 6%Z in *.
      destruct (js_rem_next i Hi) as [A B]. unfold j.
      destruct (String.eqb direction "left"); assumption. }
    split; [exact Hidx|].
    destruct Hok' as (_ & _ & _ & m & Hm & Hsh). rewrite Hidx in Hm. eauto.
Qed.

Lemma flip_shows_neighbour_witness :
  (forall k, (k < 250)%nat ->
     currentTeamIndex (run (settle (initTeam (initial sample_dom))) (Flip "right" :: wait k))
     = 0%Z)
  /\ currentTeamIndex (run (settle (initTeam (initial sample_dom))) (Flip "right" :: wait 250))
     = 5%Z
  /\ exists m, member_at 5 = Some m
       /\ shown m (run (settle (initTeam (initial sample_dom))) (Flip "right" :: wait 250)).
Proof.
  apply (flip_shows_neighbour sample_dom [] "right" (settle (initTeam (initial sample_dom)))).
  - exact sample_page_ok.
  - exact sample_no_flip.
  - reflexivity.
  - reflexivity.
Defined.

Lemma existsb_filter_out (l : string * string) (L : list (string * string)) :
  existsb (same_listener l) (filter (fun x => negb (same_listener l x)) L) = false.
Proof.
  induction L as [|a L IH]; [reflexivity|]. cbn [filter].
  destruct (same_listener l a) eqn:E; cbn [negb]; [exact IH|].
  cbn [existsb]. now rewrite E, IH.
Qed.

Lemma existsb_filter_mono {A : Type} (p f : A -> bool) (L : list A) :
  existsb p L = false -> existsb p (filter f L) = false.
Proof.
  induction L as [|a L IH]; [reflexivity|]. cbn [existsb filter]. intro H.
  apply orb_false_iff in H. destruct H as [H1 H2].
  destruct (f a); [cbn [existsb]; now rewrite H1, IH | now apply IH].
Qed.

Lemma drag_listeners_removed (l : string * string) (L : list (string * string)) :
  In l drag_listeners ->
  existsb (same_listener l)
    (filter (fun l => negb (same_listener ("touchend", "onTeamDragEnd") l))
       (filter (fun l => negb (same_listener ("touchmove", "onTeamDragMove") l))
          (filter (fun l => negb (same_listener ("mouseup", "onTeamDragEnd") l))
             (filter (fun l => negb (same_listener ("mousemove", "onTeamDragMove") l))
                L)))) = false.
Proof.
  intros [<-|[<-|[<-|[<-|[]]]]].
  - do 3 apply existsb_filter_mono. apply existsb_filter_out.
  - do 2 apply existsb_filter_mono. apply existsb_filter_out.
  - apply existsb_filter_mono. apply existsb_filter_out.
  - apply existsb_filter_out.
Qed.

Lemma startTeamDrag_mouse (e : PointerEvent) (s : Card) :
  lookup "team-card" (dom s) <> None -> includes (type e) "mouse" = true ->
  exists L,
    startTeamDrag e s
    = Normal tt (set_listeners L
                   (set_teamCardEl (Some "team-card")
                      (set_startX (clientX e) (set_isDraggingTeam true s)))).
Proof.
  intros Hp Hm.
  unfold startTeamDrag, getElementById, addEventListener, bind, gets, modify, ret.
  rewrite Hm. cbn [dom set_isDraggingTeam set_startX].
  destruct (lookup "team-card" (dom s)) as [n|] eqn:El; [|congruence].
  cbn. rewrite ?El. cbn.
  repeat match goal with
         | |- context [if ?b then _ else _] => destruct b
         end; eexists; reflexivity.
Qed.

(** X29.  A mouse drag over whole pixels flips the card only when it went
    further than 50 of them: after [startTeamDrag] and [onTeamDragEnd] with
    the mouse the dragging flag is off and the four listeners of the drag
    are gone; within 50 pixels nothing is scheduled and the page is
    untouched; further to the right a flip to the right is scheduled for
    250 ms later, further to the left a flip to the left.  (Between whole
    numbers the subtraction of line 396 is exact as far as the two tests
    go; with fractions of a pixel its rounding decides near 50:
    [binary64_drag_differences].) *)
Theorem mouse_drag_threshold (s : Card) (e0 e1 : PointerEvent) (x0 x1 : Z) :
  card_ok s ->
  includes (type e0) "mouse" = true -> includes (type e1) "mouse" = true ->
  clientX e0 = Some (inject_Z x0) -> clientX e1 = Some (inject_Z x1) ->
  let s' := run s [DragStart e0; DragEnd e1] in
  isDraggingTeam s' = false
  /\ (forall l, In l drag_listeners -> existsb (same_listener l) (listeners s') = false)
  /\ ((Z.abs (x1 - x0) <= 50)%Z -> timers s' = timers s /\ dom s' = dom s)
  /\ ((50 < x1 - x0)%Z ->
      timers s' = (timers s ++ [mkTimer (now s + 250) (SwapContent "right" "flip-out-right")])%list)
  /\ ((x1 - x0 < -50)%Z ->
      timers s' = (timers s ++ [mkTimer (now s + 250) (SwapContent "left" "flip-out-left")])%list).
Proof.
  intros Hok Hm0 Hm1 Hx0 Hx1 s'. pose proof Hok as ((Hp & _) & Hc & _).
  destruct (startTeamDrag_mouse e0 s Hp Hm0) as (L & EA).
  unfold s'. cbn [run fold_left step]. rewrite EA. cbn [settle].
  set (sA := set_listeners L _).
  pose proof (onTeamDragEnd_effect e1 sA eq_refl) as Eeff. cbv zeta in Eeff.
  set (s1 := set_listeners _ (set_isDraggingTeam false sA)) in Eeff.
  rewrite Hm1, Hx1 in Eeff. change (startX sA) with (clientX e0) in Eeff.
  rewrite Hx0 in Eeff. rewrite Eeff. clear Eeff.
  unfold bind, ret. cbn [minus abs_gt gt]. unfold Qgtb, Qltb.
  assert (Hl : forall l, In l drag_listeners -> existsb (same_listener l) (listeners s1) = false).
  { intros l Hl. apply drag_listeners_removed. exact Hl. }
  set (d := inject_Z x1 - inject_Z x0).
  assert (Hd : d == inject_Z (x1 - x0)).
  { unfold d, Z.sub. rewrite inject_Z_plus, inject_Z_opp. reflexivity. }
  assert (Hlt : forall a b : Z, (a < b)%Z -> inject_Z a < inject_Z b)
    by (intros a b H; now rewrite <- Zlt_Qlt).
  assert (Hle : forall a b : Z, (a <= b)%Z -> inject_Z a <= inject_Z b)
    by (intros a b H; now rewrite <- Zle_Qle).
  destruct (Qle_bool (Qabs d) 50) eqn:Ea; cbn [negb].
  - apply Qle_bool_iff in Ea. pose proof (proj1 (Qabs_Qle_condition _ _) Ea) as [A B].
    cbn [settle].
    split; [reflexivity|]. split; [exact Hl|]. split; [intros _; split; reflexivity|].
    split; intro H; exfalso.
    + apply Hlt in H. change (inject_Z 50) with 50 in H. lra.
    + apply Hlt in H. change (inject_Z (-50)) with (-50) in H. lra.
  - assert (Hna : ~ Qabs d <= 50).
    { intro H. apply Qle_bool_iff in H. congruence. }
    assert (Hfar : ~ (Z.abs (x1 - x0) <= 50)%Z).
    { intro H. apply Hna. apply Qabs_Qle_condition.
      assert (H1 : (-50 <= x1 - x0)%Z) by lia. assert (H2 : (x1 - x0 <= 50)%Z) by lia.
      apply Hle in H1, H2. change (inject_Z (-50)) with (-50) in H1.
      change (inject_Z 50) with 50 in H2. split; lra. }
    assert (Hp1 : lookup "team-card" (dom s1) <> None) by exact Hp.
    assert (Hc1 : teamCardEl s1 = None \/ teamCardEl s1 = Some "team-card") by now right.
    destruct (Qle_bool d 0) eqn:Eg; cbn [negb].
    + apply Qle_bool_iff in Eg.
      rewrite (triggerFlip_effect "left" s1 Hp1 Hc1). cbn [settle].
      split; [reflexivity|]. split; [exact Hl|]. split; [intro; contradiction|].
      split; [|intros _; reflexivity].
      intro H. exfalso. apply Hlt in H. change (inject_Z 50) with 50 in H. lra.
    + assert (Hpos : ~ d <= 0).
      { intro H. apply Qle_bool_iff in H. congruence. }
      rewrite (triggerFlip_effect "right" s1 Hp1 Hc1). cbn [settle].
      split; [reflexivity|]. split; [exact Hl|]. split; [intro; contradiction|].
      split; [intros _; reflexivity|].
      intro H. exfalso. apply Hlt in H. change (inject_Z (-50)) with (-50) in H. lra.
Qed.

(** A drag of 51 pixels to the right. *)
Lemma mouse_drag_threshold_witness :
  let s := settle (initTeam (initial sample_dom)) in
  let s' := run s [DragStart (mkPointerEvent "mousedown" (Some (inject_Z 100)) None None);
                   DragEnd (mkPointerEvent "mouseup" (Some (inject_Z 151)) None None)] in
  isDraggingTeam s' = false
  /\ timers s' = (timers s ++ [mkTimer (now s + 250) (SwapContent "right" "flip-out-right")])%list.
Proof.
  intros s s'.
  destruct (mouse_drag_threshold (settle (initTeam (initial sample_dom)))
              (mkPointerEvent "mousedown" (Some (inject_Z 100)) None None)
              (mkPointerEvent "mouseup" (Some (inject_Z 151)) None None) 100 151)
    as (Hflag & _ & _ & Hright & _).
  - apply card_ok_init. exact sample_page_ok.
  - reflexivity.
  - reflexivity.
  - reflexivity.
  - reflexivity.
  - split; [exact Hflag|]. apply Hright. lia.
Defined.
End TeamCardFacts.
